(** * Pool-connection strategies and the Verthash dataset manager

    A shallow embedding of

    - [src/base/net/stratum/strategies/FailoverStrategy.cpp]
    - [src/net/strategies/DonateStrategy.cpp]
    - [src/crypto/verthash/VerthashWrapper.cpp]
    - [src/crypto/verthash/Vh.cpp]
    - [src/backend/opencl/runners/OclVerthashRunner.cpp]

    Every method of a class becomes a computation in a small monad that
    threads the object's members, records the calls the method makes on
    its collaborators (pool clients, the listener, the timer, the loader)
    and fails where the C++ has no defined behaviour (indexing a vector
    out of range, calling through a null pointer, a failed [assert]). *)

From Stdlib Require Import ZArith String List Bool Lia Permutation.
Import ListNotations.
Local Open Scope Z_scope.

(** ** Machine integers *)

(** [static_cast<size_t>(x)] on a 64-bit target. *)
Definition to_size_t (z : Z) : Z := z mod 2 ^ 64.

(** [static_cast<int>(x)]: two's complement, 32 bits. *)
Definition to_int (z : Z) : Z := (z + 2 ^ 31) mod 2 ^ 32 - 2 ^ 31.

(** [a - b] on [size_t]. *)
Definition size_sub (a b : Z) : Z := to_size_t (a - b).

(** [static_cast<uint64_t>(x)] *)
Definition to_uint64 (z : Z) : Z := z mod 2 ^ 64.

(** The values of an [int]; arithmetic on [int] that leaves them is
    undefined. *)
Definition in_int (z : Z) : bool := (- 2 ^ 31 <=? z) && (z <? 2 ^ 31).

(** ** The method monad: members, call trace, undefined behaviour *)

Section MethodMonad.
Context {St Call : Type}.

Definition M (A : Type) : Type := St -> option (A * St * list Call).

Definition ret {A} (a : A) : M A := fun s => Some (a, s, []).

Definition bind {A B} (m : M A) (f : A -> M B) : M B :=
  fun s =>
    match m s with
    | None => None
    | Some (a, s1, t1) =>
        match f a s1 with
        | None => None
        | Some (b, s2, t2) => Some (b, s2, t1 ++ t2)
        end
    end.

Definition gets {A} (f : St -> A) : M A := fun s => Some (f s, s, []).
Definition modify (f : St -> St) : M unit := fun s => Some (tt, f s, []).
Definition call (c : Call) : M unit := fun s => Some (tt, s, [c]).
Definition undefined {A} : M A := fun _ => None.

(** [for (x : l) body(x);] *)
Fixpoint for_each {A} (l : list A) (body : A -> M unit) : M unit :=
  match l with
  | [] => ret tt
  | x :: r => bind (body x) (fun _ => for_each r body)
  end.
End MethodMonad.

Arguments M : clear implicits.

Declare Scope method_scope.
Delimit Scope method_scope with method.
Notation "x <- c ;; k" := (bind c (fun x => k))
  (at level 61, c at next level, right associativity) : method_scope.
Notation "c ;; k" := (bind c (fun _ => k))
  (at level 61, right associativity) : method_scope.
Local Open Scope method_scope.

(** The indices [lo, lo+1, ..., hi-1] of a counting loop. *)
Definition range (lo hi : Z) : list Z :=
  map (fun k => lo + Z.of_nat k) (seq 0 (Z.to_nat (hi - lo))).

(** ** Collaborators *)

(** A pool description; the strategies only hand it to [createClient]. *)
Record Pool := { host : string; port : Z; user : string; tls : bool }.

(** [IClient]: the strategies read nothing of a client but its [id()]. *)
Record IClient := { id : Z }.

(** A job; the strategies forward it and read these four fields. *)
Record Job := { algorithm : string; diff : Z; height : Z; seed : string }.

(** * FailoverStrategy *)

Module Failover.

(** Calls a [FailoverStrategy] makes on its clients and on its listener. *)
Inductive Call :=
| ClientSetRetries (c : IClient) (n : Z)
| ClientSetRetryPause (c : IClient) (ms : Z)
| ClientSetQuiet (c : IClient) (q : bool)
| ClientConnect (c : IClient)
| ClientDisconnect (c : IClient)
| ClientTick (c : IClient) (now : Z)
| ClientSetAlgo (c : IClient) (algo : string)
| ClientSetProxy (c : IClient) (proxy : string)
| ClientSubmit (c : IClient) (result : string)
| ListenerOnPause
| ListenerOnActive (c : IClient)
| ListenerOnJob (c : IClient) (job : Job)
| ListenerOnLogin (c : IClient)
| ListenerOnResultAccepted (c : IClient) (result : string) (error : option string)
| ListenerOnVerifyAlgorithm (c : IClient) (algo : string).

Record FailoverStrategy := mkFailover {
  m_quiet : bool;
  m_retries : Z;
  m_retryPause : Z;
  m_active : Z;
  m_index : Z;
  m_minAcceptableIndex : Z;
  m_pendingConnect : bool;
  m_pendingIndex : Z;
  m_pools : list IClient
}.

Definition set_active (v : Z) (s : FailoverStrategy) :=
  mkFailover (m_quiet s) (m_retries s) (m_retryPause s) v (m_index s)
    (m_minAcceptableIndex s) (m_pendingConnect s) (m_pendingIndex s) (m_pools s).
Definition set_index (v : Z) (s : FailoverStrategy) :=
  mkFailover (m_quiet s) (m_retries s) (m_retryPause s) (m_active s) v
    (m_minAcceptableIndex s) (m_pendingConnect s) (m_pendingIndex s) (m_pools s).
Definition set_minAcceptableIndex (v : Z) (s : FailoverStrategy) :=
  mkFailover (m_quiet s) (m_retries s) (m_retryPause s) (m_active s) (m_index s)
    v (m_pendingConnect s) (m_pendingIndex s) (m_pools s).
Definition set_pendingConnect (v : bool) (s : FailoverStrategy) :=
  mkFailover (m_quiet s) (m_retries s) (m_retryPause s) (m_active s) (m_index s)
    (m_minAcceptableIndex s) v (m_pendingIndex s) (m_pools s).
Definition set_pendingIndex (v : Z) (s : FailoverStrategy) :=
  mkFailover (m_quiet s) (m_retries s) (m_retryPause s) (m_active s) (m_index s)
    (m_minAcceptableIndex s) (m_pendingConnect s) v (m_pools s).
Definition push_back (c : IClient) (s : FailoverStrategy) :=
  mkFailover (m_quiet s) (m_retries s) (m_retryPause s) (m_active s) (m_index s)
    (m_minAcceptableIndex s) (m_pendingConnect s) (m_pendingIndex s)
    (m_pools s ++ [c]).

Definition FM := M FailoverStrategy Call.

(** [m_pools.size()] *)
Definition pools_size (s : FailoverStrategy) : Z := Z.of_nat (length (m_pools s)).

(** [m_pools[i]]: indexing past the end is undefined. *)
Definition pool_at (i : Z) : FM IClient :=
  fun s =>
    match nth_error (m_pools s) (Z.to_nat i) with
    | Some c => Some (c, s, [])
    | None => None
    end.

(** [Pool::createClient(id, listener)] *)
Definition createClient (pool : Pool) (i : Z) : IClient := {| id := i |}.

(** Modelled from the spec: the header FailoverStrategy.h, which declares
    the members and [isActive], is absent.  "[m_active]: id of the
    authorized client, or -1", so a pool is active when [m_active] is not
    negative. *)
Definition isActive (s : FailoverStrategy) : bool := 0 <=? m_active s.

(** Modelled from the spec: the in-class initialisers of the absent header;
    the cascade begins at [m_index = 0] with nothing active, nothing
    pending and every pool acceptable. *)
Definition fresh (quiet : bool) (retries retryPause : Z) : FailoverStrategy :=
  mkFailover quiet retries retryPause (-1) 0 0 false 0 [].

(** [add]; [m_retryPause * 1000] is a product of two [int]s. *)
Definition add (pool : Pool) : FM unit :=
  n <- gets pools_size ;;
  let client := createClient pool (to_int n) in
  retries <- gets m_retries ;;
  call (ClientSetRetries client retries) ;;
  pause <- gets m_retryPause ;;
  (if in_int (pause * 1000)
   then call (ClientSetRetryPause client (pause * 1000))
   else undefined) ;;
  quiet <- gets m_quiet ;;
  call (ClientSetQuiet client quiet) ;;
  modify (push_back client).

(** The constructor taking the pool list. *)
Definition construct (pools : list Pool) (retryPause retries : Z) (quiet : bool)
  : option (unit * FailoverStrategy * list Call) :=
  for_each pools add (fresh quiet retries retryPause).

(** [active()]: the client at [m_active]. *)
Definition active : FM IClient :=
  a <- gets m_active ;;
  pool_at (to_size_t a).

(** [submit]; [seq] is the sequence number the active client answers. *)
Definition submit (result : string) (seq : Z) : FM Z :=
  is_active <- gets isActive ;;
  if negb is_active then ret (-1)
  else
    c <- active ;;
    call (ClientSubmit c result) ;;
    ret seq.

Definition connect : FM unit :=
  index <- gets m_index ;;
  c <- pool_at index ;;
  call (ClientConnect c).

(** [resume]; [job] is the job the active client holds. *)
Definition resume (job : Job) : FM unit :=
  is_active <- gets isActive ;;
  if negb is_active then ret tt
  else
    c <- active ;;
    call (ListenerOnJob c job).

Definition setAlgo (algo : string) : FM unit :=
  pools <- gets m_pools ;;
  for_each pools (fun client => call (ClientSetAlgo client algo)).

Definition setProxy (proxy : string) : FM unit :=
  pools <- gets m_pools ;;
  for_each pools (fun client => call (ClientSetProxy client proxy)).

Definition stop : FM unit :=
  pools <- gets m_pools ;;
  for_each pools (fun pool => call (ClientDisconnect pool)) ;;
  modify (set_index 0) ;;
  modify (set_active (-1)) ;;
  call ListenerOnPause.

Definition connectNext : FM unit :=
  pending <- gets m_pendingConnect ;;
  pendingIndex <- gets m_pendingIndex ;;
  size <- gets pools_size ;;
  if negb pending || (size <=? pendingIndex) then ret tt
  else
    modify (set_pendingConnect false) ;;
    modify (set_index pendingIndex) ;;
    index <- gets m_index ;;
    c <- pool_at index ;;
    call (ClientConnect c).

Definition tick (now : Z) : FM unit :=
  pools <- gets m_pools ;;
  for_each pools (fun client => call (ClientTick client now)) ;;
  connectNext.

Definition onClose (client : IClient) (failures : Z) : FM unit :=
  if failures =? -1 then ret tt
  else
    active <- gets m_active ;;
    (if active =? id client
     then modify (set_active (-1)) ;; call ListenerOnPause
     else ret tt) ;;
    retries <- gets m_retries ;;
    if retries =? 0 then
      minAcceptable <- gets m_minAcceptableIndex ;;
      if to_size_t (id client) <? minAcceptable then
        call (ClientDisconnect client)
      else
        index <- gets m_index ;;
        if index =? to_size_t (id client) then
          for_each (range 0 (index + 1))
            (fun i => c <- pool_at i ;; call (ClientDisconnect c)) ;;
          size <- gets pools_size ;;
          (if 1 <? size_sub size index then
             modify (set_pendingIndex (to_size_t (index + 1))) ;;
             pendingIndex <- gets m_pendingIndex ;;
             modify (set_minAcceptableIndex pendingIndex)
           else
             modify (set_pendingIndex 0) ;;
             modify (set_minAcceptableIndex 0)) ;;
          modify (set_pendingConnect true)
        else ret tt
    else
      index <- gets m_index ;;
      if (index =? 0) && (failures <? retries) then ret tt
      else
        size <- gets pools_size ;;
        if (index =? to_size_t (id client)) && (1 <? size_sub size index) then
          modify (set_index (to_size_t (index + 1))) ;;
          index' <- gets m_index ;;
          c <- pool_at index' ;;
          call (ClientConnect c)
        else ret tt.

Definition onLogin (client : IClient) : FM unit :=
  call (ListenerOnLogin client).

Definition onJobReceived (client : IClient) (job : Job) : FM unit :=
  active <- gets m_active ;;
  if active =? id client then call (ListenerOnJob client job) else ret tt.

Definition onLoginSuccess (client : IClient) : FM unit :=
  active0 <- gets m_active ;;
  retries <- gets m_retries ;;
  minAcceptable <- gets m_minAcceptableIndex ;;
  if (retries =? 0) && (to_size_t (id client) <? minAcceptable) then
    call (ClientDisconnect client)
  else
    modify (set_pendingConnect false) ;;
    modify (set_minAcceptableIndex 0) ;;
    is_active <- gets isActive ;;
    let active := if (id client =? 0) || negb is_active then id client else active0 in
    size <- gets pools_size ;;
    for_each (range 0 size)
      (fun i => if negb (active =? to_int i)
                then c <- pool_at i ;; call (ClientDisconnect c)
                else ret tt) ;;
    current <- gets m_active ;;
    if (0 <=? active) && negb (active =? current) then
      modify (set_active active) ;;
      modify (set_index (to_size_t active)) ;;
      call (ListenerOnActive client)
    else ret tt.

Definition onResultAccepted (client : IClient) (result : string)
           (error : option string) : FM unit :=
  call (ListenerOnResultAccepted client result error).

Definition onVerifyAlgorithm (client : IClient) (algo : string) : FM unit :=
  call (ListenerOnVerifyAlgorithm client algo).

End Failover.

(** ** Vocabulary for the statements about [FailoverStrategy] *)

Module FailoverSpec.
Import Failover.

(** The pool list [add] builds: the client at index [i] has id [i]. *)
Definition clients (n : Z) : list IClient := map Build_IClient (range 0 n).

(** Well-formed strategies: the pool list is the one the constructor builds,
    ids fit an [int], and the [size_t] members are in range. *)
Definition wf (s : FailoverStrategy) : Prop :=
  pools_size s < 2 ^ 31 /\ m_pools s = clients (pools_size s) /\
  0 <= m_index s < 2 ^ 64 /\
  0 <= m_minAcceptableIndex s < 2 ^ 64 /\
  0 <= m_pendingIndex s < 2 ^ 64.

(** The first step of [onClose]: a closing client that was the active one
    stops being so, and the listener is paused. *)
Definition pause_if_active (s : FailoverStrategy) (client : IClient) : list Call :=
  if m_active s =? id client then [ListenerOnPause] else [].

Definition clear_if_active (s : FailoverStrategy) (client : IClient) : FailoverStrategy :=
  if m_active s =? id client then set_active (-1) s else s.

(** The calls [m_pools[0]->disconnect()], ..., [m_pools[k]->disconnect()]. *)
Definition disconnect_upto (k : Z) : list Call :=
  map (fun i => ClientDisconnect {| id := i |}) (range 0 (k + 1)).

(** The deferred connect [onClose] leaves behind in zero-retry mode. *)
Definition schedule_next (s : FailoverStrategy) : FailoverStrategy :=
  let p := if m_index s + 1 <? pools_size s then m_index s + 1 else 0 in
  set_pendingConnect true (set_minAcceptableIndex p (set_pendingIndex p s)).

(** The calls [tick] makes on every client. *)
Definition ticks (s : FailoverStrategy) (now : Z) : list Call :=
  map (fun c => ClientTick c now) (m_pools s).

(** The calls [disconnect()] on every pool but [active], in list order. *)
Definition disconnect_others (active size : Z) : list Call :=
  map (fun i => ClientDisconnect {| id := i |})
      (filter (fun i => negb (active =? i)) (range 0 size)).

(** The local [active] of [onLoginSuccess] once the login is accepted. *)
Definition login_active (s : FailoverStrategy) (client : IClient) : Z :=
  if (id client =? 0) || negb (isActive s) then id client else m_active s.

(** The members after an accepted login. *)
Definition accept_login (s : FailoverStrategy) (client : IClient) : FailoverStrategy :=
  let s0 := set_minAcceptableIndex 0 (set_pendingConnect false s) in
  let active := login_active s client in
  if active =? m_active s then s0 else set_index active (set_active active s0).

(** Events a strategy receives from its clients and from the host loop. *)
Inductive Event :=
| EvClose (client : IClient) (failures : Z)
| EvLoginSuccess (client : IClient)
| EvTick (now : Z).

Definition handle (e : Event) : FM unit :=
  match e with
  | EvClose c f => onClose c f
  | EvLoginSuccess c => onLoginSuccess c
  | EvTick now => tick now
  end.

Definition run_events (evs : list Event) : FM unit := for_each evs handle.

(** The state a sequence of events leads to. *)
Definition state_after (evs : list Event) (s : FailoverStrategy) : FailoverStrategy :=
  match run_events evs s with
  | Some (_, s', _) => s'
  | None => s
  end.

Definition donation_pool (h : string) : Pool :=
  {| host := h; port := 3333; user := "wallet/worker"; tls := false |}.

(** The strategy the constructor builds, as [DonateStrategy] does: one
    second of retry pause, quiet. *)
Definition built (pools : list Pool) (retries : Z) : FailoverStrategy :=
  match construct pools 1 retries true with
  | Some (_, s, _) => s
  | None => fresh true retries 1
  end.

Definition two_pools : list Pool := [donation_pool "a"; donation_pool "b"].
Definition three_pools : list Pool :=
  [donation_pool "a"; donation_pool "b"; donation_pool "c"].

Definition pool0 : IClient := {| id := 0 |}.
Definition pool1 : IClient := {| id := 1 |}.
Definition pool2 : IClient := {| id := 2 |}.

(** What a close on the current pool is to do in zero-retry mode: every pool
    up to the current one is disconnected, the next pool (pool 0 after the
    last) is pending and is the minimum acceptable one, [connect] is called
    on no client, and the next [tick] connects the pending pool. *)
Definition close_schedules_next (s : FailoverStrategy) (client : IClient)
           (failures : Z) : Prop :=
  exists s' t,
    onClose client failures s = Some (tt, s', t) /\
    (forall c, In c (m_pools s) -> id c <= m_index s -> In (ClientDisconnect c) t) /\
    m_pendingIndex s' = (if m_index s + 1 <? pools_size s then m_index s + 1 else 0) /\
    m_minAcceptableIndex s' = m_pendingIndex s' /\
    m_pendingConnect s' = true /\
    (forall c, ~ In (ClientConnect c) t) /\
    (forall now, exists s'' t',
        tick now s' = Some (tt, s'', t') /\
        m_index s'' = m_pendingIndex s' /\
        t' = ticks s' now ++ [ClientConnect {| id := m_pendingIndex s' |}]).

(** A close exhausts the pool list when it is on the current pool, is not
    suppressed, and no next pool remains: the branch of [onClose] that wraps
    the cascade around to pool 0. *)
Definition exhausts (s : FailoverStrategy) (e : Event) : bool :=
  match e with
  | EvClose c _ =>
      (m_index s =? id c) && (m_minAcceptableIndex s <=? id c)
      && (pools_size s <=? m_index s + 1)
  | _ => false
  end.

(** No event of the sequence, run from [s], exhausts the pool list. *)
Fixpoint no_exhaustion (evs : list Event) (s : FailoverStrategy) : bool :=
  match evs with
  | [] => true
  | e :: r =>
      negb (exhausts s e)
      && match handle e s with
         | Some (_, s1, _) => no_exhaustion r s1
         | None => true
         end
  end.

(** Events that come from the strategy's own clients or from the host loop. *)
Definition own_event (s : FailoverStrategy) (e : Event) : Prop :=
  match e with
  | EvClose c _ | EvLoginSuccess c => In c (m_pools s)
  | EvTick _ => True
  end.

(** The events of a failover cascade: closes of the strategy's own clients
    with [failures >= 0], and ticks; no login. *)
Definition cascade_event (s : FailoverStrategy) (e : Event) : Prop :=
  match e with
  | EvClose c f => In c (m_pools s) /\ 0 <= f
  | EvTick _ => True
  | EvLoginSuccess _ => False
  end.
End FailoverSpec.

(** * DonateStrategy *)

Module Donate.

Inductive State := STATE_NEW | STATE_IDLE | STATE_CONNECT | STATE_ACTIVE | STATE_WAIT.

Definition State_eqb (a b : State) : bool :=
  match a, b with
  | STATE_NEW, STATE_NEW | STATE_IDLE, STATE_IDLE | STATE_CONNECT, STATE_CONNECT
  | STATE_ACTIVE, STATE_ACTIVE | STATE_WAIT, STATE_WAIT => true
  | _, _ => false
  end.

(** Modelled from the spec: [Pools::ProxyDonate] is declared in a header
    that is absent; "pools.proxyDonate: one of NONE, AUTO". *)
Inductive ProxyDonate := PROXY_DONATE_NONE | PROXY_DONATE_AUTO.

Definition ProxyDonate_eqb (a b : ProxyDonate) : bool :=
  match a, b with
  | PROXY_DONATE_NONE, PROXY_DONATE_NONE | PROXY_DONATE_AUTO, PROXY_DONATE_AUTO => true
  | _, _ => false
  end.

(** What [createProxy] reads of the operator's strategy and its client. *)
Record OperatorStrategy := {
  op_isActive : bool;
  op_ext_connect : bool;
  op_ext_tls : bool;
  op_isTLS : bool;
  op_proxy_valid : bool;
  op_host : string;
  op_ip : string;
  op_port : Z
}.

(** What the strategy reads through [m_controller]. *)
Record Controller := {
  donateLevel : Z;
  proxyDonate : ProxyDonate;
  network_strategy : OperatorStrategy;
  miner_algorithms : list string
}.

(** The JSON values [onLogin] adds to the login parameters. *)
Inductive Value :=
| VAlgorithms (names : list string)
| VNumber (n : Z)
| VHex (bytes : string)
| VUrl (pool : Pool) (ssl_scheme : bool).

(** [std::distance(begin, std::find(begin, end, a))]: the length when absent. *)
Fixpoint find_index (a : string) (l : list string) : nat :=
  match l with
  | [] => 0%nat
  | x :: r => if String.eqb x a then 0%nat else S (find_index a r)
  end.

(** [std::swap(l[0], l[index])] for [0 < index < size]. *)
Definition swap_front (index : nat) (l : list string) : list string :=
  match l, nth_error l index with
  | x0 :: r, Some xi =>
      xi :: firstn (index - 1) r ++ x0 :: skipn index r
  | _, _ => l
  end.

(** The two jitter windows of [idle(min, max)]: 0.5-1.5 and 0.8-1.2. *)
Inductive Jitter := Jitter_05_15 | Jitter_08_12.

Inductive Call :=
| NewFailoverStrategy (pools : list Pool) (retryPause retries : Z) (quiet : bool)
| NewSinglePoolStrategy (pool : Pool) (retryPause retries : Z) (quiet : bool)
| StrategyConnect
| StrategyStop
| StrategyTick (now : Z)
| StrategySetAlgo (algo : string)
| StrategySetProxy (proxy : string)
| StrategySubmit (result : string)
| ProxySetPool (c : IClient) (pool : Pool)
| ProxySetQuiet (c : IClient) (q : bool)
| ProxyConnect (c : IClient)
| ProxyTick (c : IClient) (now : Z)
| ProxySubmit (c : IClient) (result : string)
| ProxyDeleteLater (c : IClient)
| TimerStart (timeout repeat : Z)
| TimerStartRandom (base : Z) (window : Jitter)
| TimerStop
| ParamsAddMember (key : string) (value : Value)
| ListenerOnActive (c : IClient)
| ListenerOnPause
| ListenerOnJob (c : IClient) (job : Job)
| ListenerOnResultAccepted (c : IClient) (result : string) (error : option string)
| ListenerOnVerifyAlgorithm (c : IClient) (algo : string).

Record DonateStrategy := mkDonate {
  m_tls : bool;
  m_userId : string;
  m_algorithm : string;
  m_proxy : option IClient;
  m_state : State;
  m_pools : list Pool;
  m_donateTime : Z;
  m_idleTime : Z;
  m_diff : Z;
  m_height : Z;
  m_now : Z;
  m_timestamp : Z;
  m_seed : string
}.

Definition set_tls v s := mkDonate v (m_userId s) (m_algorithm s) (m_proxy s)
  (m_state s) (m_pools s) (m_donateTime s) (m_idleTime s) (m_diff s) (m_height s)
  (m_now s) (m_timestamp s) (m_seed s).
Definition set_algorithm v s := mkDonate (m_tls s) (m_userId s) v (m_proxy s)
  (m_state s) (m_pools s) (m_donateTime s) (m_idleTime s) (m_diff s) (m_height s)
  (m_now s) (m_timestamp s) (m_seed s).
Definition set_proxy v s := mkDonate (m_tls s) (m_userId s) (m_algorithm s) v
  (m_state s) (m_pools s) (m_donateTime s) (m_idleTime s) (m_diff s) (m_height s)
  (m_now s) (m_timestamp s) (m_seed s).
Definition set_state v s := mkDonate (m_tls s) (m_userId s) (m_algorithm s) (m_proxy s)
  v (m_pools s) (m_donateTime s) (m_idleTime s) (m_diff s) (m_height s)
  (m_now s) (m_timestamp s) (m_seed s).
Definition set_job (d h : Z) (sd : string) s := mkDonate (m_tls s) (m_userId s)
  (m_algorithm s) (m_proxy s) (m_state s) (m_pools s) (m_donateTime s) (m_idleTime s)
  d h (m_now s) (m_timestamp s) sd.
Definition set_now v s := mkDonate (m_tls s) (m_userId s) (m_algorithm s) (m_proxy s)
  (m_state s) (m_pools s) (m_donateTime s) (m_idleTime s) (m_diff s) (m_height s)
  v (m_timestamp s) (m_seed s).
Definition set_timestamp v s := mkDonate (m_tls s) (m_userId s) (m_algorithm s)
  (m_proxy s) (m_state s) (m_pools s) (m_donateTime s) (m_idleTime s) (m_diff s)
  (m_height s) (m_now s) v (m_seed s).

Definition DM := M DonateStrategy Call.

Definition kDonateHost : string := "pool-global.tari.snipanet.com".
Definition kDonateHostBackup : string := "xtm-rx.kryptex.network".
Definition kDonateHostTls : string := "pool-global.tari.snipanet.com".
Definition kWallet : string :=
  "127PHAz3ePq93yWJ1Gsz8VzznQFui5LYne5jbwtErzD5WsnqWAfPR37KwMyGAf5UjD2nXbYZiQPz7GMTEQRCTrGV3fH".

Definition state (s : DonateStrategy) : State := m_state s.

(** Modelled from the spec: [isActive] is defined inline in the absent
    header DonateStrategy.h; the strategy is active exactly while
    "state == ACTIVE". *)
Definition isActive (s : DonateStrategy) : bool := State_eqb (state s) STATE_ACTIVE.

Section Build.
(** [NDEBUG]: whether [assert] is compiled out. *)
Variable NDEBUG : bool.
(** [XMRIG_FEATURE_TLS] *)
Variable FEATURE_TLS : bool.
Variable controller : Controller.

(** A failed [assert] aborts the process. *)
Definition assert (c : bool) : DM unit :=
  if NDEBUG || c then ret tt else undefined.

Definition createProxy : DM (option IClient) :=
  if ProxyDonate_eqb (proxyDonate controller) PROXY_DONATE_NONE then ret None
  else
    let strategy := network_strategy controller in
    if negb (op_isActive strategy) || negb (op_ext_connect strategy) then ret None
    else
      modify (set_tls (op_ext_tls strategy)) ;;
      userId <- gets m_userId ;;
      let pool :=
        {| host := if op_proxy_valid strategy then op_host strategy
                    else op_ip strategy;
           port := op_port strategy;
           user := userId;
           tls := op_isTLS strategy |} in
      let proxy := {| id := -1 |} in
      call (ProxySetPool proxy pool) ;;
      call (ProxySetQuiet proxy true) ;;
      ret (Some proxy).

Definition connect : DM unit :=
  p <- createProxy ;;
  modify (set_proxy p) ;;
  match p with
  | Some proxy => call (ProxyConnect proxy)
  | None => call StrategyConnect
  end.

Definition setAlgo (algo : string) : DM unit :=
  modify (set_algorithm algo) ;;
  call (StrategySetAlgo algo).

Definition setProxy (proxy : string) : DM unit :=
  call (StrategySetProxy proxy).

(** [update(client, job)]; [proxy] is [client->pool().proxy()]. *)
Definition update (proxy : string) (job : Job) : DM unit :=
  setAlgo (algorithm job) ;;
  setProxy proxy ;;
  modify (set_job (diff job) (height job) (seed job)).

(** [submit]; [seq] is the sequence number the callee answers. *)
Definition submit (result : string) (seq : Z) : DM Z :=
  p <- gets m_proxy ;;
  match p with
  | Some proxy => call (ProxySubmit proxy result) ;; ret seq
  | None => call (StrategySubmit result) ;; ret seq
  end.

Definition stop : DM unit :=
  call TimerStop ;;
  call StrategyStop.

(** [idle(min, max)]: the delay is [random(m_idleTime, min, max)]. *)
Definition idle (window : Jitter) : DM unit :=
  idleTime <- gets m_idleTime ;;
  call (TimerStartRandom idleTime window).

Definition setState (st : State) : DM unit :=
  cur <- gets m_state ;;
  assert (negb (State_eqb cur st) && negb (State_eqb st STATE_NEW)) ;;
  if State_eqb cur st then ret tt
  else
    let prev := cur in
    modify (set_state st) ;;
    match st with
    | STATE_NEW => ret tt
    | STATE_IDLE =>
        if State_eqb prev STATE_NEW then idle Jitter_05_15
        else if State_eqb prev STATE_CONNECT then call (TimerStart 20000 0)
        else
          call StrategyStop ;;
          p <- gets m_proxy ;;
          match p with
          | Some proxy => call (ProxyDeleteLater proxy) ;; modify (set_proxy None)
          | None => ret tt
          end ;;
          idle Jitter_08_12
    | STATE_CONNECT => connect
    | STATE_ACTIVE =>
        donateTime <- gets m_donateTime ;;
        call (TimerStart donateTime 0)
    | STATE_WAIT =>
        now <- gets m_now ;;
        modify (set_timestamp (to_uint64 (now + 3000))) ;;
        call ListenerOnPause
    end.

Definition tick (now : Z) : DM unit :=
  modify (set_now now) ;;
  call (StrategyTick now) ;;
  p <- gets m_proxy ;;
  match p with
  | Some proxy => call (ProxyTick proxy now)
  | None => ret tt
  end ;;
  st <- gets state ;;
  timestamp <- gets m_timestamp ;;
  if State_eqb st STATE_WAIT && (timestamp <? now) then setState STATE_IDLE
  else ret tt.

(** [onActive], called by the nested strategy. *)
Definition onActive (client : IClient) : DM unit :=
  active <- gets isActive ;;
  if active then ret tt
  else setState STATE_ACTIVE ;; call (ListenerOnActive client).

(** [onPause], called by the nested strategy. *)
Definition onPause : DM unit := ret tt.

(** [onClose], called by the proxy client. *)
Definition onClose (client : IClient) (failures : Z) : DM unit :=
  if (failures =? 2) && ProxyDonate_eqb (proxyDonate controller) PROXY_DONATE_AUTO
  then
    p <- gets m_proxy ;;
    match p with
    | Some proxy => call (ProxyDeleteLater proxy)
    | None => undefined
    end ;;
    modify (set_proxy None) ;;
    call StrategyConnect
  else ret tt.

Definition setParams : DM unit :=
  algo <- gets m_algorithm ;;
  let algorithms := miner_algorithms controller in
  let index := find_index algo algorithms in
  let algorithms :=
    if (0 <? index)%nat && (index <? length algorithms)%nat
    then swap_front index algorithms else algorithms in
  call (ParamsAddMember "algo" (VAlgorithms algorithms)) ;;
  d <- gets m_diff ;;
  call (ParamsAddMember "diff" (VNumber d)) ;;
  h <- gets m_height ;;
  call (ParamsAddMember "height" (VNumber h)) ;;
  sd <- gets m_seed ;;
  if (String.length sd =? 0)%nat then ret tt
  else call (ParamsAddMember "seed_hash" (VHex sd)).

(** [onLogin] of the client listener: the proxy client logs in.  With TLS
    compiled in and [m_tls] set the url is that of [m_pools[0]] behind the
    stratum+ssl scheme (cut to the 40-byte buffer), else that of
    [m_pools[1]]; without TLS it is that of [m_pools[0]]. *)
Definition onLogin_client : DM unit :=
  pools <- gets m_pools ;;
  tls <- gets m_tls ;;
  match nth_error pools (if FEATURE_TLS && negb tls then 1 else 0)%nat with
  | Some pool => call (ParamsAddMember "url" (VUrl pool (FEATURE_TLS && tls)))
  | None => undefined
  end ;;
  setParams.

(** [onLogin] of the strategy listener. *)
Definition onLogin_strategy : DM unit := setParams.

Definition onLoginSuccess (client : IClient) : DM unit :=
  active <- gets isActive ;;
  if active then ret tt
  else setState STATE_ACTIVE ;; call (ListenerOnActive client).

Definition onVerifyAlgorithm (client : IClient) (algo : string) : DM unit :=
  call (ListenerOnVerifyAlgorithm client algo).

Definition onTimer : DM unit :=
  active <- gets isActive ;;
  setState (if active then STATE_WAIT else STATE_CONNECT).

Definition setJob (client : IClient) (job : Job) : DM unit :=
  active <- gets isActive ;;
  if active then call (ListenerOnJob client job) else ret tt.

Definition setResult (client : IClient) (result : string) (error : option string)
  : DM unit :=
  call (ListenerOnResultAccepted client result error).

(** Modelled from the spec: the inline forwarders of the absent header.
    "Jobs from the nested strategy are forwarded to the listener only while
    state == ACTIVE": both entry points of the donation side, the nested
    strategy's [onJob] and the proxy client's [onJobReceived], hand the job
    to [setJob]; accepted results go to [setResult]. *)
Definition onJob (client : IClient) (job : Job) : DM unit := setJob client job.
Definition onJobReceived (client : IClient) (job : Job) : DM unit :=
  setJob client job.
Definition onResultAccepted (client : IClient) (result : string)
           (error : option string) : DM unit :=
  setResult client result error.

(** The constructor; [worker] is the random 8-character suffix. *)
Definition construct (worker : string) : option (unit * DonateStrategy * list Call) :=
  let userId := (kWallet ++ "/" ++ worker)%string in
  let soloUserId := ("solo:" ++ kWallet ++ "/" ++ worker)%string in
  let pools :=
    (if FEATURE_TLS
     then [{| host := kDonateHostTls; port := 9000; user := userId; tls := true |}]
     else [])
    ++ [{| host := kDonateHost; port := 3333; user := userId; tls := false |};
        {| host := kDonateHostBackup; port := 7038; user := soloUserId;
           tls := false |}] in
  let level := donateLevel controller in
  let s0 :=
    mkDonate false userId EmptyString None STATE_NEW pools
      (to_uint64 (to_uint64 level * 60 * 1000))
      (to_uint64 ((100 - to_uint64 level) * 60 * 1000))
      0 0 0 0 EmptyString in
  ((if (1 <? Z.of_nat (length pools))
    then call (NewFailoverStrategy pools 1 0 true)
    else match pools with
         | front :: _ => call (NewSinglePoolStrategy front 1 0 true)
         | [] => undefined
         end) ;;
   setState STATE_IDLE) s0.
End Build.

End Donate.

Module DonateSpec.
Import Donate.

(** The entry points of a [DonateStrategy]: its [IStrategy] interface, the
    callbacks of the nested strategy and of the proxy client, and the timer. *)
Inductive Op :=
| OpConnect
| OpStop
| OpTick (now : Z)
| OpUpdate (proxy : string) (job : Job)
| OpSubmit (result : string) (seq : Z)
| OpSetAlgo (algo : string)
| OpSetProxy (proxy : string)
| OpOnActive (client : IClient)
| OpOnPause
| OpOnClose (client : IClient) (failures : Z)
| OpOnLoginClient
| OpOnLoginStrategy
| OpOnLoginSuccess (client : IClient)
| OpOnVerifyAlgorithm (client : IClient) (algo : string)
| OpOnTimer
| OpOnJob (client : IClient) (job : Job)
| OpOnJobReceived (client : IClient) (job : Job)
| OpOnResultAccepted (client : IClient) (result : string) (error : option string).

Definition perform (NDEBUG FEATURE_TLS : bool) (controller : Controller) (op : Op)
  : DM unit :=
  match op with
  | OpConnect => connect controller
  | OpStop => stop
  | OpTick now => tick NDEBUG controller now
  | OpUpdate proxy job => update proxy job
  | OpSubmit result seq => submit result seq ;; ret tt
  | OpSetAlgo algo => setAlgo algo
  | OpSetProxy proxy => setProxy proxy
  | OpOnActive client => onActive NDEBUG controller client
  | OpOnPause => onPause
  | OpOnClose client failures => onClose controller client failures
  | OpOnLoginClient => onLogin_client FEATURE_TLS controller
  | OpOnLoginStrategy => onLogin_strategy controller
  | OpOnLoginSuccess client => onLoginSuccess NDEBUG controller client
  | OpOnVerifyAlgorithm client algo => onVerifyAlgorithm client algo
  | OpOnTimer => onTimer NDEBUG controller
  | OpOnJob client job => onJob client job
  | OpOnJobReceived client job => onJobReceived client job
  | OpOnResultAccepted client result error => onResultAccepted client result error
  end.

Definition operator_with_connect : OperatorStrategy :=
  {| op_isActive := true; op_ext_connect := true; op_ext_tls := false;
     op_isTLS := false; op_proxy_valid := false; op_host := "pool.example";
     op_ip := "10.0.0.1"; op_port := 3333 |}.

Definition auto_controller : Controller :=
  {| donateLevel := 5; proxyDonate := PROXY_DONATE_AUTO;
     network_strategy := operator_with_connect;
     miner_algorithms := ["rx/0"%string] |}.

Definition started : DonateStrategy :=
  match construct true false auto_controller "AbCd1234" with
  | Some (_, s, _) => s
  | None => mkDonate false EmptyString EmptyString None STATE_NEW [] 0 0 0 0 0 0 EmptyString
  end.

Definition after (ops : list Op) (s : DonateStrategy) : DonateStrategy :=
  match for_each ops (perform true false auto_controller) s with
  | Some (_, s', _) => s'
  | None => s
  end.

Definition donation_proxy : IClient := {| id := -1 |}.
Definition sample_job : Job :=
  {| algorithm := "rx/0"; diff := 1000; height := 7; seed := "" |}.
End DonateSpec.

(** * Verthash dataset manager *)

Module Verthash.

(** [verthash_info_t]; a null pointer is [None]. *)
Record verthash_info_t := mkInfo {
  fileName : option string;
  data : option (list Z);
  dataSize : Z;
  bitmask : Z
}.

(** [memset(&m_info, 0, sizeof(m_info))] *)
Definition zeroed : verthash_info_t := mkInfo None None 0 0.

Record Verthash := mkVerthash {
  m_info : verthash_info_t;
  m_initialized : bool
}.

(** The C API of Verthash.h, whose implementation is absent:
    [verthash_info_init(&info, path)] answers a result code and leaves the
    struct filled in. *)
Definition Loader := string -> Z * verthash_info_t.

Inductive Call :=
| verthash_info_init (path : string)
| verthash_info_free (info : verthash_info_t).

Definition VM := M Verthash Call.

Definition VH_HASH_OUT_SIZE : nat := 32.

(** The constructor: a zeroed info, not initialized. *)
Definition fresh : Verthash := mkVerthash zeroed false.

(** [strcmp(a, b) == 0] on C strings. *)
Definition strcmp_eq (a b : string) : bool := String.eqb a b.

Definition is_null {A} (p : option A) : bool :=
  match p with Some _ => false | None => true end.

Definition set_info (info : verthash_info_t) (s : Verthash) : Verthash :=
  mkVerthash info (m_initialized s).
Definition set_initialized (b : bool) (s : Verthash) : Verthash :=
  mkVerthash (m_info s) b.

Definition init (load : Loader) (dataFilePath : string) : VM bool :=
  initialized <- gets m_initialized ;;
  info <- gets m_info ;;
  returned <-
    (if initialized && negb (is_null (data info)) then
       if match fileName info with
          | Some name => strcmp_eq name dataFilePath
          | None => false
          end
       then ret true
       else
         call (verthash_info_free info) ;;
         modify (set_info zeroed) ;;
         ret false
     else ret false) ;;
  if (returned : bool) then ret true
  else
    call (verthash_info_init dataFilePath) ;;
    let (result, loaded) := load dataFilePath in
    modify (set_info loaded) ;;
    if negb (result =? 0) then
      modify (set_info zeroed) ;;
      modify (set_initialized false) ;;
      ret false
    else
      modify (set_initialized true) ;;
      ret true.

Definition release : VM unit :=
  initialized <- gets m_initialized ;;
  if initialized then
    info <- gets m_info ;;
    call (verthash_info_free info) ;;
    modify (set_info zeroed) ;;
    modify (set_initialized false)
  else ret tt.

Definition isValid (s : Verthash) : bool :=
  negb (is_null (data (m_info s))) && (0 <? dataSize (m_info s)).

Definition filePath (s : Verthash) : option string := fileName (m_info s).

(** [hash(input, output)]: the bytes left in [output]; [verthash_hash] is the
    C hash function. *)
Definition hash (verthash_hash : list Z -> Z -> list Z -> list Z)
           (s : Verthash) (input : list Z) : list Z :=
  if negb (isValid s) then repeat 0 VH_HASH_OUT_SIZE
  else match data (m_info s) with
       | Some region => verthash_hash region (dataSize (m_info s)) input
       | None => repeat 0 VH_HASH_OUT_SIZE
       end.

End Verthash.

Module VerthashSpec.
Import Verthash.

(** Modelled from the spec: the loader behind [verthash_info_init] is absent.
    A [DatasetInfo] holds "a base pointer to a large byte region, its length
    in bytes, a 32-bit bitmask ... a file-path string identifying the loaded
    file": a load that reports success (code 0) leaves a non-null region and
    the path it was given. *)
Definition loader_contract (load : Loader) : Prop :=
  forall path info,
    load path = (0, info) ->
    data info <> None /\ fileName info = Some path.

Definition a_dat : string := "a.dat".
Definition b_dat : string := "b.dat".

(** A loader over a disk that holds two files. *)
Definition sample_loader : Loader :=
  fun path =>
    if String.eqb path a_dat
    then (0, mkInfo (Some path) (Some [1; 2; 3; 4]) 4 3)
    else if String.eqb path b_dat
    then (0, mkInfo (Some path) (Some [5; 6]) 2 1)
    else (1, mkInfo (Some path) None 0 0).

(** The manager after a.dat has been loaded. *)
Definition loaded_a : Verthash := mkVerthash (snd (sample_loader a_dat)) true.
End VerthashSpec.

(** * Threads on the dataset manager

    [init] and [release] run under the manager's mutex, the accessors of
    the header do not.  To say what a concurrent caller can see, a call is
    run here one statement of the source at a time, and a schedule names the
    thread that runs its next statement. *)

Module VerthashThreads.
Import Verthash.

(** The methods threads call on the singleton.  [init] and [release] open
    with a [std::lock_guard] on [m_mutex]; [isValid], an inline accessor of
    the header, reads [m_info] without it. *)
Inductive Method :=
| Init (dataFilePath : string)
| Release
| IsValid.

Definition locks (m : Method) : bool :=
  match m with
  | Init _ | Release => true
  | IsValid => false
  end.

(** What a call answers. *)
Inductive Value :=
| VBool (b : bool)
| VVoid.

(** Where a call stands: the statement of the source it runs next.
    - [AtLock]: the [lock_guard] of lines 43 and 68;
    - [AtTest]: the tests of lines 45 to 47, and of line 70;
    - [AtFree]: [verthash_info_free], lines 51 and 71;
    - [AtZero]: the [memset] of lines 52 and 72;
    - [AtLoad]: [verthash_info_init], line 55;
    - [AtFailZero], [AtFailFlag]: lines 57 and 58;
    - [AtFlag]: the assignment to [m_initialized] of lines 62 and 73;
    - [AtUnlock v]: the end of the guard's scope, on the way to return [v];
    - [AtRead]: the body of [isValid];
    - [Done v]: the call has returned [v]. *)
Inductive Pc :=
| AtLock
| AtTest
| AtFree
| AtZero
| AtLoad
| AtFailZero
| AtFailFlag
| AtFlag
| AtUnlock (v : Value)
| AtRead
| Done (v : Value).

(** What the threads share: the singleton, its mutex, and the calls made
    on the C API so far. *)
Record Shared := mkShared {
  object : Verthash;
  locked : bool;
  calls : list Call
}.

Record Thread := mkThread { method : Method; pc : Pc }.

Definition move (pc' : Pc) (s : Verthash) (sh : Shared) : option (Pc * Shared) :=
  Some (pc', mkShared s (locked sh) (calls sh)).

Definition emit (pc' : Pc) (s : Verthash) (c : Call) (sh : Shared)
  : option (Pc * Shared) :=
  Some (pc', mkShared s (locked sh) (calls sh ++ [c])).

(** One statement of a call: the new place in the method and what is
    shared afterwards, or nothing when the call cannot move (it waits for
    the mutex, or it has returned).  [init] follows lines 43 to 63 of
    VerthashWrapper.cpp, [release] lines 68 to 74, [isValid] line 45 of the
    header. *)
Definition advance (load : Loader) (m : Method) (p : Pc) (sh : Shared)
  : option (Pc * Shared) :=
  let s := object sh in
  match m, p with
  | Init _, AtLock | Release, AtLock =>
      if locked sh then None
      else Some (AtTest, mkShared s true (calls sh))
  | Init dataFilePath, AtTest =>
      if m_initialized s && negb (is_null (data (m_info s))) then
        if match fileName (m_info s) with
           | Some name => strcmp_eq name dataFilePath
           | None => false
           end
        then move (AtUnlock (VBool true)) s sh
        else move AtFree s sh
      else move AtLoad s sh
  | Init _, AtFree => emit AtZero s (verthash_info_free (m_info s)) sh
  | Init _, AtZero => move AtLoad (set_info zeroed s) sh
  | Init dataFilePath, AtLoad =>
      let (result, loaded) := load dataFilePath in
      emit (if negb (result =? 0) then AtFailZero else AtFlag)
           (set_info loaded s) (verthash_info_init dataFilePath) sh
  | Init _, AtFailZero => move AtFailFlag (set_info zeroed s) sh
  | Init _, AtFailFlag => move (AtUnlock (VBool false)) (set_initialized false s) sh
  | Init _, AtFlag => move (AtUnlock (VBool true)) (set_initialized true s) sh
  | Release, AtTest =>
      if m_initialized s then move AtFree s sh else move (AtUnlock VVoid) s sh
  | Release, AtFree => emit AtZero s (verthash_info_free (m_info s)) sh
  | Release, AtZero => move AtFlag (set_info zeroed s) sh
  | Release, AtFlag => move (AtUnlock VVoid) (set_initialized false s) sh
  | Init _, AtUnlock v | Release, AtUnlock v =>
      Some (Done v, mkShared s false (calls sh))
  | IsValid, AtRead => move (Done (VBool (isValid s))) s sh
  | _, _ => None
  end.

(** Two threads on the singleton. *)
Inductive Tid := T1 | T2.

Record Config := mkConfig {
  shared : Shared;
  thread1 : Thread;
  thread2 : Thread
}.

Definition thread (i : Tid) (c : Config) : Thread :=
  match i with T1 => thread1 c | T2 => thread2 c end.

Definition other (i : Tid) : Tid :=
  match i with T1 => T2 | T2 => T1 end.

(** The scheduler lets thread [i] run its next statement; a thread that
    cannot move leaves everything as it is. *)
Definition step (load : Loader) (i : Tid) (c : Config) : Config :=
  let th := thread i c in
  match advance load (method th) (pc th) (shared c) with
  | None => c
  | Some (p, sh) =>
      match i with
      | T1 => mkConfig sh (mkThread (method th) p) (thread2 c)
      | T2 => mkConfig sh (thread1 c) (mkThread (method th) p)
      end
  end.

Definition exec (load : Loader) (sched : list Tid) (c : Config) : Config :=
  fold_left (fun c i => step load i c) sched c.

Definition entry (m : Method) : Pc :=
  match m with
  | Init _ | Release => AtLock
  | IsValid => AtRead
  end.

(** Both calls are about to start on the manager [s]. *)
Definition start (s : Verthash) (m1 m2 : Method) : Config :=
  mkConfig (mkShared s false []) (mkThread m1 (entry m1)) (mkThread m2 (entry m2)).

(** What a call has returned, once it has. *)
Definition result (i : Tid) (c : Config) : option Value :=
  match pc (thread i c) with
  | Done v => Some v
  | _ => None
  end.

(** The places of a call between its lock and its unlock: there it holds
    the mutex. *)
Definition inside (m : Method) (p : Pc) : bool :=
  match m, p with
  | Init _, AtTest | Init _, AtFree | Init _, AtZero | Init _, AtLoad
  | Init _, AtFailZero | Init _, AtFailFlag | Init _, AtFlag
  | Init _, AtUnlock _ => true
  | Release, AtTest | Release, AtFree | Release, AtZero | Release, AtFlag
  | Release, AtUnlock _ => true
  | _, _ => false
  end.

Definition holds_mutex (i : Tid) (c : Config) : bool :=
  inside (method (thread i c)) (pc (thread i c)).

(** The same calls as methods run from beginning to end. *)
Definition call_of (load : Loader) (m : Method) : VM Value :=
  match m with
  | Init dataFilePath => ok <- init load dataFilePath ;; ret (VBool ok)
  | Release => release ;; ret VVoid
  | IsValid => valid <- gets isValid ;; ret (VBool valid)
  end.

(** The calls [m] and then [m'], one after the other from the manager [s],
    answer [v] and [v'] and leave what [sh] holds. *)
Definition in_order (load : Loader) (s : Verthash) (m m' : Method)
           (v v' : Value) (sh : Shared) : Prop :=
  exists s1 t1 s2 t2,
    call_of load m s = Some (v, s1, t1) /\
    call_of load m' s1 = Some (v', s2, t2) /\
    object sh = s2 /\ calls sh = t1 ++ t2.

(** [init(path)] is atomic for a concurrent call [m] when, however the two
    are scheduled, they end as if one had run after the other. *)
Definition atomic_for (load : Loader) (s : Verthash) (path : string) (m : Method)
  : Prop :=
  forall sched v1 v2,
    result T1 (exec load sched (start s (Init path) m)) = Some v1 ->
    result T2 (exec load sched (start s (Init path) m)) = Some v2 ->
    in_order load s (Init path) m v1 v2
             (shared (exec load sched (start s (Init path) m))) \/
    in_order load s m (Init path) v2 v1
             (shared (exec load sched (start s (Init path) m))).

(** Thread [i] alone runs [n] statements. *)
Definition solo (load : Loader) (i : Tid) (n : nat) (c : Config) : Config :=
  exec load (repeat i n) c.

(** The holder of the mutex keeps it until it has returned. *)
Definition holds (i : Tid) (c : Config) : Prop :=
  (holds_mutex i c = true /\ locked (shared c) = true) \/
  exists v, pc (thread i c) = Done v /\ locked (shared c) = false.

(** The calls that wait or have returned. *)
Definition quiet (p : Pc) : Prop := p = AtLock \/ exists v, p = Done v.

(** At every moment the mutex is free and no call is under way, or one call
    holds it and the other waits or has returned. *)
Definition settled (c : Config) : Prop :=
  (locked (shared c) = false /\
   quiet (pc (thread T1 c)) /\ quiet (pc (thread T2 c))) \/
  exists i, holds_mutex i c = true /\ locked (shared c) = true /\
            quiet (pc (thread (other i) c)).

(** What two locking calls can have done, however they were scheduled: one
    of them has run alone for a while, and the other has run alone after
    it only if the first has returned. *)
Definition serial_prefix (load : Loader) (s : Verthash) (m1 m2 : Method)
           (c : Config) : Prop :=
  exists i n k,
    c = solo load (other i) k (solo load i n (start s m1 m2)) /\
    (k = 0%nat \/
     exists v, pc (thread i (solo load i n (start s m1 m2))) = Done v).

(** The schedule that lets the first call run up to its load, then the
    second call, then the first call to its end. *)
Definition reader_in_between : list Tid :=
  [T1; T1; T1; T1; T2; T1; T1; T1].

(** A fair end of every schedule. *)
Definition to_the_end : list Tid :=
  repeat T1 9 ++ repeat T2 9 ++ repeat T1 9.
End VerthashThreads.

(** * Further entry points and invariants of FailoverStrategy *)

Module FailoverOps.
Import Failover FailoverSpec.

(** Every entry point of a [FailoverStrategy]: the [IStrategy] interface
    and the callbacks of its clients. *)
Inductive Op :=
| OpEvent (e : Event)
| OpConnect
| OpStop
| OpSubmit (result : string) (seq : Z)
| OpResume (job : Job)
| OpSetAlgo (algo : string)
| OpSetProxy (proxy : string)
| OpLogin (client : IClient)
| OpJobReceived (client : IClient) (job : Job)
| OpResultAccepted (client : IClient) (result : string) (error : option string)
| OpVerifyAlgorithm (client : IClient) (algo : string).

Definition perform (op : Op) : FM unit :=
  match op with
  | OpEvent e => handle e
  | OpConnect => connect
  | OpStop => stop
  | OpSubmit result seq => submit result seq ;; ret tt
  | OpResume job => resume job
  | OpSetAlgo algo => setAlgo algo
  | OpSetProxy proxy => setProxy proxy
  | OpLogin client => onLogin client
  | OpJobReceived client job => onJobReceived client job
  | OpResultAccepted client result error => onResultAccepted client result error
  | OpVerifyAlgorithm client algo => onVerifyAlgorithm client algo
  end.

(** Callbacks come from the strategy's own clients. *)
Definition own_op (s : FailoverStrategy) (op : Op) : Prop :=
  match op with
  | OpEvent e => own_event s e
  | OpLogin c | OpJobReceived c _ | OpResultAccepted c _ _ | OpVerifyAlgorithm c _ =>
      In c (m_pools s)
  | _ => True
  end.

(** The current and the active index point into the pool list. *)
Definition in_bounds (s : FailoverStrategy) : Prop :=
  wf s /\ m_index s < pools_size s /\ -1 <= m_active s < pools_size s.

(** [n] rounds of the zero-retry cascade: the current pool closes, then the
    host loop ticks. *)
Fixpoint cascade_rounds (n : nat) (failures now : Z) : FM unit :=
  match n with
  | O => ret tt
  | S k =>
      index <- gets m_index ;;
      onClose {| id := index |} failures ;;
      tick now ;;
      cascade_rounds k failures now
  end.

(** The entry points that schedule a connection: in zero-retry mode, a close
    callback other than the one of an explicit disconnect. *)
Definition schedules (s : FailoverStrategy) (op : Op) : Prop :=
  match op with
  | OpEvent (EvClose _ failures) => m_retries s = 0 /\ failures <> -1
  | _ => False
  end.

(** Nothing is left for [connectNext] to do. *)
Definition nothing_pending (s : FailoverStrategy) : Prop :=
  m_pendingConnect s = false \/ pools_size s <= m_pendingIndex s.

(** A sample run without a scheduling close: an explicit disconnect is
    reported, the second pool logs in, a share is submitted, the strategy
    is stopped and connected again. *)
Definition quiet_ops : list Op :=
  [OpEvent (EvClose pool0 (-1)); OpEvent (EvLoginSuccess pool1);
   OpSubmit "share" 7; OpStop; OpConnect].

(** A sample run over three pools: the first pool closes, the strategy is
    stopped and connected again. *)
Definition sample_ops : list Op :=
  [OpEvent (EvClose pool0 0); OpStop; OpConnect; OpSubmit "share" 7].
End FailoverOps.

(** * Further vocabulary for DonateStrategy *)

Module DonateOps.
Import Donate.

(** The call [tick] makes on the proxy, when there is one. *)
Definition proxy_ticks (s : DonateStrategy) (now : Z) : list Call :=
  match m_proxy s with
  | Some proxy => [ProxyTick proxy now]
  | None => []
  end.

(** The deferred deletion of the proxy, when there is one. *)
Definition proxy_deletes (s : DonateStrategy) : list Call :=
  match m_proxy s with
  | Some proxy => [ProxyDeleteLater proxy]
  | None => []
  end.

(** Whether [createProxy] builds a proxy. *)
Definition proxy_mode (controller : Controller) : bool :=
  negb (ProxyDonate_eqb (proxyDonate controller) PROXY_DONATE_NONE)
  && op_isActive (network_strategy controller)
  && op_ext_connect (network_strategy controller).

(** The pool [createProxy] points the proxy at. *)
Definition proxy_pool (controller : Controller) (s : DonateStrategy) : Pool :=
  let strategy := network_strategy controller in
  {| host := if op_proxy_valid strategy then op_host strategy else op_ip strategy;
     port := op_port strategy;
     user := m_userId s;
     tls := op_isTLS strategy |}.

(** The algorithm list a login advertises. *)
Definition advertised (controller : Controller) (s : DonateStrategy) : list string :=
  let algorithms := miner_algorithms controller in
  let index := find_index (m_algorithm s) algorithms in
  if (0 <? index)%nat && (index <? length algorithms)%nat
  then swap_front index algorithms else algorithms.
End DonateOps.

(** * Further vocabulary for the dataset manager *)

Module VerthashOps.
Import Verthash.

(** The manager holds nothing unless it is initialized. *)
Definition consistent (s : Verthash) : Prop :=
  m_initialized s = false -> m_info s = zeroed.

(** The manager after a load whose loader reported an error. *)
Definition missing_dat : string := "missing.dat".
End VerthashOps.

(** * Vh: the start-up front end of the dataset manager *)

Module Vh.
Import Verthash.

(** [VerthashConfig]: the two paths of the configuration. *)
Record VerthashConfig := { m_dataFile : string; m_genDataFile : string }.

Definition dataFile_of (config : VerthashConfig) : string := m_dataFile config.
Definition genDataFile (config : VerthashConfig) : string := m_genDataFile config.

(** [String::isEmpty] *)
Definition isEmpty (s : string) : bool := (String.length s =? 0)%nat.

Definition kDefaultDataFile : string := "verthash.dat".

(** Calls of [Vh]: the generator of the C API, and what the singleton
    does on its behalf. *)
Inductive Call :=
| verthash_generate_data_file (path : string)
| Instance (c : Verthash.Call).

Definition VhM := M Verthash Call.

(** [Verthash::instance().m(...)] *)
Definition instance {A} (m : VM A) : VhM A :=
  fun s =>
    match m s with
    | Some (a, s', t) => Some (a, s', map Instance t)
    | None => None
    end.

(** [Vh::init(config)].  [generate] is the result code the generator
    answers for a path; [load] is the loader over the disk as it is when
    the load happens, that is after the generation. *)
Definition init (load : Loader) (generate : string -> Z) (config : VerthashConfig)
  : VhM bool :=
  returned <-
    (if negb (isEmpty (genDataFile config)) then
       call (verthash_generate_data_file (genDataFile config)) ;;
       let result := generate (genDataFile config) in
       if negb (result =? 0) then ret (Some false)
       else if isEmpty (dataFile_of config) then
         ok <- instance (Verthash.init load (genDataFile config)) ;;
         ret (Some ok)
       else ret None
     else ret None) ;;
  match returned with
  | Some ok => ret ok
  | None =>
      let dataFile :=
        if isEmpty (dataFile_of config) then kDefaultDataFile
        else dataFile_of config in
      ok <- instance (Verthash.init load dataFile) ;;
      if negb ok then ret false else ret true
  end.

Definition destroy : VhM unit := instance release.

Definition isReady (s : Verthash) : bool := isValid s.

Definition dataFile (s : Verthash) : option string := filePath s.

(** The file [Vh::init] loads when it gets as far as loading. *)
Definition loaded_path (config : VerthashConfig) : string :=
  if isEmpty (dataFile_of config)
  then if isEmpty (genDataFile config) then kDefaultDataFile else genDataFile config
  else dataFile_of config.

(** A configuration that names both a file to load and a file to generate,
    and generators that succeed and fail. *)
Definition both_paths : VerthashConfig :=
  {| m_dataFile := "a.dat"; m_genDataFile := "new.dat" |}.
Definition generator_ok : string -> Z := fun _ => 0.
Definition generator_fails : string -> Z := fun _ => 1.

(** The generator call [Vh::init] starts with, when a path is configured. *)
Definition generation (config : VerthashConfig) : list Call :=
  if isEmpty (genDataFile config) then []
  else [verthash_generate_data_file (genDataFile config)].
End Vh.

(** * OclVerthashRunner *)

Module OclVerthash.
Import Verthash.

Definition BLOB_SIZE : Z := 80.

(** [CL_SUCCESS] of the OpenCL headers. *)
Definition CL_SUCCESS : Z := 0.

(** The vendors the constructor tells apart. *)
Inductive OclVendor := OCL_VENDOR_NVIDIA | OCL_VENDOR_AMD | OCL_VENDOR_OTHER.

Inductive Buffer :=
| Input
| Output
| VerthashData (mem : option Z).

Inductive Arg :=
| ArgMem (b : Buffer)
| ArgU32 (v : Z)
| ArgU64 (v : Z).

(** Calls on the OpenCL library. *)
Inductive Call :=
| Release (mem : option Z)
| CreateBuffer (size : Z)
| EnqueueWriteBuffer (b : Buffer) (blocking : bool) (size : Z)
| EnqueueReadBuffer (b : Buffer) (blocking : bool) (size : Z)
| SetKernelArg (index : Z) (arg : Arg)
| EnqueueNDRangeKernel (offset global_size local_size : Z).

(** What a method that may throw ends with. *)
Inductive Outcome (A : Type) :=
| Returned (a : A)
| Thrown.
Arguments Returned {A} a.
Arguments Thrown {A}.

(** The members the methods of OclVerthashRunner.cpp use; [m_options] and
    [m_intensity] are those of the base runner. *)
Record OclVerthashRunner := mkRunner {
  m_options : string;
  m_intensity : Z;
  m_blob : option Z;
  m_verthashData : option Z;
  m_verthashDataSize : Z;
  m_verthashBitmask : Z;
  m_workGroupSize : Z
}.

Definition set_blob v r := mkRunner (m_options r) (m_intensity r) v
  (m_verthashData r) (m_verthashDataSize r) (m_verthashBitmask r) (m_workGroupSize r).
Definition set_verthashData v r := mkRunner (m_options r) (m_intensity r) (m_blob r)
  v (m_verthashDataSize r) (m_verthashBitmask r) (m_workGroupSize r).
Definition set_verthashDataSize v r := mkRunner (m_options r) (m_intensity r)
  (m_blob r) (m_verthashData r) v (m_verthashBitmask r) (m_workGroupSize r).
Definition set_verthashBitmask v r := mkRunner (m_options r) (m_intensity r)
  (m_blob r) (m_verthashData r) (m_verthashDataSize r) v (m_workGroupSize r).

Definition RM := M OclVerthashRunner Call.

(** The constructor: [options] and [intensity] are what the base runner has
    set up; [worksize] and [vendor] come from the launch data. *)
Definition construct (options : string) (intensity worksize : Z) (vendor : OclVendor)
  : OclVerthashRunner :=
  let workGroupSize :=
    if (worksize =? 64) || (worksize =? 128) || (worksize =? 256) || (worksize =? 512)
    then worksize else 256 in
  let options :=
    match vendor with
    | OCL_VENDOR_NVIDIA => (options ++ " -DPLATFORM=OPENCL_PLATFORM_NVIDIA")%string
    | OCL_VENDOR_AMD => (options ++ " -DPLATFORM=OPENCL_PLATFORM_AMD")%string
    | OCL_VENDOR_OTHER => options
    end in
  mkRunner options intensity None None 0 0 workGroupSize.

(** [dataMask()] and [dataSize()] of the singleton. *)
Definition dataMask (vh : Verthash) : Z := bitmask (m_info vh).
Definition vh_dataSize (vh : Verthash) : Z := dataSize (m_info vh).

(** [loadVerthashData]; [vh] is the dataset singleton, [created] the buffer
    and result code [createBuffer] answers, [written] the result code of the
    upload. *)
Definition loadVerthashData (vh : Verthash) (created : option Z * Z) (written : Z)
  : RM bool :=
  if negb (isValid vh) then ret false
  else
    buffer <- gets m_verthashData ;;
    size <- gets m_verthashDataSize ;;
    if negb (is_null buffer) && (size =? vh_dataSize vh) then ret true
    else
      (if negb (is_null buffer)
       then call (Release buffer) ;; modify (set_verthashData None)
       else ret tt) ;;
      modify (set_verthashDataSize (vh_dataSize vh)) ;;
      modify (set_verthashBitmask (dataMask vh)) ;;
      size <- gets m_verthashDataSize ;;
      call (CreateBuffer size) ;;
      modify (set_verthashData (fst created)) ;;
      if negb (snd created =? CL_SUCCESS) then ret false
      else
        buffer <- gets m_verthashData ;;
        call (EnqueueWriteBuffer (VerthashData buffer) true size) ;;
        if negb (written =? CL_SUCCESS) then
          call (Release buffer) ;;
          modify (set_verthashData None) ;;
          ret false
        else ret true.

(** [array[i] = v]; writing past the end is undefined. *)
Definition store (i : nat) (v : Z) (l : list Z) : option (list Z) :=
  if (i <? length l)%nat then Some (firstn i l ++ v :: skipn (S i) l) else None.

(** [memcpy(dst, src, n * sizeof(uint32_t))] *)
Definition memcpy (dst src : list Z) (n : nat) : option (list Z) :=
  if (n <=? length dst)%nat && (n <=? length src)%nat
  then Some (firstn n src ++ skipn n dst) else None.

(** [run]; [launched] is the result code of the kernel launch, [read] the
    sixteen words read back from the output buffer, [hashOutput] the
    caller's array.  The result is the caller's array afterwards. *)
Definition run (nonce : Z) (launched : Z) (read : list Z) (hashOutput : list Z)
  : RM (Outcome (list Z)) :=
  workGroupSize <- gets m_workGroupSize ;;
  intensity <- gets m_intensity ;;
  let local_work_size := workGroupSize in
  let global_work_offset := nonce in
  if workGroupSize =? 0 then undefined
  else
    let global_work_size := to_size_t (intensity - intensity mod workGroupSize) in
    call (EnqueueWriteBuffer Input false BLOB_SIZE) ;;
    call (EnqueueWriteBuffer Output false 4) ;;
    data <- gets m_verthashData ;;
    call (SetKernelArg 0 (ArgMem (VerthashData data))) ;;
    call (SetKernelArg 1 (ArgMem Input)) ;;
    mask <- gets m_verthashBitmask ;;
    call (SetKernelArg 2 (ArgU32 mask)) ;;
    call (SetKernelArg 3 (ArgU32 nonce)) ;;
    call (SetKernelArg 4 (ArgMem Output)) ;;
    call (EnqueueNDRangeKernel global_work_offset global_work_size local_work_size) ;;
    if negb (launched =? CL_SUCCESS) then ret Thrown
    else
      call (EnqueueReadBuffer Output true 64) ;;
      let output := read in
      let count := if 15 <? nth 0 output 0 then 15 else nth 0 output 0 in
      match store 255 count hashOutput with
      | None => undefined
      | Some stored =>
          match memcpy stored (skipn 1 output) (Z.to_nat count) with
          | None => undefined
          | Some copied => ret (Returned copied)
          end
      end.

(** [set(job, blob)]; [target] is [job.target()]. *)
Definition set (vh : Verthash) (created : option Z * Z) (written : Z)
           (target : Z) (blob : Z) : RM (Outcome unit) :=
  modify (set_blob (Some blob)) ;;
  buffer <- gets m_verthashData ;;
  loaded <- (if is_null buffer then loadVerthashData vh created written
             else ret true) ;;
  if negb loaded then ret Thrown
  else
    call (SetKernelArg 5 (ArgU64 target)) ;;
    ret (Returned tt).

(** [processedHashes()] *)
Definition processedHashes (r : OclVerthashRunner) : Z := m_intensity r.
End OclVerthash.

(** * Facts *)

(** ** Machine integers, the monad, counting loops *)

Lemma to_size_t_small z : 0 <= z < 2 ^ 64 -> to_size_t z = z.
Proof. intros H. unfold to_size_t. apply Z.mod_small. exact H. Qed.

Lemma to_int_small z : - 2 ^ 31 <= z < 2 ^ 31 -> to_int z = z.
Proof.
  intros H. unfold to_int. rewrite Z.mod_small; lia.
Qed.

Section MonadFacts.
Context {St Call : Type}.
Implicit Types s : St.

Lemma bind_run {A B} (m : M St Call A) (f : A -> M St Call B) s a s1 t1 b s2 t2 :
  m s = Some (a, s1, t1) -> f a s1 = Some (b, s2, t2) ->
  bind m f s = Some (b, s2, t1 ++ t2).
Proof. intros Hm Hf. unfold bind. rewrite Hm, Hf. reflexivity. Qed.

Lemma bind_run_as {A B} (m : M St Call A) (f : A -> M St Call B) s a s1 t1 b s2 t2 t :
  m s = Some (a, s1, t1) -> f a s1 = Some (b, s2, t2) -> t = t1 ++ t2 ->
  bind m f s = Some (b, s2, t).
Proof. intros Hm Hf ->. eapply bind_run; eassumption. Qed.

Lemma bind_ret {A B} (a : A) (f : A -> M St Call B) s :
  bind (ret a) f s = f a s.
Proof. unfold bind, ret. destruct (f a s) as [[[b s2] t2]|]; reflexivity. Qed.

Lemma bind_gets {A B} (g : St -> A) (f : A -> M St Call B) s :
  bind (gets g) f s = f (g s) s.
Proof. unfold bind, gets. destruct (f (g s) s) as [[[b s2] t2]|]; reflexivity. Qed.

Lemma bind_modify {B} (g : St -> St) (f : unit -> M St Call B) s :
  bind (modify g) f s = f tt (g s).
Proof. unfold bind, modify. destruct (f tt (g s)) as [[[b s2] t2]|]; reflexivity. Qed.

Lemma bind_assoc {A B C} (m : M St Call A) (f : A -> M St Call B)
      (g : B -> M St Call C) s :
  bind (bind m f) g s = bind m (fun a => bind (f a) g) s.
Proof.
  unfold bind. destruct (m s) as [[[a s1] t1]|]; [|reflexivity].
  destruct (f a s1) as [[[b s2] t2]|]; [|reflexivity].
  destruct (g b s2) as [[[c s3] t3]|]; [|reflexivity].
  rewrite app_assoc. reflexivity.
Qed.

Lemma bind_inv {A B} (m : M St Call A) (f : A -> M St Call B) s b s2 t :
  bind m f s = Some (b, s2, t) ->
  exists a s1 t1 t2,
    m s = Some (a, s1, t1) /\ f a s1 = Some (b, s2, t2) /\ t = t1 ++ t2.
Proof.
  unfold bind. destruct (m s) as [[[a s1] t1]|]; [|discriminate].
  destruct (f a s1) as [[[b' s2'] t2]|] eqn:E; [|discriminate].
  intros H. inversion H; subst. exists a, s1, t1, t2. auto.
Qed.

Lemma for_each_frame {A} (l : list A) (body : A -> M St Call unit)
      (f : A -> list Call) s :
  (forall x, In x l -> body x s = Some (tt, s, f x)) ->
  for_each l body s = Some (tt, s, flat_map f l).
Proof.
  induction l as [|x r IH]; intros H; simpl.
  - reflexivity.
  - unfold bind. rewrite (H x (or_introl eq_refl)).
    rewrite IH by (intros y Hy; apply H; right; exact Hy). reflexivity.
Qed.
End MonadFacts.

Lemma in_range lo hi i : In i (range lo hi) <-> lo <= i < hi.
Proof.
  unfold range. rewrite in_map_iff. split.
  - intros [k [<- Hk]]. apply in_seq in Hk. lia.
  - intros H. exists (Z.to_nat (i - lo)). split; [lia|]. apply in_seq. lia.
Qed.

Lemma nth_error_range lo hi i :
  lo <= i < hi -> nth_error (range lo hi) (Z.to_nat (i - lo)) = Some i.
Proof.
  intros H. unfold range. rewrite nth_error_map, nth_error_seq.
  destruct (Nat.ltb_spec (Z.to_nat (i - lo)) (Z.to_nat (hi - lo))); [|lia].
  simpl. f_equal. lia.
Qed.

Lemma flat_map_singleton {A B} (f : A -> B) (l : list A) :
  flat_map (fun x => [f x]) l = map f l.
Proof. induction l; simpl; congruence. Qed.

Lemma flat_map_filter {A B} (p : A -> bool) (f : A -> B) (l : list A) :
  flat_map (fun x => if p x then [f x] else []) l = map f (filter p l).
Proof.
  induction l as [|x r IH]; simpl; [reflexivity|].
  destruct (p x); simpl; congruence.
Qed.

Lemma range_snoc n : 0 <= n -> range 0 (n + 1) = range 0 n ++ [n].
Proof.
  intros H. unfold range.
  replace (Z.to_nat (n + 1 - 0)) with (S (Z.to_nat (n - 0))) by lia.
  rewrite seq_S, map_app. cbn [map]. do 2 f_equal. lia.
Qed.

(** ** FailoverStrategy *)

Module FailoverFacts.
Import Failover FailoverSpec.

Lemma in_clients n c : In c (clients n) <-> 0 <= id c < n.
Proof.
  unfold clients. rewrite in_map_iff. split.
  - intros [i [<- Hi]]. apply in_range in Hi. exact Hi.
  - intros H. exists (id c). split; [destruct c; reflexivity|]. apply in_range. exact H.
Qed.

Lemma nth_error_clients n i :
  0 <= i < n -> nth_error (clients n) (Z.to_nat i) = Some {| id := i |}.
Proof.
  intros H. unfold clients. rewrite nth_error_map.
  replace (Z.to_nat i) with (Z.to_nat (i - 0)) by (f_equal; lia).
  rewrite nth_error_range by exact H. reflexivity.
Qed.

Lemma pools_size_range s : wf s -> 0 <= pools_size s < 2 ^ 31.
Proof. intros [H _]. unfold pools_size in *. lia. Qed.

Lemma client_range s c : wf s -> In c (m_pools s) -> 0 <= id c < pools_size s.
Proof. intros (_ & H & _) Hc. rewrite H in Hc. apply in_clients in Hc. exact Hc. Qed.

Lemma pool_at_wf s i :
  wf s -> 0 <= i < pools_size s -> pool_at i s = Some ({| id := i |}, s, []).
Proof.
  intros (_ & Hp & _) Hi. unfold pool_at. rewrite Hp at 1.
  rewrite nth_error_clients by exact Hi. reflexivity.
Qed.

Lemma disconnect_loop s k :
  wf s -> 0 <= k < pools_size s ->
  for_each (range 0 (k + 1))
    (fun i => c <- pool_at i ;; call (ClientDisconnect c)) s
  = Some (tt, s, disconnect_upto k).
Proof.
  intros Hwf Hk. unfold disconnect_upto.
  rewrite <- flat_map_singleton. apply for_each_frame.
  intros i Hi. apply in_range in Hi.
  unfold bind. rewrite pool_at_wf by (auto; lia). reflexivity.
Qed.

Lemma wf_clear s c : wf s -> wf (clear_if_active s c).
Proof. unfold clear_if_active. destruct (_ =? _); auto. Qed.

Lemma clear_fields s c :
  m_retries (clear_if_active s c) = m_retries s /\
  m_index (clear_if_active s c) = m_index s /\
  m_minAcceptableIndex (clear_if_active s c) = m_minAcceptableIndex s /\
  m_pendingIndex (clear_if_active s c) = m_pendingIndex s /\
  m_pendingConnect (clear_if_active s c) = m_pendingConnect s /\
  m_pools (clear_if_active s c) = m_pools s /\
  pools_size (clear_if_active s c) = pools_size s.
Proof. unfold clear_if_active. destruct (_ =? _); repeat split. Qed.

(** The prologue shared by every branch of [onClose] once [failures] is
    not -1: the closing client stops being the active one. *)
Ltac close_prologue s client failures :=
  unfold onClose;
  destruct (Z.eqb_spec failures (-1)) as [|_]; [contradiction|];
  rewrite bind_gets;
  eapply bind_run_as with (s1 := clear_if_active s client)
                          (t1 := pause_if_active s client);
  [ unfold clear_if_active, pause_if_active; destruct (_ =? _); reflexivity
  | | first [reflexivity | symmetry; apply app_nil_r] ];
  rewrite bind_gets;
  destruct (clear_fields s client) as (E1 & E2 & E3 & E4 & E5 & E6 & E7);
  rewrite E1.

Lemma onClose_zero_suppressed s client failures :
  wf s -> In client (m_pools s) -> m_retries s = 0 -> failures <> -1 ->
  id client < m_minAcceptableIndex s ->
  onClose client failures s
  = Some (tt, clear_if_active s client,
          pause_if_active s client ++ [ClientDisconnect client]).
Proof.
  intros Hwf Hin Hr Hf Hlt.
  pose proof (client_range s client Hwf Hin) as Hc.
  pose proof (pools_size_range s Hwf) as Hn.
  close_prologue s client failures. rewrite Hr. change (0 =? 0) with true. cbv iota.
  rewrite bind_gets, E3, to_size_t_small by lia.
  destruct (Z.ltb_spec (id client) (m_minAcceptableIndex s)); [|lia].
  reflexivity.
Qed.

Lemma onClose_zero_current s client failures :
  wf s -> In client (m_pools s) -> m_retries s = 0 -> failures <> -1 ->
  id client = m_index s -> m_minAcceptableIndex s <= id client ->
  onClose client failures s
  = Some (tt, schedule_next (clear_if_active s client),
          pause_if_active s client ++ disconnect_upto (m_index s)).
Proof.
  intros Hwf Hin Hr Hf Hid Hmin.
  pose proof (client_range s client Hwf Hin) as Hc.
  pose proof (pools_size_range s Hwf) as Hn.
  assert (Hwf1 := wf_clear s client Hwf).
  close_prologue s client failures. rewrite Hr. change (0 =? 0) with true. cbv iota.
  rewrite bind_gets, E3, to_size_t_small by lia.
  destruct (Z.ltb_spec (id client) (m_minAcceptableIndex s)); [lia|].
  rewrite bind_gets, E2, Z.eqb_sym.
  destruct (Z.eqb_spec (id client) (m_index s)); [|lia].
  eapply bind_run_as;
    [apply disconnect_loop; [assumption|lia]| |symmetry; apply app_nil_r].
  rewrite bind_gets. unfold size_sub. rewrite E7.
  rewrite (to_size_t_small (pools_size s - m_index s)) by lia.
  unfold schedule_next. rewrite E2, E7.
  rewrite to_size_t_small by lia.
  destruct (Z.ltb_spec 1 (pools_size s - m_index s));
    destruct (Z.ltb_spec (m_index s + 1) (pools_size s)); try lia; reflexivity.
Qed.

Lemma onClose_zero_other s client failures :
  wf s -> In client (m_pools s) -> m_retries s = 0 -> failures <> -1 ->
  id client <> m_index s -> m_minAcceptableIndex s <= id client ->
  onClose client failures s
  = Some (tt, clear_if_active s client, pause_if_active s client).
Proof.
  intros Hwf Hin Hr Hf Hid Hmin.
  pose proof (client_range s client Hwf Hin) as Hc.
  pose proof (pools_size_range s Hwf) as Hn.
  close_prologue s client failures. rewrite Hr. change (0 =? 0) with true. cbv iota.
  rewrite bind_gets, E3, to_size_t_small by lia.
  destruct (Z.ltb_spec (id client) (m_minAcceptableIndex s)); [lia|].
  rewrite bind_gets, E2, Z.eqb_sym.
  destruct (Z.eqb_spec (id client) (m_index s)); [lia|].
  reflexivity.
Qed.

(** Nonzero-retry mode. *)
Lemma onClose_retry_in_place s client failures :
  m_retries s <> 0 -> failures <> -1 ->
  m_index s = 0 -> failures < m_retries s ->
  onClose client failures s
  = Some (tt, clear_if_active s client, pause_if_active s client).
Proof.
  intros Hr Hf Hi Hlt.
  close_prologue s client failures.
  destruct (Z.eqb_spec (m_retries s) 0); [contradiction|].
  rewrite bind_gets, E2, Hi. change (0 =? 0) with true.
  destruct (Z.ltb_spec failures (m_retries s)); [|lia].
  reflexivity.
Qed.

Lemma onClose_retry_advance s client failures :
  wf s -> In client (m_pools s) -> m_retries s <> 0 -> failures <> -1 ->
  ~ (m_index s = 0 /\ failures < m_retries s) ->
  id client = m_index s -> m_index s + 1 < pools_size s ->
  onClose client failures s
  = Some (tt, set_index (m_index s + 1) (clear_if_active s client),
          pause_if_active s client ++ [ClientConnect {| id := m_index s + 1 |}]).
Proof.
  intros Hwf Hin Hr Hf Hno Hid Hnext.
  pose proof (client_range s client Hwf Hin) as Hc.
  pose proof (pools_size_range s Hwf) as Hn.
  assert (Hwf1 := wf_clear s client Hwf).
  close_prologue s client failures.
  destruct (Z.eqb_spec (m_retries s) 0); [contradiction|].
  rewrite bind_gets, E2.
  assert ((m_index s =? 0) && (failures <? m_retries s) = false) as ->.
  { destruct (Z.eqb_spec (m_index s) 0); destruct (Z.ltb_spec failures (m_retries s));
      simpl; try reflexivity. tauto. }
  rewrite bind_gets, E7. unfold size_sub.
  rewrite !to_size_t_small by lia.
  destruct (Z.eqb_spec (m_index s) (id client)); [|lia].
  destruct (Z.ltb_spec 1 (pools_size s - m_index s)); [|lia].
  cbn [andb]. rewrite bind_modify, bind_gets. cbn [m_index set_index].
  unfold bind. rewrite pool_at_wf; [reflexivity| |].
  - revert Hwf1 Hn Hnext. rewrite <- E7, <- E2. unfold wf, pools_size. cbn. intuition lia.
  - change (pools_size (set_index (m_index s + 1) (clear_if_active s client)))
      with (pools_size (clear_if_active s client)). rewrite E7. lia.
Qed.

Lemma onClose_retry_stay s client failures :
  wf s -> In client (m_pools s) -> m_retries s <> 0 -> failures <> -1 ->
  ~ (m_index s = 0 /\ failures < m_retries s) ->
  ~ (id client = m_index s /\ m_index s + 1 < pools_size s) ->
  onClose client failures s
  = Some (tt, clear_if_active s client, pause_if_active s client).
Proof.
  intros Hwf Hin Hr Hf Hno Hstay.
  pose proof (client_range s client Hwf Hin) as Hc.
  pose proof (pools_size_range s Hwf) as Hn.
  destruct Hwf as (W1 & W2 & W3 & W4 & W5).
  close_prologue s client failures.
  destruct (Z.eqb_spec (m_retries s) 0); [contradiction|].
  rewrite bind_gets, E2.
  assert ((m_index s =? 0) && (failures <? m_retries s) = false) as ->.
  { destruct (Z.eqb_spec (m_index s) 0); destruct (Z.ltb_spec failures (m_retries s));
      simpl; try reflexivity. tauto. }
  rewrite bind_gets, E7. unfold size_sub.
  rewrite (to_size_t_small (id client)) by lia.
  destruct (Z.eqb_spec (m_index s) (id client)); [|reflexivity].
  rewrite to_size_t_small by lia.
  destruct (Z.ltb_spec 1 (pools_size s - m_index s)); [lia|].
  reflexivity.
Qed.

Lemma tick_loop s now :
  for_each (m_pools s) (fun client => call (ClientTick client now)) s
  = Some (tt, s, ticks s now).
Proof.
  unfold ticks. rewrite <- flat_map_singleton.
  apply for_each_frame. reflexivity.
Qed.

Lemma tick_pending s now :
  wf s -> m_pendingConnect s = true -> m_pendingIndex s < pools_size s ->
  tick now s
  = Some (tt, set_index (m_pendingIndex s) (set_pendingConnect false s),
          ticks s now ++ [ClientConnect {| id := m_pendingIndex s |}]).
Proof.
  intros Hwf Hp Hlt. unfold tick. rewrite bind_gets.
  eapply bind_run; [apply tick_loop|].
  unfold connectNext. rewrite !bind_gets, Hp.
  destruct (Z.leb_spec (pools_size s) (m_pendingIndex s)); [lia|].
  cbn [negb orb]. rewrite !bind_modify, bind_gets. cbn [m_index set_index].
  unfold bind. rewrite pool_at_wf; [reflexivity| |].
  - revert Hwf. unfold wf, pools_size. cbn. intuition lia.
  - destruct Hwf as (W1 & W2 & W3 & W4 & W5). split; [lia|exact Hlt].
Qed.

Lemma tick_idle s now :
  m_pendingConnect s = false \/ pools_size s <= m_pendingIndex s ->
  tick now s = Some (tt, s, ticks s now).
Proof.
  intros H. unfold tick. rewrite bind_gets.
  eapply bind_run_as; [apply tick_loop| |symmetry; apply app_nil_r].
  unfold connectNext. rewrite !bind_gets.
  destruct H as [-> | H]; [reflexivity|].
  destruct (Z.leb_spec (pools_size s) (m_pendingIndex s)); [|lia].
  rewrite orb_true_r. reflexivity.
Qed.

Lemma onLoginSuccess_suppressed s client :
  wf s -> In client (m_pools s) -> m_retries s = 0 ->
  id client < m_minAcceptableIndex s ->
  onLoginSuccess client s = Some (tt, s, [ClientDisconnect client]).
Proof.
  intros Hwf Hin Hr Hlt.
  pose proof (client_range s client Hwf Hin) as Hc.
  pose proof (pools_size_range s Hwf) as Hn.
  unfold onLoginSuccess. rewrite !bind_gets, Hr, to_size_t_small by lia.
  destruct (Z.ltb_spec (id client) (m_minAcceptableIndex s)); [|lia].
  reflexivity.
Qed.

Lemma others_loop s active :
  wf s ->
  for_each (range 0 (pools_size s))
    (fun i => if negb (active =? to_int i)
              then c <- pool_at i ;; call (ClientDisconnect c)
              else ret tt) s
  = Some (tt, s, disconnect_others active (pools_size s)).
Proof.
  intros Hwf. pose proof (pools_size_range s Hwf) as Hn.
  unfold disconnect_others.
  rewrite <- (flat_map_filter (fun i => negb (active =? i))
                (fun i => ClientDisconnect {| id := i |})).
  apply for_each_frame. intros i Hi. apply in_range in Hi.
  rewrite to_int_small by lia.
  destruct (active =? i); [reflexivity|]. cbn [negb].
  unfold bind. rewrite pool_at_wf by (auto; lia). reflexivity.
Qed.

Lemma onLoginSuccess_accepted s client :
  wf s -> In client (m_pools s) ->
  ~ (m_retries s = 0 /\ id client < m_minAcceptableIndex s) ->
  onLoginSuccess client s
  = Some (tt, accept_login s client,
          disconnect_others (login_active s client) (pools_size s)
          ++ (if login_active s client =? m_active s then []
              else [ListenerOnActive client])).
Proof.
  intros Hwf Hin Hno.
  pose proof (client_range s client Hwf Hin) as Hc.
  pose proof (pools_size_range s Hwf) as Hn.
  unfold onLoginSuccess. rewrite !bind_gets, to_size_t_small by lia.
  assert ((m_retries s =? 0) && (id client <? m_minAcceptableIndex s) = false) as ->.
  { destruct (Z.eqb_spec (m_retries s) 0);
      destruct (Z.ltb_spec (id client) (m_minAcceptableIndex s));
      simpl; try reflexivity. tauto. }
  rewrite !bind_modify, !bind_gets.
  set (s0 := set_minAcceptableIndex 0 (set_pendingConnect false s)).
  assert (Hwf0 : wf s0).
  { revert Hwf. unfold s0, wf, pools_size. cbn. intuition lia. }
  change (isActive s0) with (isActive s).
  change (pools_size s0) with (pools_size s).
  fold (login_active s client).
  eapply bind_run; [apply (others_loop s0 _ Hwf0)|].
  rewrite bind_gets. change (m_active s0) with (m_active s).
  assert (Hge : (0 <=? login_active s client) = true).
  { unfold login_active, isActive.
    destruct (Z.eqb_spec (id client) 0); cbn [orb]; [lia|].
    destruct (Z.leb_spec 0 (m_active s)); cbn [negb]; lia. }
  rewrite Hge. cbn [andb]. unfold accept_login. fold s0.
  destruct (login_active s client =? m_active s) eqn:E; cbn [negb]; [reflexivity|].
  rewrite !bind_modify. rewrite to_size_t_small; [reflexivity|].
  apply Z.leb_le in Hge. unfold login_active.
  destruct ((id client =? 0) || negb (isActive s)) eqn:P; [lia|].
  exfalso. unfold login_active in E. rewrite P in E. rewrite Z.eqb_refl in E. discriminate.
Qed.

Lemma in_int_spec z : in_int z = true <-> - 2 ^ 31 <= z < 2 ^ 31.
Proof. unfold in_int. rewrite andb_true_iff, Z.leb_le, Z.ltb_lt. tauto. Qed.

Lemma add_wf pool s :
  wf s -> pools_size s + 1 < 2 ^ 31 ->
  - 2 ^ 31 <= m_retryPause s * 1000 < 2 ^ 31 ->
  exists s' t, add pool s = Some (tt, s', t) /\ wf s' /\
    pools_size s' = pools_size s + 1 /\ m_retries s' = m_retries s /\
    m_retryPause s' = m_retryPause s.
Proof.
  intros Hwf Hlt Hpause. pose proof (pools_size_range s Hwf) as Hn.
  apply in_int_spec in Hpause.
  unfold add. rewrite bind_gets. cbv zeta.
  rewrite to_int_small by lia. rewrite bind_gets.
  do 2 eexists. split.
  { unfold bind, call, gets, modify. rewrite Hpause. reflexivity. }
  destruct Hwf as (W1 & W2 & W3 & W4 & W5).
  assert (Hsz : pools_size (push_back (createClient pool (pools_size s)) s)
                = pools_size s + 1).
  { unfold pools_size. cbn. rewrite length_app. cbn. lia. }
  repeat split; try assumption; try lia; try apply W3; try apply W4; try apply W5.
  rewrite Hsz. unfold clients. rewrite range_snoc by lia.
  rewrite map_app. cbn [m_pools push_back map]. rewrite W2 at 1. reflexivity.
Qed.

Lemma construct_wf pools retryPause retries quiet :
  Z.of_nat (length pools) < 2 ^ 31 ->
  - 2 ^ 31 <= retryPause * 1000 < 2 ^ 31 ->
  exists s t, construct pools retryPause retries quiet = Some (tt, s, t) /\
    wf s /\ pools_size s = Z.of_nat (length pools) /\ m_retries s = retries.
Proof.
  intros Hlen Hpause. unfold construct.
  assert (G : forall s0, wf s0 -> pools_size s0 + Z.of_nat (length pools) < 2 ^ 31 ->
     - 2 ^ 31 <= m_retryPause s0 * 1000 < 2 ^ 31 ->
     exists s t, for_each pools add s0 = Some (tt, s, t) /\ wf s /\
       pools_size s = pools_size s0 + Z.of_nat (length pools) /\
       m_retries s = m_retries s0).
  { clear Hlen Hpause. induction pools as [|p r IH]; intros s0 Hwf Hlt Hp.
    - exists s0, []. cbn. repeat split; try apply Hwf. lia.
    - cbn [length for_each] in *.
      destruct (add_wf p s0 Hwf) as (s1 & t1 & Ha & Hwf1 & Hs1 & Hr1 & Hp1);
        [lia|exact Hp|].
      destruct (IH s1 Hwf1) as (s2 & t2 & Hb & Hwf2 & Hs2 & Hr2);
        [lia|rewrite Hp1; exact Hp|].
      exists s2, (t1 ++ t2). split; [eapply bind_run; eassumption|].
      repeat split; try apply Hwf2; [lia|congruence]. }
  destruct (G (fresh quiet retries retryPause)) as (s & t & H1 & H2 & H3 & H4).
  - unfold wf, pools_size. cbn. repeat split; lia.
  - unfold pools_size. cbn. lia.
  - exact Hpause.
  - exists s, t. repeat split; try apply H2; assumption.
Qed.

(** Where the product of line 62 overflows, the constructor has no defined
    behaviour as soon as there is a pool to add. *)
Lemma construct_overflow pool pools retryPause retries quiet :
  ~ (- 2 ^ 31 <= retryPause * 1000 < 2 ^ 31) ->
  construct (pool :: pools) retryPause retries quiet = None.
Proof.
  intros Hp.
  assert (E : in_int (retryPause * 1000) = false).
  { destruct (in_int _) eqn:E; [apply in_int_spec in E; contradiction|reflexivity]. }
  assert (A : add pool (fresh quiet retries retryPause) = None).
  { unfold add, bind, gets, call, undefined. cbn [fresh m_retryPause].
    rewrite E. reflexivity. }
  unfold construct. cbn [for_each]. unfold bind. rewrite A. reflexivity.
Qed.

Lemma in_disconnect_upto k c :
  In (ClientDisconnect c) (disconnect_upto k) <-> 0 <= id c <= k.
Proof.
  unfold disconnect_upto. rewrite in_map_iff. split.
  - intros [i [E Hi]]. inversion E; subst. apply in_range in Hi. cbn. lia.
  - intros H. exists (id c). split; [destruct c; reflexivity|]. apply in_range. lia.
Qed.

Lemma no_connect_in_close_trace s client k c :
  ~ In (ClientConnect c) (pause_if_active s client ++ disconnect_upto k).
Proof.
  rewrite in_app_iff. intros [H|H].
  - unfold pause_if_active in H. destruct (_ =? _); cbn in H; intuition discriminate.
  - unfold disconnect_upto in H. apply in_map_iff in H.
    destruct H as [i [E _]]. discriminate.
Qed.

(** C1 (amended): in zero-retry mode, a close with [failures >= 0] on the
    current pool ([client.id = m_index]) that is not suppressed
    ([m_minAcceptableIndex <= client.id]) disconnects every pool with
    [id <= m_index], sets the pending index to [m_index + 1] when more pools
    remain and to 0 when the list is exhausted, sets [m_minAcceptableIndex]
    to that pending index and raises [m_pendingConnect].  It calls [connect]
    on no client; the next [tick] connects the pending pool. *)
Theorem onClose_zero_retry_schedules_next s client failures :
  wf s -> In client (m_pools s) ->
  m_retries s = 0 -> 0 <= failures ->
  id client = m_index s ->
  m_minAcceptableIndex s <= id client ->
  close_schedules_next s client failures /\
  onClose client failures s
  = Some (tt, schedule_next (clear_if_active s client),
          pause_if_active s client ++ disconnect_upto (m_index s)).
Proof.
  intros Hwf Hin Hr Hf Hid Hmin.
  pose proof (client_range s client Hwf Hin) as Hc.
  pose proof (pools_size_range s Hwf) as Hn.
  assert (Hrun := onClose_zero_current s client failures Hwf Hin Hr
                    ltac:(lia) Hid Hmin).
  split; [|exact Hrun].
  destruct (clear_fields s client) as (E1 & E2 & E3 & E4 & E5 & E6 & E7).
  set (s1 := clear_if_active s client) in *.
  assert (Hp : m_pendingIndex (schedule_next s1)
               = if m_index s + 1 <? pools_size s then m_index s + 1 else 0).
  { unfold schedule_next. cbn. rewrite E2, E7. reflexivity. }
  exists (schedule_next s1), (pause_if_active s client ++ disconnect_upto (m_index s)).
  split; [exact Hrun|]. split; [|split; [exact Hp|split; [|split; [|split]]]].
  - intros c Hcin Hle. apply in_or_app. right. apply in_disconnect_upto.
    pose proof (client_range s c Hwf Hcin). lia.
  - unfold schedule_next. reflexivity.
  - reflexivity.
  - intros c. apply no_connect_in_close_trace.
  - intros now.
    assert (Hlt : m_pendingIndex (schedule_next s1) < pools_size (schedule_next s1)).
    { rewrite Hp. change (pools_size (schedule_next s1)) with (pools_size s1).
      rewrite E7. destruct (Z.ltb_spec (m_index s + 1) (pools_size s)); lia. }
    assert (Hwf' : wf (schedule_next s1)).
    { assert (W := wf_clear s client Hwf). fold s1 in W.
      assert (0 <= m_pendingIndex (schedule_next s1) < 2 ^ 64).
      { rewrite Hp. destruct (Z.ltb_spec (m_index s + 1) (pools_size s)); lia. }
      revert W H. unfold wf, pools_size, schedule_next. cbn. intuition lia. }
    do 2 eexists. split; [apply tick_pending; [exact Hwf'|reflexivity|exact Hlt]|].
    split; reflexivity.
Qed.

Ltac concrete := vm_compute; intuition (try discriminate; try reflexivity).

(** Three pools, nothing connected yet, pool 0 closes. *)
Lemma onClose_zero_retry_schedules_next_witness :
  close_schedules_next (built three_pools 0) pool0 0 /\
  onClose pool0 0 (built three_pools 0)
  = Some (tt, schedule_next (clear_if_active (built three_pools 0) pool0),
          pause_if_active (built three_pools 0) pool0
          ++ disconnect_upto (m_index (built three_pools 0))).
Proof.
  apply onClose_zero_retry_schedules_next; concrete.
Defined.

(** C1 as stated fails: three pools, pool 0 closes, a tick connects pool 1,
    pool 1 closes (pending index 2, minimum acceptable index 2) and, before
    the next tick, pool 1 closes again.  That close is on the current
    [m_index = 1] but below [m_minAcceptableIndex = 2]: only pool 1 is
    disconnected again, pool 0 is not. *)
Lemma close_on_current_pool_suppressed :
  let s := state_after [EvClose pool0 0; EvTick 1; EvClose pool1 0]
                       (built three_pools 0) in
  wf s /\ In pool1 (m_pools s) /\ m_retries s = 0 /\ 0 <= 0 /\
  id pool1 = m_index s /\
  ~ close_schedules_next s pool1 0.
Proof.
  cbv zeta. repeat split; try solve [concrete].
  intros (s' & t & Hrun & Hdis & _).
  vm_compute in Hrun. inversion Hrun; subst t; clear Hrun.
  specialize (Hdis pool0). vm_compute in Hdis.
  destruct Hdis as [H|[]]; [left; reflexivity|discriminate|discriminate].
Qed.

(** C9: a close with [failures = -1] returns with every member unchanged
    and calls neither the listener nor any client. *)
Theorem onClose_explicit_disconnect_ignored s client :
  onClose client (-1) s = Some (tt, s, []).
Proof. reflexivity. Qed.

Lemma wf_schedule_next s : wf s -> m_index s < pools_size s -> wf (schedule_next s).
Proof.
  intros Hwf Hlt. pose proof (pools_size_range s Hwf).
  revert Hwf. unfold wf, schedule_next, pools_size in *. cbn.
  destruct (Z.ltb_spec (m_index s + 1) (Z.of_nat (length (m_pools s)))); intuition lia.
Qed.

Lemma wf_set_index s i : wf s -> 0 <= i < 2 ^ 64 -> wf (set_index i s).
Proof. unfold wf, pools_size. cbn. intuition lia. Qed.

Lemma wf_accept_login s c : wf s -> In c (m_pools s) -> wf (accept_login s c).
Proof.
  intros Hwf Hin. pose proof (client_range s c Hwf Hin).
  pose proof (pools_size_range s Hwf).
  unfold accept_login, login_active, isActive.
  destruct (_ =? m_active s) eqn:E.
  - revert Hwf. unfold wf, pools_size. cbn. intuition lia.
  - destruct ((id c =? 0) || negb (0 <=? m_active s)) eqn:P.
    + revert Hwf. unfold wf, pools_size. cbn. intuition lia.
    + rewrite Z.eqb_refl in E. discriminate.
Qed.

(** Every event from the strategy's own clients, and every tick, is handled
    without undefined behaviour and keeps the strategy well-formed. *)
Lemma handle_defined s e :
  wf s -> own_event s e ->
  exists s' t, handle e s = Some (tt, s', t) /\
    wf s' /\ m_pools s' = m_pools s /\ m_retries s' = m_retries s.
Proof.
  intros Hwf Hown. destruct e as [c f|c|now]; cbn [handle own_event] in *.
  - destruct (clear_fields s c) as (E1 & E2 & E3 & E4 & E5 & E6 & E7).
    assert (W1 := wf_clear s c Hwf).
    pose proof (client_range s c Hwf Hown) as Hc.
    pose proof (pools_size_range s Hwf) as Hn.
    destruct (Z.eq_dec f (-1)) as [->|Hf].
    { exists s, []. repeat split; try apply Hwf. }
    destruct (Z.eq_dec (m_retries s) 0) as [Hr|Hr].
    + destruct (Z.lt_ge_cases (id c) (m_minAcceptableIndex s)) as [Hlt|Hge];
        [|destruct (Z.eq_dec (id c) (m_index s)) as [Heq|Hne]].
      * do 2 eexists. split; [apply onClose_zero_suppressed; assumption|].
        split; [exact W1|]. split; assumption.
      * do 2 eexists. split; [apply onClose_zero_current; assumption|].
        split; [apply wf_schedule_next; [exact W1|rewrite E2, E7; lia]|].
        split; [exact E6|exact E1].
      * do 2 eexists. split; [apply onClose_zero_other; assumption|].
        split; [exact W1|]. split; assumption.
    + destruct (Z.eq_dec (m_index s) 0) as [Hi|Hi];
        [destruct (Z.lt_ge_cases f (m_retries s)) as [Hlt|Hge]|].
      * do 2 eexists. split; [apply onClose_retry_in_place; assumption|].
        split; [exact W1|]. split; assumption.
      * destruct (Z.eq_dec (id c) (m_index s)) as [Heq|Hne];
          [destruct (Z.lt_ge_cases (m_index s + 1) (pools_size s)) as [Hn1|Hn1]|].
        -- do 2 eexists. split; [apply onClose_retry_advance; try assumption; lia|].
           split; [apply wf_set_index; [exact W1|lia]|]. split; assumption.
        -- do 2 eexists. split; [apply onClose_retry_stay; try assumption; lia|].
           split; [exact W1|]. split; assumption.
        -- do 2 eexists. split; [apply onClose_retry_stay; try assumption; lia|].
           split; [exact W1|]. split; assumption.
      * destruct (Z.eq_dec (id c) (m_index s)) as [Heq|Hne];
          [destruct (Z.lt_ge_cases (m_index s + 1) (pools_size s)) as [Hn1|Hn1]|].
        -- do 2 eexists. split; [apply onClose_retry_advance; try assumption; lia|].
           split; [apply wf_set_index; [exact W1|lia]|]. split; assumption.
        -- do 2 eexists. split; [apply onClose_retry_stay; try assumption; lia|].
           split; [exact W1|]. split; assumption.
        -- do 2 eexists. split; [apply onClose_retry_stay; try assumption; lia|].
           split; [exact W1|]. split; assumption.
  - destruct (Z.eq_dec (m_retries s) 0) as [Hr|Hr];
      [destruct (Z.lt_ge_cases (id c) (m_minAcceptableIndex s)) as [Hlt|Hge]|].
    + exists s, [ClientDisconnect c].
      split; [apply onLoginSuccess_suppressed; assumption|]. repeat split; apply Hwf.
    + do 2 eexists. split; [apply onLoginSuccess_accepted; try assumption; lia|].
      split; [apply wf_accept_login; assumption|].
      unfold accept_login. destruct (_ =? _); split; reflexivity.
    + do 2 eexists. split; [apply onLoginSuccess_accepted; try assumption; tauto|].
      split; [apply wf_accept_login; assumption|].
      unfold accept_login. destruct (_ =? _); split; reflexivity.
  - destruct (m_pendingConnect s) eqn:Hp;
      [destruct (Z.lt_ge_cases (m_pendingIndex s) (pools_size s)) as [Hlt|Hge]|].
    + do 2 eexists. split; [apply tick_pending; assumption|].
      split; [|split; reflexivity].
      revert Hwf. unfold wf, pools_size. cbn. intuition lia.
    + do 2 eexists. split; [apply tick_idle; right; lia|]. repeat split; apply Hwf.
    + do 2 eexists. split; [apply tick_idle; left; exact Hp|]. repeat split; apply Hwf.
Qed.

Lemma cascade_step s e :
  wf s -> m_retries s = 0 -> cascade_event s e ->
  exists s1 t1, handle e s = Some (tt, s1, t1) /\
    wf s1 /\ m_retries s1 = 0 /\ m_pools s1 = m_pools s /\
    (exhausts s e = false -> m_minAcceptableIndex s <= m_minAcceptableIndex s1) /\
    (exhausts s e = true -> m_minAcceptableIndex s1 = 0).
Proof.
  intros Hwf Hr He. destruct e as [c f| c |now]; cbn [handle cascade_event exhausts] in *.
  - destruct He as [Hin Hf].
    pose proof (client_range s c Hwf Hin) as Hc.
    pose proof (pools_size_range s Hwf) as Hn.
    destruct (clear_fields s c) as (E1 & E2 & E3 & E4 & E5 & E6 & E7).
    assert (W1 := wf_clear s c Hwf).
    destruct (Z.lt_ge_cases (id c) (m_minAcceptableIndex s)) as [Hlt|Hge].
    + exists (clear_if_active s c), (pause_if_active s c ++ [ClientDisconnect c]).
      split; [apply onClose_zero_suppressed; auto; lia|].
      repeat split; try apply W1; try congruence; [lia|].
      destruct (Z.leb_spec (m_minAcceptableIndex s) (id c)); [lia|].
      rewrite andb_false_r. discriminate.
    + destruct (Z.eq_dec (id c) (m_index s)) as [Heq|Hne].
      * exists (schedule_next (clear_if_active s c)),
               (pause_if_active s c ++ disconnect_upto (m_index s)).
        split; [apply onClose_zero_current; auto; lia|].
        assert (W2 : wf (schedule_next (clear_if_active s c))).
        { apply wf_schedule_next; [exact W1|]. rewrite E2, E7. lia. }
        split; [exact W2|]. split; [unfold schedule_next; cbn; congruence|].
        split; [unfold schedule_next; cbn; congruence|].
        rewrite <- Heq, Z.eqb_refl.
        destruct (Z.leb_spec (m_minAcceptableIndex s) (id c)); [|lia].
        cbn [andb]. unfold schedule_next. cbn [m_minAcceptableIndex set_pendingConnect set_minAcceptableIndex].
        rewrite E2, E7, <- Heq.
        destruct (Z.leb_spec (pools_size s) (id c + 1));
          destruct (Z.ltb_spec (id c + 1) (pools_size s)); try lia;
          split; intros; try discriminate; try reflexivity; lia.
      * exists (clear_if_active s c), (pause_if_active s c).
        split; [apply onClose_zero_other; auto; lia|].
        repeat split; try apply W1; try congruence; [lia|].
        destruct (Z.eqb_spec (m_index s) (id c)); [congruence|]. discriminate.
  - contradiction.
  - destruct (m_pendingConnect s) eqn:Hp.
    + destruct (Z.lt_ge_cases (m_pendingIndex s) (pools_size s)) as [Hlt|Hge].
      * do 2 eexists. split; [apply tick_pending; assumption|].
        repeat split; try apply Hwf; try assumption; try reflexivity; try discriminate.
        all: destruct Hwf as (_ & _ & _ & _ & W); cbn; apply W.
      * do 2 eexists. split; [apply tick_idle; right; lia|].
        repeat split; try apply Hwf; try assumption; try reflexivity; try discriminate.
    + do 2 eexists. split; [apply tick_idle; left; exact Hp|].
      repeat split; try apply Hwf; try assumption; try reflexivity; try discriminate.
Qed.

Lemma cascade_event_pools s s1 e :
  m_pools s1 = m_pools s -> cascade_event s e -> cascade_event s1 e.
Proof. intros E. destruct e; cbn; rewrite ?E; auto. Qed.

Lemma cascade_run s evs :
  wf s -> m_retries s = 0 -> Forall (cascade_event s) evs ->
  exists s' t, run_events evs s = Some (tt, s', t) /\
    wf s' /\ m_retries s' = 0 /\ m_pools s' = m_pools s /\
    (no_exhaustion evs s = true ->
     m_minAcceptableIndex s <= m_minAcceptableIndex s').
Proof.
  intros Hwf Hr Hall. revert s Hwf Hr Hall.
  induction evs as [|e r IH]; intros s Hwf Hr Hall.
  - exists s, []. cbn. repeat split; try apply Hwf; auto. lia.
  - inversion Hall as [|? ? He Hrest]; subst.
    destruct (cascade_step s e Hwf Hr He)
      as (s1 & t1 & Hstep & Hwf1 & Hr1 & Hp1 & Hmono & _).
    destruct (IH s1 Hwf1 Hr1) as (s2 & t2 & Hrun & Hwf2 & Hr2 & Hp2 & Hrest2).
    { eapply Forall_impl; [|exact Hrest]. intros a. apply cascade_event_pools. exact Hp1. }
    exists s2, (t1 ++ t2). split.
    { unfold run_events. cbn [for_each]. eapply bind_run; eassumption. }
    split; [exact Hwf2|]. split; [exact Hr2|]. split; [congruence|].
    cbn [no_exhaustion]. rewrite Hstep. intros H.
    apply andb_prop in H. destruct H as [H1 H2].
    apply negb_true_iff in H1. specialize (Hmono H1). specialize (Hrest2 H2). lia.
Qed.

(** C3 (amended): in zero-retry mode, along any sequence of closes with
    [failures >= 0] and ticks, with no login in between, in which no close
    exhausts the pool list, [m_minAcceptableIndex] does not decrease.  A close
    that exhausts the list wraps the cascade around and resets it to 0, and
    so does the next login success that is not suppressed. *)
Theorem min_acceptable_index_cascade s evs :
  wf s -> m_retries s = 0 -> Forall (cascade_event s) evs ->
  exists s' t,
    run_events evs s = Some (tt, s', t) /\
    (no_exhaustion evs s = true ->
     m_minAcceptableIndex s <= m_minAcceptableIndex s') /\
    (forall c f, In c (m_pools s') -> 0 <= f ->
       exhausts s' (EvClose c f) = true ->
       exists s2 t2, onClose c f s' = Some (tt, s2, t2) /\
                     m_minAcceptableIndex s2 = 0) /\
    (forall c, In c (m_pools s') -> m_minAcceptableIndex s' <= id c ->
       exists s2 t2, onLoginSuccess c s' = Some (tt, s2, t2) /\
                     m_minAcceptableIndex s2 = 0).
Proof.
  intros Hwf Hr Hall.
  destruct (cascade_run s evs Hwf Hr Hall) as (s' & t & Hrun & Hwf' & Hr' & Hp' & Hmono).
  exists s', t. split; [exact Hrun|]. split; [exact Hmono|]. split.
  - intros c f Hin Hf Hex.
    destruct (cascade_step s' (EvClose c f) Hwf' Hr' (conj Hin Hf))
      as (s2 & t2 & Hstep & _ & _ & _ & _ & Hzero).
    exists s2, t2. split; [exact Hstep|]. apply Hzero. exact Hex.
  - intros c Hin Hge. do 2 eexists. split.
    + apply onLoginSuccess_accepted; [exact Hwf'|exact Hin|]. intros [_ Hlt]. lia.
    + unfold accept_login. destruct (_ =? _); reflexivity.
Qed.

(** Three pools: pool 0 closes, tick, pool 1 closes. *)
Lemma min_acceptable_index_cascade_witness :
  exists s' t,
    run_events [EvClose pool0 0; EvTick 1; EvClose pool1 0] (built three_pools 0)
    = Some (tt, s', t) /\
    (no_exhaustion [EvClose pool0 0; EvTick 1; EvClose pool1 0] (built three_pools 0) = true ->
     m_minAcceptableIndex (built three_pools 0) <= m_minAcceptableIndex s') /\
    (forall c f, In c (m_pools s') -> 0 <= f ->
       exhausts s' (EvClose c f) = true ->
       exists s2 t2, onClose c f s' = Some (tt, s2, t2) /\
                     m_minAcceptableIndex s2 = 0) /\
    (forall c, In c (m_pools s') -> m_minAcceptableIndex s' <= id c ->
       exists s2 t2, onLoginSuccess c s' = Some (tt, s2, t2) /\
                     m_minAcceptableIndex s2 = 0).
Proof.
  apply min_acceptable_index_cascade; [concrete|concrete|].
  repeat (apply Forall_cons; [concrete|]). apply Forall_nil.
Defined.

(** C3 as stated fails: two pools, pool 0 has closed and a tick has moved
    on to pool 1 ([m_minAcceptableIndex = 1]); the close of pool 1 exhausts
    the list and [m_minAcceptableIndex] drops to 0 with no login. *)
Lemma min_acceptable_index_drops_on_wrap :
  let s := state_after [EvClose pool0 0; EvTick 1] (built two_pools 0) in
  wf s /\ m_retries s = 0 /\ In pool1 (m_pools s) /\ 0 <= 0 /\
  exists s' t, run_events [EvClose pool1 0] s = Some (tt, s', t) /\
               m_minAcceptableIndex s' < m_minAcceptableIndex s.
Proof.
  cbv zeta. repeat split; try solve [concrete].
  do 2 eexists. split; [vm_compute; reflexivity|]. vm_compute. reflexivity.
Qed.

Lemma in_disconnect_others active n c :
  In (ClientDisconnect c) (disconnect_others active n)
  <-> 0 <= id c < n /\ id c <> active.
Proof.
  unfold disconnect_others. rewrite in_map_iff. split.
  - intros [i [E Hi]]. inversion E; subst. apply filter_In in Hi.
    destruct Hi as [Hi Hne]. apply in_range in Hi. cbn.
    destruct (Z.eqb_spec active i); [discriminate|]. split; [lia|congruence].
  - intros [Hr Hne]. exists (id c). split; [destruct c; reflexivity|].
    apply filter_In. split; [apply in_range; lia|].
    destruct (Z.eqb_spec active (id c)); [congruence|reflexivity].
Qed.

(** C2: [onLoginSuccess] of one of the strategy's clients.  In zero-retry
    mode a client below [m_minAcceptableIndex] is disconnected and nothing
    else changes.  Otherwise the pending connect is cancelled,
    [m_minAcceptableIndex] is reset to 0, the client becomes the active one
    exactly when its id is 0 or no pool is active (else the active pool stays),
    every pool other than the active one is disconnected, and exactly when
    the active id changed [m_index = m_active = id] and [onActive] is
    emitted. *)
Theorem onLoginSuccess_promotes s client :
  wf s -> In client (m_pools s) ->
  exists s' t,
    onLoginSuccess client s = Some (tt, s', t) /\
    if (m_retries s =? 0) && (id client <? m_minAcceptableIndex s)
    then s' = s /\ t = [ClientDisconnect client]
    else
      let active :=
        if (id client =? 0) || negb (isActive s) then id client else m_active s in
      m_pendingConnect s' = false /\
      m_minAcceptableIndex s' = 0 /\
      m_active s' = active /\
      (forall c, In (ClientDisconnect c) t <-> In c (m_pools s) /\ id c <> active) /\
      (active <> m_active s ->
         active = id client /\ m_index s' = id client /\
         t = disconnect_others active (pools_size s) ++ [ListenerOnActive client]) /\
      (active = m_active s ->
         m_index s' = m_index s /\
         t = disconnect_others active (pools_size s)) /\
      m_pendingIndex s' = m_pendingIndex s /\
      m_retries s' = m_retries s /\
      m_pools s' = m_pools s.
Proof.
  intros Hwf Hin.
  pose proof (client_range s client Hwf Hin) as Hc.
  destruct ((m_retries s =? 0) && (id client <? m_minAcceptableIndex s)) eqn:Hs.
  - apply andb_prop in Hs. destruct Hs as [Hr Hlt].
    apply Z.eqb_eq in Hr. apply Z.ltb_lt in Hlt.
    exists s, [ClientDisconnect client]. split; [|split; reflexivity].
    apply onLoginSuccess_suppressed; assumption.
  - assert (Hno : ~ (m_retries s = 0 /\ id client < m_minAcceptableIndex s)).
    { intros [Hr Hlt]. apply Z.eqb_eq in Hr. apply Z.ltb_lt in Hlt.
      rewrite Hr, Hlt in Hs. discriminate. }
    do 2 eexists. split; [apply onLoginSuccess_accepted; assumption|].
    cbv zeta. fold (login_active s client).
    unfold accept_login.
    assert (Hdis : forall tail,
               (forall c, ~ In (ClientDisconnect c) tail) ->
               forall c, In (ClientDisconnect c)
                            (disconnect_others (login_active s client) (pools_size s) ++ tail)
                         <-> In c (m_pools s) /\ id c <> login_active s client).
    { intros tail Htail c. rewrite in_app_iff, in_disconnect_others.
      specialize (Htail c).
      assert (In c (m_pools s) <-> 0 <= id c < pools_size s).
      { destruct Hwf as (_ & Hp & _). rewrite Hp at 1. apply in_clients. }
      tauto. }
    destruct (Z.eqb_spec (login_active s client) (m_active s)) as [Heq|Hne].
    + split; [reflexivity|]. split; [reflexivity|]. split; [cbn; congruence|].
      split; [apply Hdis; intros c []|].
      split; [intros Hx; contradiction|].
      split; [intros _; split; [reflexivity|apply app_nil_r]|].
      repeat split.
    + assert (Hid : login_active s client = id client).
      { unfold login_active in *. destruct (_ || _); [reflexivity|congruence]. }
      split; [reflexivity|]. split; [reflexivity|]. split; [reflexivity|].
      split; [apply Hdis; intros c [Hx|[]]; discriminate|].
      split; [intros _; split; [exact Hid|split; [cbn; exact Hid|reflexivity]]|].
      split; [intros Hx; contradiction|].
      repeat split.
Qed.

(** Three pools, pool 0 has closed, pool 1 was connected by the tick and
    now logs in. *)
Lemma onLoginSuccess_promotes_witness :
  exists s' t,
    onLoginSuccess pool1 (state_after [EvClose pool0 0; EvTick 1] (built three_pools 0))
    = Some (tt, s', t) /\
    m_active s' = 1 /\ m_index s' = 1 /\ m_minAcceptableIndex s' = 0 /\
    t = [ClientDisconnect pool0; ClientDisconnect pool2; ListenerOnActive pool1].
Proof.
  destruct (onLoginSuccess_promotes
              (state_after [EvClose pool0 0; EvTick 1] (built three_pools 0)) pool1)
    as (s' & t & Hrun & Hspec); [concrete|concrete|].
  exists s', t. split; [exact Hrun|].
  vm_compute in Hrun. inversion Hrun. repeat split.
Defined.

(** C7 (amended): with [retries > 0] and [failures >= 0], [onClose] first
    clears [m_active] and emits [onPause] when the closing client was the
    active one.  Then, if [m_index = 0] and [failures < retries], nothing
    else changes (no state changes at all when the closing client was not
    active); otherwise, if the closing client is the current pool and a next
    pool exists, [m_index] is incremented and that pool is connected at once;
    on pool 0 with [failures >= retries] the strategy advances to pool 1. *)
Theorem onClose_retry_mode s client failures :
  wf s -> In client (m_pools s) ->
  0 < m_retries s -> 0 <= failures ->
  exists s' t,
    onClose client failures s = Some (tt, s', t) /\
    (if (m_index s =? 0) && (failures <? m_retries s)
     then s' = clear_if_active s client /\ t = pause_if_active s client
     else if (m_index s =? id client) && (m_index s + 1 <? pools_size s)
     then s' = set_index (m_index s + 1) (clear_if_active s client) /\
          t = pause_if_active s client ++ [ClientConnect {| id := m_index s + 1 |}]
     else s' = clear_if_active s client /\ t = pause_if_active s client) /\
    (m_index s = 0 -> failures < m_retries s -> m_active s <> id client ->
     s' = s /\ t = []) /\
    (m_index s = 0 -> id client = 0 -> m_retries s <= failures ->
     1 < pools_size s ->
     m_index s' = 1 /\ In (ClientConnect {| id := 1 |}) t).
Proof.
  intros Hwf Hin Hr Hf.
  assert (Hr0 : m_retries s <> 0) by lia.
  assert (Hf1 : failures <> -1) by lia.
  destruct (Z.eqb_spec (m_index s) 0) as [Hi0|Hi0];
    destruct (Z.ltb_spec failures (m_retries s)) as [Hlt|Hge]; cbn [andb].
  1: { exists (clear_if_active s client), (pause_if_active s client).
       split; [apply onClose_retry_in_place; assumption|].
       split; [split; reflexivity|]. split; [|intros; lia].
       intros _ _ Hna. unfold clear_if_active, pause_if_active.
       destruct (Z.eqb_spec (m_active s) (id client)); [contradiction|]. split; reflexivity. }
  all: destruct (Z.eqb_spec (m_index s) (id client)) as [Hid|Hid];
    destruct (Z.ltb_spec (m_index s + 1) (pools_size s)) as [Hn|Hn]; cbn [andb].
  all: try (exists (clear_if_active s client), (pause_if_active s client);
            split; [apply onClose_retry_stay; try assumption; lia|];
            split; [split; reflexivity|]; split; intros; lia).
  all: exists (set_index (m_index s + 1) (clear_if_active s client)),
         (pause_if_active s client ++ [ClientConnect {| id := m_index s + 1 |}]);
       (split; [apply onClose_retry_advance; try assumption; try lia; auto|]);
       (split; [split; reflexivity|]); (split; [intros; lia|]);
       intros H0 _ _ _; cbn; rewrite H0; split; [reflexivity|];
       apply in_or_app; right; left; reflexivity.
Qed.

(** Two pools, two retries, pool 0 closes with two failures. *)
Lemma onClose_retry_mode_witness :
  exists s' t,
    onClose pool0 2 (built two_pools 2) = Some (tt, s', t) /\
    m_index s' = 1 /\ t = [ClientConnect pool1].
Proof.
  destruct (onClose_retry_mode (built two_pools 2) pool0 2)
    as (s' & t & Hrun & _); [concrete|concrete|concrete|concrete|].
  exists s', t. split; [exact Hrun|].
  vm_compute in Hrun. inversion Hrun. split; reflexivity.
Defined.

(** C7 as stated fails: two pools, two retries, pool 0 is logged in and
    active; its close with one failure leaves it retrying in place, yet
    [m_active] is cleared and [onPause] is emitted. *)
Lemma retry_in_place_clears_active :
  let s := state_after [EvLoginSuccess pool0] (built two_pools 2) in
  wf s /\ In pool0 (m_pools s) /\ 0 < m_retries s /\ 0 <= 1 /\
  m_index s = 0 /\ 1 < m_retries s /\
  exists s' t, onClose pool0 1 s = Some (tt, s', t) /\
               s' <> s /\ t = [ListenerOnPause].
Proof.
  cbv zeta. repeat split; try solve [concrete].
  do 2 eexists. split; [vm_compute; reflexivity|].
  split; [|reflexivity]. intros H. discriminate H.
Qed.
End FailoverFacts.

(** ** DonateStrategy *)

Module DonateFacts.
Import Donate DonateSpec.

Lemma State_eqb_spec a b : reflect (a = b) (State_eqb a b).
Proof. destruct a, b; constructor; congruence. Qed.

Lemma setJob_run s client job :
  setJob client job s
  = Some (tt, s, if isActive s then [ListenerOnJob client job] else []).
Proof. unfold setJob. rewrite bind_gets. destruct (isActive s); reflexivity. Qed.

(** C4: a job arriving from the donation side, through the nested strategy
    or through the proxy client, reaches the listener's [onJob] if and only
    if the state is [STATE_ACTIVE]; in [STATE_NEW], [STATE_IDLE],
    [STATE_CONNECT] and [STATE_WAIT] it is dropped. *)
Theorem jobs_forwarded_iff_active s client job :
  exists t,
    setJob client job s = Some (tt, s, t) /\
    onJob client job s = Some (tt, s, t) /\
    onJobReceived client job s = Some (tt, s, t) /\
    (In (ListenerOnJob client job) t <-> m_state s = STATE_ACTIVE) /\
    (m_state s = STATE_ACTIVE -> t = [ListenerOnJob client job]) /\
    (m_state s = STATE_NEW \/ m_state s = STATE_IDLE \/
     m_state s = STATE_CONNECT \/ m_state s = STATE_WAIT -> t = []).
Proof.
  exists (if isActive s then [ListenerOnJob client job] else []).
  split; [apply setJob_run|]. split; [apply setJob_run|]. split; [apply setJob_run|].
  unfold isActive, state.
  destruct (State_eqb_spec (m_state s) STATE_ACTIVE) as [E|E].
  - split; [split; [auto|left; reflexivity]|]. split; [reflexivity|].
    rewrite E. intros [H|[H|[H|H]]]; discriminate.
  - split; [split; [intros []|contradiction]|]. split; [contradiction|reflexivity].
Qed.

(** C8: with [proxyDonate = AUTO] and a live proxy, [onClose] with
    [failures = 2] calls [deleteLater] on the proxy, clears [m_proxy] and
    calls the nested strategy's [connect] exactly once. *)
Theorem proxy_double_failure_falls_back controller s proxy client :
  proxyDonate controller = PROXY_DONATE_AUTO ->
  m_proxy s = Some proxy ->
  onClose controller client 2 s
  = Some (tt, set_proxy None s, [ProxyDeleteLater proxy; StrategyConnect]) /\
  m_proxy (set_proxy None s) = None.
Proof.
  intros Hauto Hp. split; [|reflexivity].
  unfold onClose. rewrite Hauto. cbn [Z.eqb Pos.eqb ProxyDonate_eqb andb].
  rewrite bind_gets, Hp. reflexivity.
Qed.

(** In proxy mode, with the operator's strategy active and offering the
    CONNECT extension, [connect] builds the proxy and does not touch the
    nested strategy. *)
Lemma connect_builds_proxy controller s :
  proxyDonate controller = PROXY_DONATE_AUTO ->
  op_isActive (network_strategy controller) = true ->
  op_ext_connect (network_strategy controller) = true ->
  exists s1 t1,
    connect controller s = Some (tt, s1, t1) /\
    m_proxy s1 = Some {| id := -1 |} /\
    ~ In StrategyConnect t1 /\ In (ProxyConnect {| id := -1 |}) t1.
Proof.
  intros Hauto Ha He. unfold connect, createProxy.
  rewrite Hauto, Ha, He. cbn [ProxyDonate_eqb negb orb].
  do 2 eexists. split; [reflexivity|]. split; [reflexivity|]. split.
  - cbn. intuition discriminate.
  - cbn. auto.
Qed.

(** The donation timer has fired and [connect] has built the proxy. *)
Lemma proxy_double_failure_falls_back_witness :
  onClose auto_controller donation_proxy 2 (after [OpOnTimer] started)
  = Some (tt, set_proxy None (after [OpOnTimer] started),
          [ProxyDeleteLater donation_proxy; StrategyConnect]) /\
  m_proxy (set_proxy None (after [OpOnTimer] started)) = None.
Proof.
  apply proxy_double_failure_falls_back; reflexivity.
Defined.

Ltac run_inv :=
  repeat match goal with
  | H : bind _ _ _ = Some _ |- _ =>
      apply bind_inv in H; destruct H as (? & ? & ? & ? & ? & ? & ?); subst
  | H : gets _ _ = Some _ |- _ => unfold gets in H; inversion H; subst; clear H
  | H : modify _ _ = Some _ |- _ => unfold modify in H; inversion H; subst; clear H
  | H : call _ _ = Some _ |- _ => unfold call in H; inversion H; subst; clear H
  | H : ret _ _ = Some _ |- _ => unfold ret in H; inversion H; subst; clear H
  | H : undefined _ = Some _ |- _ => discriminate H
  | H : (if ?c then _ else _) _ = Some _ |- _ => destruct c eqn:?
  | H : (match ?x with _ => _ end) _ = Some _ |- _ => destruct x eqn:?
  end.

Ltac no_pause :=
  repeat (rewrite in_app_iff in * || cbn [In] in * );
  intuition (try discriminate; try congruence).

Lemma connect_quiet controller s s' t :
  connect controller s = Some (tt, s', t) -> ~ In ListenerOnPause t.
Proof.
  unfold connect, createProxy. intros H. run_inv; no_pause.
Qed.

Lemma setState_pause ndebug controller st s s' t :
  setState ndebug controller st s = Some (tt, s', t) ->
  In ListenerOnPause t ->
  st = STATE_WAIT /\ m_state s <> STATE_WAIT /\ m_state s' = STATE_WAIT /\
  t = [ListenerOnPause].
Proof.
  unfold setState, assert, idle. intros H Hin.
  run_inv; try (exfalso; revert Hin; no_pause; fail).
  all: try (apply connect_quiet in H1; exfalso; revert Hin; no_pause; fail).
  split; [reflexivity|]. split; [|split; reflexivity].
  intros E. rewrite E in Heqb. discriminate.
Qed.

Lemma setState_wait ndebug controller s :
  m_state s <> STATE_WAIT ->
  setState ndebug controller STATE_WAIT s
  = Some (tt, set_timestamp (to_uint64 (m_now s + 3000)) (set_state STATE_WAIT s),
          [ListenerOnPause]).
Proof.
  intros Hne. unfold setState, assert. rewrite bind_gets.
  destruct (State_eqb_spec (m_state s) STATE_WAIT) as [E|_]; [contradiction|].
  cbn [negb andb State_eqb]. rewrite orb_true_r. reflexivity.
Qed.

(** C10: [onPause] coming from the nested strategy is swallowed;
    [setState] entering [STATE_WAIT] emits [onPause] to the listener; and
    whichever entry point runs, a listener [onPause] in its trace means that
    it was the timer firing in [STATE_ACTIVE], that the strategy is now in
    [STATE_WAIT], and that nothing else was called. *)
Theorem onPause_only_on_entering_wait ndebug tls controller s :
  onPause s = Some (tt, s, []) /\
  (m_state s <> STATE_WAIT ->
   setState ndebug controller STATE_WAIT s
   = Some (tt, set_timestamp (to_uint64 (m_now s + 3000)) (set_state STATE_WAIT s),
           [ListenerOnPause])) /\
  (forall op s' t,
     perform ndebug tls controller op s = Some (tt, s', t) ->
     In ListenerOnPause t ->
     op = OpOnTimer /\ m_state s = STATE_ACTIVE /\ m_state s' = STATE_WAIT /\
     t = [ListenerOnPause]).
Proof.
  split; [reflexivity|]. split; [apply setState_wait|].
  intros op s' t Hrun Hin.
  destruct op; cbn [perform] in Hrun;
    unfold stop, tick, update, submit, setAlgo, setProxy, onActive, onPause,
           onClose, onLogin_client, onLogin_strategy, setParams, onLoginSuccess,
           onVerifyAlgorithm, onTimer, onJob, onJobReceived, setJob,
           onResultAccepted, setResult in Hrun.
  all: try (apply connect_quiet in Hrun; contradiction).
  all: run_inv.
  all: try (exfalso; revert Hin; no_pause; fail).
  all: repeat match goal with x : unit |- _ => destruct x end.
  all: match goal with
       | H : setState _ _ _ _ = Some _ |- _ =>
           pose proof (setState_pause _ _ _ _ _ _ H) as K
       end.
  all: try (exfalso; revert Hin K; no_pause; fail).
  cbn [app In] in *. destruct (K Hin) as (K1 & K2 & K3 & K4).
  split; [reflexivity|]. split; [|split; assumption].
  unfold isActive, state in K1.
  match type of K1 with
  | context [State_eqb (m_state ?z) _] =>
      destruct (State_eqb_spec (m_state z) STATE_ACTIVE); [assumption|discriminate]
  end.
Qed.

(** The donation window ends: the timer fires while mining for the
    donation pool. *)
Lemma onPause_only_on_entering_wait_witness :
  exists s',
    perform true false auto_controller OpOnTimer
            (after [OpOnTimer; OpOnLoginSuccess donation_proxy] started)
    = Some (tt, s', [ListenerOnPause]) /\
    m_state s' = STATE_WAIT.
Proof.
  eexists. split; [vm_compute; reflexivity|].
  eapply (proj2 (proj2 (onPause_only_on_entering_wait true false auto_controller
            (after [OpOnTimer; OpOnLoginSuccess donation_proxy] started)))
            OpOnTimer).
  - vm_compute. reflexivity.
  - left. reflexivity.
Defined.
End DonateFacts.

(** ** Verthash *)

Module VerthashFacts.
Import Verthash VerthashSpec.

Lemma init_same_path load path s :
  m_initialized s = true -> data (m_info s) <> None ->
  fileName (m_info s) = Some path ->
  init load path s = Some (true, s, []).
Proof.
  intros Hi Hd Hf. unfold init. rewrite !bind_gets, Hi, Hf.
  destruct (data (m_info s)); [|contradiction]. cbn [negb is_null andb].
  unfold strcmp_eq. rewrite String.eqb_refl. reflexivity.
Qed.

Lemma init_true_loaded load path s s1 t1 :
  loader_contract load ->
  init load path s = Some (true, s1, t1) ->
  m_initialized s1 = true /\ data (m_info s1) <> None /\
  fileName (m_info s1) = Some path.
Proof.
  intros Hc. unfold init. rewrite !bind_gets. intros H.
  apply bind_inv in H. destruct H as (same & s0 & t0 & t2 & Hpre & Hload & ->).
  destruct same.
  - (* the early return *)
    inversion Hload; subst; clear Hload.
    destruct (m_initialized s) eqn:Hi; cbn [andb] in Hpre; [|discriminate].
    destruct (data (m_info s)) eqn:Hd; cbn [negb is_null] in Hpre; [|discriminate].
    destruct (fileName (m_info s)) as [name|] eqn:Hf; [|discriminate].
    unfold strcmp_eq in Hpre. destruct (String.eqb_spec name path); [|discriminate].
    inversion Hpre; subst. rewrite Hd, Hf. repeat split; congruence.
  - destruct (load path) as [result loaded] eqn:Hl.
    destruct (Z.eqb_spec result 0) as [->|Hne]; cbn [negb] in Hload.
    + destruct (Hc path loaded Hl) as [Hd Hf].
      unfold bind, call, modify, ret in Hload. inversion Hload; subst.
      cbn. auto.
    + unfold bind, call, modify, ret in Hload. inversion Hload.
Qed.

(** C5: once [init(p)] has returned true, a second [init(p)] returns true
    without calling the loader or freeing anything, and leaves the info
    (data, size, bitmask, path) and the initialized flag unchanged. *)
Theorem init_idempotent load load' path s s1 t1 :
  loader_contract load ->
  init load path s = Some (true, s1, t1) ->
  init load' path s1 = Some (true, s1, []).
Proof.
  intros Hc Hrun.
  destruct (init_true_loaded load path s s1 t1 Hc Hrun) as (Hi & Hd & Hf).
  apply init_same_path; assumption.
Qed.

(** The calls and the outcome of [init] on another path than the one that
    is loaded, run from beginning to end. *)
Lemma init_other_path_sequence load load' p1 p2 s s1 t1 :
  loader_contract load ->
  init load p1 s = Some (true, s1, t1) ->
  p2 <> p1 ->
  exists ok s2,
    init load' p2 s1
    = Some (ok, s2, [verthash_info_free (m_info s1); verthash_info_init p2]) /\
    (fst (load' p2) = 0 ->
     ok = true /\ s2 = mkVerthash (snd (load' p2)) true) /\
    (fst (load' p2) <> 0 ->
     ok = false /\ s2 = mkVerthash zeroed false).
Proof.
  intros Hc Hrun Hne.
  destruct (init_true_loaded load p1 s s1 t1 Hc Hrun) as (Hi & Hd & Hf).
  unfold init. rewrite !bind_gets, Hi, Hf.
  destruct (data (m_info s1)); [|contradiction]. cbn [negb is_null andb].
  unfold strcmp_eq. destruct (String.eqb_spec p1 p2) as [E|_]; [congruence|].
  destruct (load' p2) as [result loaded] eqn:Hl. cbn [fst snd].
  destruct (Z.eqb_spec result 0) as [->|Hr].
  - do 2 eexists. split; [unfold bind, call, modify, ret; reflexivity|].
    split; [intros _; split; reflexivity|intros H; contradiction].
  - do 2 eexists. split.
    { unfold bind, call, modify, ret. cbn.
      destruct (Z.eqb_spec result 0); [contradiction|]. reflexivity. }
    split; [intros H; contradiction|intros _; split; reflexivity].
Qed.
Lemma sample_loader_contract : loader_contract sample_loader.
Proof.
  intros path info. unfold sample_loader.
  destruct (String.eqb path a_dat); [|destruct (String.eqb path b_dat)];
    intros H; inversion H; subst; cbn; split; try discriminate; reflexivity.
Qed.

(** Loading the same file twice. *)
Lemma init_idempotent_witness :
  init sample_loader a_dat loaded_a = Some (true, loaded_a, []).
Proof.
  apply (init_idempotent sample_loader sample_loader a_dat fresh loaded_a
           [verthash_info_init a_dat]).
  - exact sample_loader_contract.
  - vm_compute. reflexivity.
Defined.
End VerthashFacts.

(** ** The dataset manager under concurrent calls *)

Module VerthashThreadFacts.
Import Verthash VerthashSpec VerthashFacts VerthashThreads.

Section Threads.
Variable load : Loader.

Lemma exec_app l1 l2 c : exec load (l1 ++ l2) c = exec load l2 (exec load l1 c).
Proof. unfold exec. apply fold_left_app. Qed.

Lemma solo_S i n c : solo load i (S n) c = step load i (solo load i n c).
Proof.
  unfold solo. replace (S n) with (n + 1)%nat by lia.
  rewrite repeat_app, exec_app. reflexivity.
Qed.

Lemma solo_front i n c : solo load i (S n) c = solo load i n (step load i c).
Proof. reflexivity. Qed.

Lemma solo_add i n k c : solo load i (n + k) c = solo load i k (solo load i n c).
Proof. unfold solo. rewrite repeat_app, exec_app. reflexivity. Qed.

(** A step of one thread leaves the other thread where it is. *)
Lemma step_other i c : thread (other i) (step load i c) = thread (other i) c.
Proof.
  unfold step. destruct (advance _ _ _ _) as [[p sh]|]; [|reflexivity].
  destruct i; reflexivity.
Qed.

Lemma solo_other i n c : thread (other i) (solo load i n c) = thread (other i) c.
Proof.
  induction n as [|n IH]; [reflexivity|].
  rewrite solo_S, step_other. exact IH.
Qed.

Lemma step_method i j c : method (thread j (step load i c)) = method (thread j c).
Proof.
  unfold step. destruct (advance _ _ _ _) as [[p sh]|]; [|reflexivity].
  destruct i, j; reflexivity.
Qed.

(** A call that has returned moves no more. *)
Lemma step_done i c v : pc (thread i c) = Done v -> step load i c = c.
Proof.
  intros H. unfold step. rewrite H.
  destruct (method (thread i c)); reflexivity.
Qed.

Lemma solo_done i n c v : pc (thread i c) = Done v -> solo load i n c = c.
Proof.
  intros H. induction n as [|n IH]; [reflexivity|].
  rewrite solo_S, IH. apply (step_done i c v H).
Qed.

(** A call that waits for the mutex moves no more while it is held. *)
Lemma step_blocked i c :
  locks (method (thread i c)) = true -> pc (thread i c) = AtLock ->
  locked (shared c) = true -> step load i c = c.
Proof.
  intros Hm Hp Hl. unfold step. rewrite Hp.
  destruct (method (thread i c)); try discriminate; cbn; rewrite Hl; reflexivity.
Qed.

Lemma step_holds i c :
  locks (method (thread i c)) = true -> holds i c -> holds i (step load i c).
Proof.
  intros Hm [[Hin Hl]|[v [Hd Hl]]].
  - destruct c as [[s l tr] [m1 p1] [m2 p2]]. cbn in Hl. subst l.
    destruct i; cbn in Hm, Hin |- *; unfold step, holds, holds_mutex; cbn.
    + destruct m1; try discriminate; destruct p1; try discriminate; cbn;
        repeat match goal with
               | |- context [if ?b then _ else _] => destruct b; cbn
               | |- context [match fileName ?x with _ => _ end] =>
                   destruct (fileName x); cbn
               | |- context [load ?p] => destruct (load p); cbn
               end; eauto.
    + destruct m2; try discriminate; destruct p2; try discriminate; cbn;
        repeat match goal with
               | |- context [if ?b then _ else _] => destruct b; cbn
               | |- context [match fileName ?x with _ => _ end] =>
                   destruct (fileName x); cbn
               | |- context [load ?p] => destruct (load p); cbn
               end; eauto.
  - rewrite (step_done i c v Hd). right. eauto.
Qed.

(** A call that starts with the mutex free takes it. *)
Lemma first_step_holds i c :
  locks (method (thread i c)) = true -> pc (thread i c) = AtLock ->
  locked (shared c) = false ->
  holds i (step load i c) /\ object (shared (step load i c)) = object (shared c).
Proof.
  intros Hm Hp Hl. destruct c as [[s l tr] [m1 p1] [m2 p2]]. cbn in Hl. subst l.
  destruct i; cbn in Hm, Hp |- *; subst; unfold step, holds, holds_mutex; cbn.
  - destruct m1; try discriminate; cbn; auto.
  - destruct m2; try discriminate; cbn; auto.
Qed.

Lemma solo_holds i n c :
  locks (method (thread i c)) = true -> pc (thread i c) = AtLock ->
  locked (shared c) = false ->
  holds i (solo load i (S n) c).
Proof.
  intros Hm Hp Hl. induction n as [|n IH].
  - apply first_step_holds; assumption.
  - rewrite solo_S. apply step_holds; [|exact IH].
    clear IH. induction (S n) as [|k IHk]; [exact Hm|].
    rewrite solo_S, step_method. exact IHk.
Qed.

(** Run alone from its first statement, a locking call is the method of the
    sequential model: nine statements take it to its return, with the
    answer, the members and the calls of [init] and [release]. *)
Lemma solo_complete i c :
  locks (method (thread i c)) = true -> pc (thread i c) = AtLock ->
  locked (shared c) = false ->
  exists v s' t,
    call_of load (method (thread i c)) (object (shared c)) = Some (v, s', t) /\
    shared (solo load i 9 c) = mkShared s' false (calls (shared c) ++ t) /\
    thread i (solo load i 9 c) = mkThread (method (thread i c)) (Done v) /\
    thread (other i) (solo load i 9 c) = thread (other i) c.
Proof.
  intros Hm Hp Hl.
  destruct c as [[[[fn d sz bm] ini] l tr] [m1 p1] [m2 p2]]. cbn in Hl. subst l.
  assert (Hcases : exists path, (m1 = Init path \/ m1 = Release \/ i = T2) /\
                                (m2 = Init path \/ m2 = Release \/ i = T1)).
  { destruct i; cbn in Hm.
    - destruct m1 as [path| |]; try discriminate; [exists path|exists EmptyString]; auto.
    - destruct m2 as [path| |]; try discriminate; [exists path|exists EmptyString]; auto. }
  destruct Hcases as (path & H1 & H2).
  destruct (load path) as [r loaded] eqn:Hload.
  destruct i; cbn in Hp; subst;
    [destruct H1 as [->|[->|H1]]; try discriminate H1
    |destruct H2 as [->|[->|H2]]; try discriminate H2].
  all: destruct ini; destruct d as [region|];
    (destruct fn as [name|]; [destruct (String.eqb name path) eqn:Hname|]);
    destruct (Z.eqb r 0) eqn:Hr.
  all: unfold call_of, init, release, strcmp_eq, bind, gets, modify, call, ret.
  all: repeat (rewrite solo_front;
               cbv - [app String.eqb Z.eqb solo];
               repeat match goal with
                      | H : load _ = _ |- _ => rewrite H
                      | H : String.eqb _ _ = _ |- _ => rewrite H
                      | H : Z.eqb _ _ = _ |- _ => rewrite H
                      end;
               cbv - [app String.eqb Z.eqb solo]).
  all: unfold solo; cbv - [app String.eqb Z.eqb].
  all: do 3 eexists; (split; [reflexivity|]).
  all: rewrite <- ?app_assoc; cbn [app]; rewrite ?app_nil_r.
  all: repeat split; reflexivity.
Qed.

(** Once a call run alone has returned, it has run the whole method. *)
Lemma solo_returned i n c v :
  locks (method (thread i c)) = true -> pc (thread i c) = AtLock ->
  locked (shared c) = false ->
  pc (thread i (solo load i n c)) = Done v ->
  solo load i n c = solo load i 9 c.
Proof.
  intros Hm Hp Hl Hd.
  destruct (Nat.le_gt_cases n 9) as [Hle|Hgt].
  - replace 9%nat with (n + (9 - n))%nat by lia.
    rewrite solo_add. symmetry. apply (solo_done i _ _ v Hd).
  - destruct (solo_complete i c Hm Hp Hl) as (v' & s' & t & _ & _ & Ht & _).
    replace n with (9 + (n - 9))%nat by lia.
    rewrite solo_add. apply (solo_done i _ _ v').
    rewrite Ht. reflexivity.
Qed.

(** The holder of the mutex, run alone, returns within nine statements and
    gives the mutex back. *)
Lemma solo_finishes i c :
  locks (method (thread i c)) = true ->
  holds_mutex i c = true -> locked (shared c) = true ->
  exists v, pc (thread i (solo load i 9 c)) = Done v /\
            locked (shared (solo load i 9 c)) = false /\
            thread (other i) (solo load i 9 c) = thread (other i) c.
Proof.
  intros Hm Hin Hl.
  destruct c as [[[[fn d sz bm] ini] l tr] [m1 p1] [m2 p2]]. cbn in Hl. subst l.
  assert (Hcases : exists path, (m1 = Init path \/ m1 = Release \/ i = T2) /\
                                (m2 = Init path \/ m2 = Release \/ i = T1)).
  { destruct i; cbn in Hm.
    - destruct m1 as [path| |]; try discriminate; [exists path|exists EmptyString]; auto.
    - destruct m2 as [path| |]; try discriminate; [exists path|exists EmptyString]; auto. }
  destruct Hcases as (path & H1 & H2).
  destruct (load path) as [r loaded] eqn:Hload.
  destruct i; unfold holds_mutex in Hin; cbn in Hin;
    [destruct H1 as [->|[->|H1]]; try discriminate H1; destruct p1; try discriminate Hin
    |destruct H2 as [->|[->|H2]]; try discriminate H2; destruct p2; try discriminate Hin].
  all: destruct ini; destruct d as [region|];
    (destruct fn as [name|]; [destruct (String.eqb name path) eqn:Hname|]);
    destruct (Z.eqb r 0) eqn:Hr.
  all: unfold strcmp_eq.
  all: repeat (rewrite solo_front;
               cbv - [app String.eqb Z.eqb solo];
               repeat match goal with
                      | H : load _ = _ |- _ => rewrite H
                      | H : String.eqb _ _ = _ |- _ => rewrite H
                      | H : Z.eqb _ _ = _ |- _ => rewrite H
                      end;
               cbv - [app String.eqb Z.eqb solo]).
  all: unfold solo; cbv - [app String.eqb Z.eqb].
  all: eexists; repeat split; reflexivity.
Qed.

Section Pair.
Variable s : Verthash.
Variables m1 m2 : Method.
Hypothesis locks1 : locks m1 = true.
Hypothesis locks2 : locks m2 = true.

Lemma start_locks i : locks (method (thread i (start s m1 m2))) = true.
Proof. destruct i; assumption. Qed.

Lemma start_pc i : pc (thread i (start s m1 m2)) = AtLock.
Proof. destruct i; cbn; [destruct m1|destruct m2]; (reflexivity || discriminate). Qed.

Lemma exec_locks sched i :
  locks (method (thread i (exec load sched (start s m1 m2)))) = true.
Proof.
  induction sched as [|j r IH] using rev_ind; [apply start_locks|].
  rewrite exec_app. cbn [exec fold_left]. rewrite step_method. exact IH.
Qed.

Lemma other_other i : other (other i) = i.
Proof. destruct i; reflexivity. Qed.

Lemma quiet_step j c :
  locks (method (thread j c)) = true ->
  quiet (pc (thread j c)) -> locked (shared c) = true -> step load j c = c.
Proof.
  intros Hm [Hp|[v Hp]] Hl.
  - apply step_blocked; assumption.
  - apply (step_done j c v Hp).
Qed.

Lemma lock_step i c :
  locks (method (thread i c)) = true -> pc (thread i c) = AtLock ->
  locked (shared c) = false ->
  holds_mutex i (step load i c) = true /\ locked (shared (step load i c)) = true.
Proof.
  intros Hm Hp Hl. destruct c as [[z l tr] [n1 p1] [n2 p2]]. cbn in Hl. subst l.
  destruct i; cbn in Hm, Hp |- *; subst; unfold step, holds_mutex; cbn.
  - destruct n1; try discriminate; cbn; auto.
  - destruct n2; try discriminate; cbn; auto.
Qed.

Lemma settled_step j c :
  (forall i, locks (method (thread i c)) = true) ->
  settled c -> settled (step load j c).
Proof.
  intros Hm [(Hl & Q1 & Q2)|(i & Hin & Hl & Hq)].
  - assert (Qj : quiet (pc (thread j c))) by (destruct j; assumption).
    assert (Qo : quiet (pc (thread (other j) c))) by (destruct j; assumption).
    destruct Qj as [Hp|[v Hp]].
    + destruct (lock_step j c (Hm j) Hp Hl) as [Ht Hk].
      right. exists j. rewrite Ht, Hk, step_other. auto.
    + rewrite (step_done j c v Hp). left. auto.
  - destruct j, i.
    + destruct (step_holds T1 c (Hm T1)) as [[Hin' Hl']|(v & Hd & Hl')];
        [left; auto| |].
      * right. exists T1. rewrite (step_other T1). auto.
      * left. split; [exact Hl'|]. split; [right; eauto|].
        change (thread T2 (step load T1 c)) with (thread (other T1) (step load T1 c)).
        rewrite step_other. exact Hq.
    + rewrite (quiet_step T1 c (Hm T1) Hq Hl). right. exists T2. auto.
    + rewrite (quiet_step T2 c (Hm T2) Hq Hl). right. exists T1. auto.
    + destruct (step_holds T2 c (Hm T2)) as [[Hin' Hl']|(v & Hd & Hl')];
        [left; auto| |].
      * right. exists T2. rewrite (step_other T2). auto.
      * left. split; [exact Hl'|]. split; [|right; eauto].
        change (thread T1 (step load T2 c)) with (thread (other T2) (step load T2 c)).
        rewrite step_other. exact Hq.
Qed.

Lemma exec_settled sched : settled (exec load sched (start s m1 m2)).
Proof.
  induction sched as [|j r IH] using rev_ind.
  - left. split; [reflexivity|]. split; left; apply start_pc.
  - rewrite exec_app. cbn [exec fold_left]. apply settled_step; [|exact IH].
    intros i. apply exec_locks.
Qed.

Lemma quiet_not_inside m p : quiet p -> inside m p = false.
Proof. intros [->|[v ->]]; destruct m; reflexivity. Qed.

(** The two calls are never both between their lock and their unlock. *)
Lemma mutual_exclusion sched :
  holds_mutex T1 (exec load sched (start s m1 m2))
  && holds_mutex T2 (exec load sched (start s m1 m2)) = false.
Proof.
  unfold holds_mutex.
  destruct (exec_settled sched) as [(_ & Q1 & Q2)|(i & _ & _ & Hq)].
  - rewrite (quiet_not_inside _ _ Q1). reflexivity.
  - destruct i; cbn [other] in Hq; rewrite (quiet_not_inside _ _ Hq);
      [apply andb_false_r|reflexivity].
Qed.

(** A quiet call run alone returns, if the mutex is free. *)
Lemma solo_quiet i c :
  locks (method (thread i c)) = true ->
  quiet (pc (thread i c)) -> locked (shared c) = false ->
  (exists v, pc (thread i (solo load i 9 c)) = Done v) /\
  locked (shared (solo load i 9 c)) = false /\
  thread (other i) (solo load i 9 c) = thread (other i) c.
Proof.
  intros Hm [Hp|[v Hp]] Hl.
  - destruct (solo_complete i c Hm Hp Hl) as (v & s' & t & _ & Hs & Ht & Ho).
    rewrite Hs, Ht. split; [eexists; reflexivity|]. split; [reflexivity|exact Ho].
  - rewrite (solo_done i 9 c v Hp). split; [eauto|]. split; [exact Hl|reflexivity].
Qed.

Lemma solo_quiet_blocked i c :
  locks (method (thread i c)) = true ->
  quiet (pc (thread i c)) -> locked (shared c) = true -> solo load i 9 c = c.
Proof.
  intros Hm Hq Hl. unfold solo. cbn [repeat exec fold_left].
  rewrite !(quiet_step i c Hm Hq Hl). reflexivity.
Qed.

Lemma exec_end c :
  exec load to_the_end c = solo load T1 9 (solo load T2 9 (solo load T1 9 c)).
Proof. unfold to_the_end, solo. rewrite !exec_app. reflexivity. Qed.

(** Every schedule can be brought to an end: no call waits for ever. *)
Lemma exec_to_the_end sched :
  let c := exec load (sched ++ to_the_end) (start s m1 m2) in
  result T1 c <> None /\ result T2 c <> None.
Proof.
  cbv zeta. rewrite exec_app, exec_end.
  set (c := exec load sched (start s m1 m2)).
  assert (Hm : forall i, locks (method (thread i c)) = true)
    by (intros i; apply exec_locks).
  assert (Hfinal : forall c3 v1 v2,
             pc (thread T1 c3) = Done v1 -> pc (thread T2 c3) = Done v2 ->
             result T1 c3 <> None /\ result T2 c3 <> None).
  { intros c3 v1 v2 E1 E2. unfold result. rewrite E1, E2. split; discriminate. }
  assert (Hmethod : forall i j n c', locks (method (thread i c')) = true ->
             locks (method (thread i (solo load j n c'))) = true).
  { intros i j n c' H. induction n as [|n IH]; [exact H|].
    rewrite solo_S, step_method. exact IH. }
  pose proof (exec_settled sched) as Hs. fold c in Hs.
  destruct Hs as [(Hl & Q1 & Q2)|(i & Hin & Hl & Hq)].
  - (* nobody holds the mutex *)
    destruct (solo_quiet T1 c (Hm T1) Q1 Hl) as ((v1 & Hd1) & Hl1 & Ho1).
    cbn [other] in Ho1.
    destruct (solo_quiet T2 (solo load T1 9 c)) as ((v2 & Hd2) & Hl2 & Ho2).
    { apply Hmethod, Hm. } { rewrite Ho1. exact Q2. } { exact Hl1. }
    cbn [other] in Ho2.
    assert (Hd1' : pc (thread T1 (solo load T2 9 (solo load T1 9 c))) = Done v1)
      by (rewrite Ho2; exact Hd1).
    rewrite (solo_done T1 9 _ v1 Hd1').
    apply (Hfinal _ v1 v2); assumption.
  - destruct i; cbn [other] in Hq.
    + (* the first call holds the mutex *)
      destruct (solo_finishes T1 c (Hm T1) Hin Hl) as (v1 & Hd1 & Hl1 & Ho1).
      cbn [other] in Ho1.
      destruct (solo_quiet T2 (solo load T1 9 c)) as ((v2 & Hd2) & Hl2 & Ho2).
      { apply Hmethod, Hm. } { rewrite Ho1. exact Hq. } { exact Hl1. }
      cbn [other] in Ho2.
      assert (Hd1' : pc (thread T1 (solo load T2 9 (solo load T1 9 c))) = Done v1)
        by (rewrite Ho2; exact Hd1).
      rewrite (solo_done T1 9 _ v1 Hd1').
      apply (Hfinal _ v1 v2); assumption.
    + (* the second call holds the mutex *)
      rewrite (solo_quiet_blocked T1 c (Hm T1) Hq Hl).
      destruct (solo_finishes T2 c (Hm T2) Hin Hl) as (v2 & Hd2 & Hl2 & Ho2).
      cbn [other] in Ho2.
      destruct (solo_quiet T1 (solo load T2 9 c)) as ((v1 & Hd1) & Hl1 & Ho1).
      { apply Hmethod, Hm. } { rewrite Ho2. exact Hq. } { exact Hl2. }
      cbn [other] in Ho1.
      apply (Hfinal _ v1 v2); [exact Hd1|rewrite Ho1; exact Hd2].
Qed.

Lemma solo_thread i k c : thread i (solo load (other i) k c) = thread i c.
Proof.
  pose proof (solo_other (other i) k c) as H. rewrite other_other in H. exact H.
Qed.

Lemma serial_step j c : serial_prefix load s m1 m2 c -> serial_prefix load s m1 m2 (step load j c).
Proof.
  intros (i & n & k & -> & Hk).
  assert (Hj : j = i \/ j = other i) by (destruct j, i; auto).
  destruct Hj as [->| ->].
  - destruct Hk as [->|[v Hd]].
    + exists i, (S n), 0%nat. split; [|left; reflexivity].
      change (step load i (solo load i n (start s m1 m2)) = solo load i (S n) (start s m1 m2)).
      rewrite solo_S. reflexivity.
    + exists i, n, k. split; [|right; eauto].
      apply (step_done i _ v). rewrite solo_thread. exact Hd.
  - destruct Hk as [->|[v Hd]].
    + change (solo load (other i) 0 (solo load i n (start s m1 m2)))
        with (solo load i n (start s m1 m2)).
      destruct n as [|n].
      * exists (other i), 1%nat, 0%nat. split; [reflexivity|left; reflexivity].
      * destruct (solo_holds i n (start s m1 m2) (start_locks i) (start_pc i) eq_refl)
          as [[Hin Hl]|(v & Hd & Hl)].
        -- exists i, (S n), 0%nat. split; [|left; reflexivity].
           change (step load (other i) (solo load i (S n) (start s m1 m2))
                   = solo load i (S n) (start s m1 m2)).
           apply step_blocked; [| |exact Hl].
           ++ rewrite solo_other. apply start_locks.
           ++ rewrite solo_other. apply start_pc.
        -- exists i, (S n), 1%nat. split; [reflexivity|right; eauto].
    + exists i, n, (S k). split; [rewrite solo_S; reflexivity|right; eauto].
Qed.

Lemma exec_serial sched : serial_prefix load s m1 m2 (exec load sched (start s m1 m2)).
Proof.
  induction sched as [|j r IH] using rev_ind.
  - exists T1, 0%nat, 0%nat. split; [reflexivity|left; reflexivity].
  - rewrite exec_app. cbn [exec fold_left]. apply serial_step. exact IH.
Qed.

Lemma result_done i c v : result i c = Some v -> pc (thread i c) = Done v.
Proof. unfold result. destruct (pc (thread i c)); congruence. Qed.

(** Two locking calls that have both returned have run one after the
    other. *)
Lemma returned_in_order c vi vj i n k :
  c = solo load (other i) k (solo load i n (start s m1 m2)) ->
  pc (thread i c) = Done vi -> pc (thread (other i) c) = Done vj ->
  in_order load s (method (thread i (start s m1 m2)))
           (method (thread (other i) (start s m1 m2))) vi vj (shared c).
Proof.
  intros -> Hi Hj.
  rewrite solo_thread in Hi.
  pose proof (solo_returned i n _ vi (start_locks i) (start_pc i) eq_refl Hi) as En.
  rewrite En in Hi, Hj |- *. clear En.
  destruct (solo_complete i (start s m1 m2) (start_locks i) (start_pc i) eq_refl)
    as (v & s' & t & Hcall & Hs & Ht & Ho).
  set (c1 := solo load i 9 (start s m1 m2)) in *.
  assert (Hv : v = vi) by (rewrite Ht in Hi; cbn in Hi; congruence).
  subst v.
  assert (Hm1 : locks (method (thread (other i) c1)) = true)
    by (rewrite Ho; apply start_locks).
  assert (Hp1 : pc (thread (other i) c1) = AtLock)
    by (rewrite Ho; apply start_pc).
  assert (Hl1 : locked (shared c1) = false) by (rewrite Hs; reflexivity).
  pose proof (solo_returned (other i) k c1 vj Hm1 Hp1 Hl1 Hj) as Ek.
  rewrite Ek in Hj |- *. clear Ek.
  destruct (solo_complete (other i) c1 Hm1 Hp1 Hl1)
    as (v' & s'' & t' & Hcall' & Hs' & Ht' & _).
  assert (Hv' : v' = vj) by (rewrite Ht' in Hj; cbn in Hj; congruence).
  subst v'.
  exists s', t, s'', t'. rewrite Hs'. cbn [object calls].
  rewrite Hs in Hcall' |- *. cbn [object calls] in Hcall' |- *.
  rewrite Ho in Hcall'. auto.
Qed.

Lemma exec_in_order sched v1 v2 :
  result T1 (exec load sched (start s m1 m2)) = Some v1 ->
  result T2 (exec load sched (start s m1 m2)) = Some v2 ->
  in_order load s m1 m2 v1 v2 (shared (exec load sched (start s m1 m2))) \/
  in_order load s m2 m1 v2 v1 (shared (exec load sched (start s m1 m2))).
Proof.
  intros R1 R2. apply result_done in R1. apply result_done in R2.
  destruct (exec_serial sched) as (i & n & k & E & _).
  destruct i.
  - left. apply (returned_in_order _ v1 v2 T1 n k E R1 R2).
  - right. apply (returned_in_order _ v2 v1 T2 n k E R2 R1).
Qed.
End Pair.
End Threads.

(** A locking call is atomic for [init]. *)
Lemma locking_calls_atomic load s path m :
  locks m = true -> atomic_for load s path m.
Proof.
  intros Hm sched v1 v2. apply exec_in_order; [reflexivity|exact Hm].
Qed.

(** C6: after a successful [init(p1)], [init(p2)] with another path frees
    the region held for [p1] and loads [p2]; it returns true with the new
    info and the initialized flag set when the load succeeds, and false with
    the manager zeroed and not initialized when it fails.  The swap is
    atomic for the calls that take the mutex: however [init(p2)] and a
    concurrent [init] or [release] are scheduled, the two never hold the
    mutex together, every schedule can be run to the end of both, and once
    both have returned they have answered, left the members and called the
    C API as if one had run after the other. *)
Theorem init_other_path_swaps_under_lock load load' p1 p2 s s1 t1 :
  loader_contract load ->
  init load p1 s = Some (true, s1, t1) ->
  p2 <> p1 ->
  (exists ok s2,
      init load' p2 s1
      = Some (ok, s2, [verthash_info_free (m_info s1); verthash_info_init p2]) /\
      (fst (load' p2) = 0 ->
       ok = true /\ s2 = mkVerthash (snd (load' p2)) true) /\
      (fst (load' p2) <> 0 ->
       ok = false /\ s2 = mkVerthash zeroed false)) /\
  (forall m, locks m = true ->
     atomic_for load' s1 p2 m /\
     forall sched,
       holds_mutex T1 (exec load' sched (start s1 (Init p2) m))
       && holds_mutex T2 (exec load' sched (start s1 (Init p2) m)) = false /\
       result T1 (exec load' (sched ++ to_the_end) (start s1 (Init p2) m)) <> None /\
       result T2 (exec load' (sched ++ to_the_end) (start s1 (Init p2) m)) <> None).
Proof.
  intros Hc Hrun Hne. split.
  - exact (init_other_path_sequence load load' p1 p2 s s1 t1 Hc Hrun Hne).
  - intros m Hm. split; [apply locking_calls_atomic; exact Hm|].
    intros sched. split.
    + apply mutual_exclusion; [reflexivity|exact Hm].
    + apply (exec_to_the_end load' s1 (Init p2) m eq_refl Hm sched).
Qed.

(** Loading one file, then the other, with a concurrent [release]. *)
Lemma init_other_path_swaps_under_lock_witness :
  (exists ok s2,
      init sample_loader b_dat loaded_a
      = Some (ok, s2, [verthash_info_free (m_info loaded_a); verthash_info_init b_dat]) /\
      (fst (sample_loader b_dat) = 0 ->
       ok = true /\ s2 = mkVerthash (snd (sample_loader b_dat)) true) /\
      (fst (sample_loader b_dat) <> 0 ->
       ok = false /\ s2 = mkVerthash zeroed false)) /\
  atomic_for sample_loader loaded_a b_dat Release.
Proof.
  destruct (init_other_path_swaps_under_lock sample_loader sample_loader a_dat b_dat
              fresh loaded_a [verthash_info_init a_dat]) as [H1 H2].
  - exact sample_loader_contract.
  - vm_compute. reflexivity.
  - discriminate.
  - split; [exact H1|]. apply (H2 Release eq_refl).
Defined.

(** C6 as stated fails: a.dat is loaded and [init] of b.dat succeeds, so the
    manager is valid before the call and valid after it; yet an [isValid] of
    another thread that runs between the [memset] of line 52 and the load of
    line 55 answers false.  The reader has seen neither region, and the two
    calls have not run one after the other. *)
Lemma unlocked_reader_sees_no_region :
  isValid loaded_a = true /\
  result T1 (exec sample_loader reader_in_between (start loaded_a (Init b_dat) IsValid))
  = Some (VBool true) /\
  isValid (object (shared (exec sample_loader reader_in_between
                                (start loaded_a (Init b_dat) IsValid)))) = true /\
  result T2 (exec sample_loader reader_in_between (start loaded_a (Init b_dat) IsValid))
  = Some (VBool false) /\
  ~ atomic_for sample_loader loaded_a b_dat IsValid.
Proof.
  split; [reflexivity|]. split; [reflexivity|]. split; [reflexivity|].
  split; [reflexivity|].
  intros H.
  destruct (H reader_in_between (VBool true) (VBool false) eq_refl eq_refl)
    as [(z1 & u1 & z2 & u2 & H1 & H2 & _)|(z1 & u1 & z2 & u2 & H1 & _)].
  - vm_compute in H1. injection H1 as <- <-. vm_compute in H2. discriminate H2.
  - vm_compute in H1. discriminate H1.
Qed.
End VerthashThreadFacts.

(** ** FailoverStrategy: the remaining entry points *)

Module FailoverMore.
Import Failover FailoverSpec FailoverFacts FailoverOps.

Lemma stop_run s :
  stop s = Some (tt, set_active (-1) (set_index 0 s),
                 map ClientDisconnect (m_pools s) ++ [ListenerOnPause]).
Proof.
  unfold stop. rewrite bind_gets.
  eapply bind_run.
  - rewrite <- flat_map_singleton. apply for_each_frame. reflexivity.
  - reflexivity.
Qed.

Lemma broadcast_run s (f : IClient -> Call) :
  for_each (m_pools s) (fun client => call (f client)) s
  = Some (tt, s, map f (m_pools s)).
Proof. rewrite <- flat_map_singleton. apply for_each_frame. reflexivity. Qed.

(** The shape of the state an event leaves behind. *)
Lemma handle_shape s e :
  wf s -> own_event s e ->
  exists s' t, handle e s = Some (tt, s', t) /\
    wf s' /\ m_pools s' = m_pools s /\
    (m_index s' = m_index s \/
     (m_index s' = m_pendingIndex s /\ m_pendingIndex s < pools_size s) \/
     (m_index s' = m_index s + 1 /\ m_index s + 1 < pools_size s) \/
     (exists c, In c (m_pools s) /\ m_index s' = id c)) /\
    (m_active s' = m_active s \/ m_active s' = -1 \/
     (exists c, In c (m_pools s) /\ m_active s' = id c)).
Proof.
  intros Hwf Hown. destruct e as [c f|c|now]; cbn [handle own_event] in *.
  - destruct (clear_fields s c) as (E1 & E2 & E3 & E4 & E5 & E6 & E7).
    assert (W1 := wf_clear s c Hwf).
    pose proof (client_range s c Hwf Hown) as Hc.
    pose proof (pools_size_range s Hwf) as Hn.
    assert (Ha : m_active (clear_if_active s c) = m_active s \/
                 m_active (clear_if_active s c) = -1).
    { unfold clear_if_active. destruct (_ =? _); auto. }
    destruct (Z.eq_dec f (-1)) as [->|Hf].
    { exists s, []. repeat split; try apply Hwf; auto. }
    destruct (Z.eq_dec (m_retries s) 0) as [Hr|Hr].
    + destruct (Z.lt_ge_cases (id c) (m_minAcceptableIndex s)) as [Hlt|Hge];
        [|destruct (Z.eq_dec (id c) (m_index s)) as [Heq|Hne]].
      * do 2 eexists. split; [apply onClose_zero_suppressed; assumption|].
        split; [exact W1|]. split; [assumption|]. split; [left; exact E2|tauto].
      * do 2 eexists. split; [apply onClose_zero_current; assumption|].
        split; [apply wf_schedule_next; [exact W1|rewrite E2, E7; lia]|].
        split; [exact E6|]. split; [left; exact E2|]. cbn. tauto.
      * do 2 eexists. split; [apply onClose_zero_other; assumption|].
        split; [exact W1|]. split; [assumption|]. split; [left; exact E2|tauto].
    + destruct (Z.eq_dec (m_index s) 0) as [Hi|Hi];
        [destruct (Z.lt_ge_cases f (m_retries s)) as [Hlt|Hge]|].
      * do 2 eexists. split; [apply onClose_retry_in_place; assumption|].
        split; [exact W1|]. split; [assumption|]. split; [left; exact E2|tauto].
      * destruct (Z.eq_dec (id c) (m_index s)) as [Heq|Hne];
          [destruct (Z.lt_ge_cases (m_index s + 1) (pools_size s)) as [Hn1|Hn1]|].
        -- do 2 eexists. split; [apply onClose_retry_advance; try assumption; lia|].
           split; [apply wf_set_index; [exact W1|lia]|]. split; [assumption|].
           split; [right; right; left; cbn; lia|cbn; tauto].
        -- do 2 eexists. split; [apply onClose_retry_stay; try assumption; lia|].
           split; [exact W1|]. split; [assumption|]. split; [left; exact E2|tauto].
        -- do 2 eexists. split; [apply onClose_retry_stay; try assumption; lia|].
           split; [exact W1|]. split; [assumption|]. split; [left; exact E2|tauto].
      * destruct (Z.eq_dec (id c) (m_index s)) as [Heq|Hne];
          [destruct (Z.lt_ge_cases (m_index s + 1) (pools_size s)) as [Hn1|Hn1]|].
        -- do 2 eexists. split; [apply onClose_retry_advance; try assumption; lia|].
           split; [apply wf_set_index; [exact W1|lia]|]. split; [assumption|].
           split; [right; right; left; cbn; lia|cbn; tauto].
        -- do 2 eexists. split; [apply onClose_retry_stay; try assumption; lia|].
           split; [exact W1|]. split; [assumption|]. split; [left; exact E2|tauto].
        -- do 2 eexists. split; [apply onClose_retry_stay; try assumption; lia|].
           split; [exact W1|]. split; [assumption|]. split; [left; exact E2|tauto].
  - assert (Hacc : ~ (m_retries s = 0 /\ id c < m_minAcceptableIndex s) ->
             exists s' t, onLoginSuccess c s = Some (tt, s', t) /\
               wf s' /\ m_pools s' = m_pools s /\
               (m_index s' = m_index s \/ (exists c0, In c0 (m_pools s) /\ m_index s' = id c0)) /\
               (m_active s' = m_active s \/ (exists c0, In c0 (m_pools s) /\ m_active s' = id c0))).
    { intros Hno. do 2 eexists. split; [apply onLoginSuccess_accepted; assumption|].
      split; [apply wf_accept_login; assumption|].
      unfold accept_login.
      destruct (login_active s c =? m_active s) eqn:E.
      - repeat split; auto.
      - assert (login_active s c = id c).
        { unfold login_active in *. destruct (_ || _); [reflexivity|].
          rewrite Z.eqb_refl in E. discriminate. }
        cbn. split; [reflexivity|]. split; right; exists c; split; auto. }
    destruct (Z.eq_dec (m_retries s) 0) as [Hr|Hr];
      [destruct (Z.lt_ge_cases (id c) (m_minAcceptableIndex s)) as [Hlt|Hge]|].
    + exists s, [ClientDisconnect c].
      split; [apply onLoginSuccess_suppressed; assumption|]. repeat split; try apply Hwf; auto.
    + destruct Hacc as (s' & t & H1 & H2 & H3 & H4 & H5); [lia|].
      exists s', t. repeat split; try assumption; try apply H2; tauto.
    + destruct Hacc as (s' & t & H1 & H2 & H3 & H4 & H5); [tauto|].
      exists s', t. repeat split; try assumption; try apply H2; tauto.
  - destruct (m_pendingConnect s) eqn:Hp;
      [destruct (Z.lt_ge_cases (m_pendingIndex s) (pools_size s)) as [Hlt|Hge]|].
    + do 2 eexists. split; [apply tick_pending; assumption|].
      split; [revert Hwf; unfold wf, pools_size; cbn; intuition lia|].
      split; [reflexivity|]. split; [right; left; cbn; auto|left; reflexivity].
    + do 2 eexists. split; [apply tick_idle; right; lia|]. repeat split; try apply Hwf; auto.
    + do 2 eexists. split; [apply tick_idle; left; exact Hp|]. repeat split; try apply Hwf; auto.
Qed.

(** The three ways a close other than an explicit disconnect ends. *)
Lemma onClose_cases s c f :
  wf s -> In c (m_pools s) -> f <> -1 ->
  exists s' t, onClose c f s = Some (tt, s', t) /\
    ((s' = clear_if_active s c /\
      (t = pause_if_active s c \/
       t = pause_if_active s c ++ [ClientDisconnect c])) \/
     (s' = schedule_next (clear_if_active s c) /\
      t = pause_if_active s c ++ disconnect_upto (m_index s) /\
      m_retries s = 0 /\ id c = m_index s) \/
     (s' = set_index (m_index s + 1) (clear_if_active s c) /\
      t = pause_if_active s c ++ [ClientConnect {| id := m_index s + 1 |}] /\
      m_retries s <> 0 /\ m_index s + 1 < pools_size s)).
Proof.
  intros Hwf Hown Hf.
  destruct (Z.eq_dec (m_retries s) 0) as [Hr|Hr].
  - destruct (Z.lt_ge_cases (id c) (m_minAcceptableIndex s)) as [Hlt|Hge];
      [|destruct (Z.eq_dec (id c) (m_index s)) as [Heq|Hne]].
    + do 2 eexists. split; [apply onClose_zero_suppressed; assumption|]. auto.
    + do 2 eexists. split; [apply onClose_zero_current; assumption|]. right. left. auto.
    + do 2 eexists. split; [apply onClose_zero_other; assumption|]. auto.
  - destruct (Z.eq_dec (m_index s) 0) as [Hi|Hi];
      [destruct (Z.lt_ge_cases f (m_retries s)) as [Hlt|Hge]|].
    + do 2 eexists. split; [apply onClose_retry_in_place; assumption|]. auto.
    + destruct (Z.eq_dec (id c) (m_index s)) as [Heq|Hne];
        [destruct (Z.lt_ge_cases (m_index s + 1) (pools_size s)) as [Hn1|Hn1]|].
      * do 2 eexists. split; [apply onClose_retry_advance; try assumption; lia|].
        right. right. auto.
      * do 2 eexists. split; [apply onClose_retry_stay; try assumption; lia|]. auto.
      * do 2 eexists. split; [apply onClose_retry_stay; try assumption; lia|]. auto.
    + destruct (Z.eq_dec (id c) (m_index s)) as [Heq|Hne];
        [destruct (Z.lt_ge_cases (m_index s + 1) (pools_size s)) as [Hn1|Hn1]|].
      * do 2 eexists. split; [apply onClose_retry_advance; try assumption; lia|].
        right. right. auto.
      * do 2 eexists. split; [apply onClose_retry_stay; try assumption; lia|]. auto.
      * do 2 eexists. split; [apply onClose_retry_stay; try assumption; lia|]. auto.
Qed.

Lemma no_connect_in_pause s c k : ~ In (ClientConnect k) (pause_if_active s c).
Proof. unfold pause_if_active. destruct (_ =? _); cbn; intuition discriminate. Qed.

(** X1. In zero-retry mode [onClose] never connects a client itself and never
    moves [m_index]: for every well-formed strategy and every client of its
    pool list, whatever the failure count, the call returns, its trace holds
    no [connect] on any client, and [m_index] is what it was.  The connection
    to the next pool is left to [tick]. *)
Theorem onClose_zero_retry_never_connects s client failures :
  wf s -> In client (m_pools s) -> m_retries s = 0 ->
  exists s' t,
    onClose client failures s = Some (tt, s', t) /\
    (forall c, ~ In (ClientConnect c) t) /\
    m_index s' = m_index s.
Proof.
  intros Hwf Hin Hr.
  destruct (Z.eq_dec failures (-1)) as [->|Hf].
  { exists s, []. repeat split. intros c []. }
  destruct (clear_fields s client) as (E1 & E2 & _).
  destruct (onClose_cases s client failures Hwf Hin Hf)
    as (s' & t & Hrun & [[-> [->| ->]] | [(-> & -> & _) | (_ & _ & Hne & _)]]);
    try contradiction.
  - exists (clear_if_active s client), (pause_if_active s client).
    split; [exact Hrun|]. split; [|exact E2].
    intros k. apply no_connect_in_pause.
  - do 2 eexists. split; [exact Hrun|]. split; [|exact E2].
    intros k Hk. apply in_app_or in Hk. destruct Hk as [Hk|[Hk|[]]];
      [revert Hk; apply no_connect_in_pause|discriminate].
  - do 2 eexists. split; [exact Hrun|]. split; [|exact E2].
    intros k. apply no_connect_in_close_trace.
Qed.

Lemma add_keeps_cursor pool s s' t :
  add pool s = Some (tt, s', t) ->
  m_index s' = m_index s /\ m_active s' = m_active s.
Proof.
  unfold add, bind, gets, call, modify, undefined.
  destruct (in_int _); intros H; inversion H. split; reflexivity.
Qed.

Lemma construct_keeps_cursor pools s s' t :
  for_each pools add s = Some (tt, s', t) ->
  m_index s' = m_index s /\ m_active s' = m_active s.
Proof.
  revert s t. induction pools as [|p r IH]; intros s t H; cbn [for_each] in H.
  - inversion H. split; reflexivity.
  - apply bind_inv in H. destruct H as ([] & s1 & t1 & t2 & Ha & Hr & _).
    apply add_keeps_cursor in Ha. apply IH in Hr. intuition congruence.
Qed.

Lemma in_bounds_active_client s :
  in_bounds s -> 0 <= m_active s ->
  pool_at (to_size_t (m_active s)) s = Some ({| id := m_active s |}, s, []).
Proof.
  intros (Hwf & _ & Ha) H0. pose proof (pools_size_range s Hwf).
  rewrite to_size_t_small by lia. apply pool_at_wf; [exact Hwf|lia].
Qed.

Lemma perform_in_bounds s op :
  in_bounds s -> own_op s op ->
  exists s' t, perform op s = Some (tt, s', t) /\
    in_bounds s' /\ m_pools s' = m_pools s.
Proof.
  intros Hb Hown. pose proof Hb as (Hwf & Hi & Ha).
  pose proof (pools_size_range s Hwf) as Hn.
  assert (Hi0 : 0 <= m_index s) by (destruct Hwf as (_ & _ & W & _); lia).
  destruct op; cbn [perform own_op] in *.
  - destruct (handle_shape s e Hwf Hown) as (s' & t & Hrun & Hwf' & Hp & Hix & Hac).
    exists s', t. split; [exact Hrun|]. split; [|exact Hp].
    assert (Hsz : pools_size s' = pools_size s) by (unfold pools_size; rewrite Hp; reflexivity).
    split; [exact Hwf'|]. rewrite Hsz. split.
    + destruct Hix as [E|[[E H]|[[E H]|[c [Hc E]]]]]; try lia.
      pose proof (client_range s c Hwf Hc). lia.
    + destruct Hac as [E|[E|[c [Hc E]]]]; try lia.
      pose proof (client_range s c Hwf Hc). lia.
  - exists s, [ClientConnect {| id := m_index s |}]. split; [|auto].
    unfold connect. rewrite bind_gets. unfold bind.
    rewrite pool_at_wf by (auto; lia). reflexivity.
  - do 2 eexists. split; [apply stop_run|]. split; [|reflexivity].
    revert Hwf. unfold in_bounds, wf, pools_size in *. cbn. intuition lia.
  - unfold submit. rewrite bind_assoc, bind_gets. unfold isActive.
    destruct (Z.leb_spec 0 (m_active s)); cbn [negb].
    + exists s, [ClientSubmit {| id := m_active s |} result]. split; [|auto].
      unfold active. rewrite !bind_assoc, bind_gets.
      unfold bind. rewrite in_bounds_active_client by assumption. reflexivity.
    + exists s, []. split; [reflexivity|auto].
  - unfold resume. rewrite bind_gets. unfold isActive.
    destruct (Z.leb_spec 0 (m_active s)); cbn [negb].
    + exists s, [ListenerOnJob {| id := m_active s |} job]. split; [|auto].
      unfold active. rewrite !bind_assoc, bind_gets.
      unfold bind. rewrite in_bounds_active_client by assumption. reflexivity.
    + exists s, []. split; [reflexivity|auto].
  - exists s, (map (fun c => ClientSetAlgo c algo) (m_pools s)). split; [|auto].
    unfold setAlgo. rewrite bind_gets.
    apply (broadcast_run s (fun c => ClientSetAlgo c algo)).
  - exists s, (map (fun c => ClientSetProxy c proxy) (m_pools s)). split; [|auto].
    unfold setProxy. rewrite bind_gets.
    apply (broadcast_run s (fun c => ClientSetProxy c proxy)).
  - do 2 eexists. split; [reflexivity|auto].
  - unfold onJobReceived. rewrite bind_gets.
    destruct (_ =? _); do 2 eexists; (split; [reflexivity|auto]).
  - do 2 eexists. split; [reflexivity|auto].
  - do 2 eexists. split; [reflexivity|auto].
Qed.

Lemma own_op_pools s s' op : m_pools s' = m_pools s -> own_op s op -> own_op s' op.
Proof.
  intros E. destruct op as [[| |]| | | | | | | | | |]; cbn; rewrite ?E; auto.
Qed.

(** X2. A strategy built by the constructor from a non-empty pool list, with
    a retry pause whose product [m_retryPause * 1000] fits an [int], keeps
    its indices inside the pool list whatever is called on it: the
    constructor returns, and after any sequence of entry points (the
    [IStrategy] methods and the callbacks of its own clients) every call has
    returned, [0 <= m_index < m_pools.size()],
    [-1 <= m_active < m_pools.size()], and the pool list is unchanged.  So no
    entry point indexes [m_pools] out of range. *)
Theorem constructed_strategy_stays_in_bounds pools retryPause retries quiet ops :
  pools <> [] -> Z.of_nat (length pools) < 2 ^ 31 ->
  - 2 ^ 31 <= retryPause * 1000 < 2 ^ 31 ->
  exists s0 t0,
    construct pools retryPause retries quiet = Some (tt, s0, t0) /\
    (Forall (own_op s0) ops ->
     exists s t, for_each ops perform s0 = Some (tt, s, t) /\
                 0 <= m_index s < pools_size s /\
                 -1 <= m_active s < pools_size s /\
                 m_pools s = m_pools s0).
Proof.
  intros Hne Hlen Hpause.
  destruct (construct_wf pools retryPause retries quiet Hlen Hpause)
    as (s0 & t0 & Hc & Hwf & Hsz & _).
  exists s0, t0. split; [exact Hc|]. intros Hops.
  assert (Hb : in_bounds s0).
  { apply construct_keeps_cursor in Hc. cbn in Hc. destruct Hc as [Hi Ha].
    split; [exact Hwf|]. rewrite Hi, Ha, Hsz.
    destruct pools; [contradiction|]. cbn [length]. lia. }
  clear Hc Hsz Hwf.
  assert (G : forall s, in_bounds s -> Forall (own_op s) ops ->
            exists s' t, for_each ops perform s = Some (tt, s', t) /\
              in_bounds s' /\ m_pools s' = m_pools s).
  { clear. induction ops as [|op r IH]; intros s Hb Hall.
    - exists s, []. auto.
    - inversion Hall as [|? ? Hop Hrest]; subst.
      destruct (perform_in_bounds s op Hb Hop) as (s1 & t1 & H1 & Hb1 & Hp1).
      destruct (IH s1 Hb1) as (s2 & t2 & H2 & Hb2 & Hp2).
      { eapply Forall_impl; [|exact Hrest]. intros a. apply own_op_pools. exact Hp1. }
      exists s2, (t1 ++ t2). split; [cbn [for_each]; eapply bind_run; eassumption|].
      split; [exact Hb2|congruence]. }
  destruct (G s0 Hb Hops) as (s & t & Hrun & (Hwf & Hi & Ha) & Hp).
  exists s, t. split; [exact Hrun|].
  destruct Hwf as (_ & _ & W & _). repeat split; try lia. exact Hp.
Qed.

(** X3. [submit] hands the result to the active client and to no other: with no
    active pool it returns -1 and calls nothing; otherwise the only call is
    [submit] on the client at [m_active], which is a client of the pool
    list. *)
Theorem submit_goes_to_active_client s result seq :
  wf s -> -1 <= m_active s < pools_size s ->
  (m_active s = -1 -> submit result seq s = Some (-1, s, [])) /\
  (0 <= m_active s ->
   submit result seq s
   = Some (seq, s, [ClientSubmit {| id := m_active s |} result]) /\
   In {| id := m_active s |} (m_pools s)).
Proof.
  intros Hwf Ha. pose proof (pools_size_range s Hwf) as Hn.
  unfold submit. rewrite bind_gets. unfold isActive. split; intros H.
  - rewrite H. reflexivity.
  - destruct (Z.leb_spec 0 (m_active s)); [|lia]. cbn [negb]. split.
    + unfold active. rewrite !bind_assoc, bind_gets.
      rewrite to_size_t_small by lia.
      unfold bind. rewrite pool_at_wf by (auto; lia). reflexivity.
    + destruct Hwf as (_ & Hp & _). rewrite Hp. apply in_clients. cbn. lia.
Qed.

(** X4. [stop] does not cancel a connection that [onClose] has scheduled: it
    resets [m_index] to 0 and [m_active] to -1 but leaves the pending flag,
    the pending index and [m_minAcceptableIndex] alone, so the next [tick]
    after the stop still connects the pending pool and moves [m_index]
    there. *)
Theorem stop_keeps_pending_connect s now :
  wf s -> m_pendingConnect s = true -> m_pendingIndex s < pools_size s ->
  exists s1 t1 s2 t2,
    stop s = Some (tt, s1, t1) /\
    m_index s1 = 0 /\ m_active s1 = -1 /\
    m_minAcceptableIndex s1 = m_minAcceptableIndex s /\
    tick now s1 = Some (tt, s2, t2) /\
    m_index s2 = m_pendingIndex s /\
    t2 = ticks s now ++ [ClientConnect {| id := m_pendingIndex s |}].
Proof.
  intros Hwf Hp Hlt.
  do 4 eexists. split; [apply stop_run|]. split; [reflexivity|].
  split; [reflexivity|]. split; [reflexivity|].
  split; [apply tick_pending; [|exact Hp|exact Hlt]|split; reflexivity].
  revert Hwf. unfold wf, pools_size. cbn. intuition lia.
Qed.

(** Entry points other than the client events leave every member alone,
    but for [stop], which resets the cursor. *)
Lemma perform_members s op s' t :
  (forall e, op <> OpEvent e) ->
  perform op s = Some (tt, s', t) ->
  s' = s \/ s' = set_active (-1) (set_index 0 s).
Proof.
  intros Hne Hrun. destruct op; cbn [perform] in Hrun.
  - exfalso. apply (Hne e). reflexivity.
  - left. unfold connect, bind, gets, pool_at, call in Hrun.
    destruct (nth_error _ _); inversion Hrun. reflexivity.
  - right. rewrite stop_run in Hrun. inversion Hrun. reflexivity.
  - left. unfold submit, active, bind, gets, pool_at, call, ret in Hrun.
    destruct (negb _); [inversion Hrun; reflexivity|].
    destruct (nth_error _ _); inversion Hrun. reflexivity.
  - left. unfold resume, active, bind, gets, pool_at, call, ret in Hrun.
    destruct (negb _); [inversion Hrun; reflexivity|].
    destruct (nth_error _ _); inversion Hrun. reflexivity.
  - left. unfold setAlgo in Hrun. rewrite bind_gets in Hrun.
    rewrite (broadcast_run s (fun c => ClientSetAlgo c algo)) in Hrun.
    inversion Hrun. reflexivity.
  - left. unfold setProxy in Hrun. rewrite bind_gets in Hrun.
    rewrite (broadcast_run s (fun c => ClientSetProxy c proxy)) in Hrun.
    inversion Hrun. reflexivity.
  - left. inversion Hrun. reflexivity.
  - left. unfold onJobReceived, bind, gets, call, ret in Hrun.
    destruct (_ =? _); inversion Hrun; reflexivity.
  - left. inversion Hrun. reflexivity.
  - left. inversion Hrun. reflexivity.
Qed.

(** Only a scheduling close raises the pending flag. *)
Lemma handle_quiet s e s' t :
  wf s -> own_event s e -> ~ schedules s (OpEvent e) -> nothing_pending s ->
  handle e s = Some (tt, s', t) ->
  m_retries s' = m_retries s /\ nothing_pending s'.
Proof.
  intros Hwf Hown Hq Hidle Hrun.
  destruct e as [c f|c|now]; cbn [handle own_event schedules] in *.
  - destruct (Z.eq_dec f (-1)) as [->|Hf].
    { inversion Hrun; subst. auto. }
    assert (Hr : m_retries s <> 0) by tauto.
    destruct (clear_fields s c) as (E1 & E2 & E3 & E4 & E5 & E6 & E7).
    destruct (onClose_cases s c f Hwf Hown Hf)
      as (s1 & t1 & Hrun1 & [[-> _]|[(_ & _ & H0 & _)|(-> & _)]]);
      try contradiction; rewrite Hrun1 in Hrun; inversion Hrun; subst.
    + split; [exact E1|]. unfold nothing_pending. rewrite E5, E4, E7. exact Hidle.
    + split; [exact E1|]. unfold nothing_pending, pools_size. cbn.
      fold (pools_size (clear_if_active s c)). rewrite E5, E4, E7. exact Hidle.
  - destruct (Z.eq_dec (m_retries s) 0) as [Hr|Hr];
      [destruct (Z.lt_ge_cases (id c) (m_minAcceptableIndex s)) as [Hlt|Hge]|].
    + rewrite onLoginSuccess_suppressed in Hrun by assumption.
      inversion Hrun; subst. auto.
    + rewrite onLoginSuccess_accepted in Hrun by (auto; lia).
      inversion Hrun; subst. unfold accept_login, nothing_pending.
      destruct (_ =? _); cbn; auto.
    + rewrite onLoginSuccess_accepted in Hrun by (auto; tauto).
      inversion Hrun; subst. unfold accept_login, nothing_pending.
      destruct (_ =? _); cbn; auto.
  - rewrite tick_idle in Hrun by exact Hidle. inversion Hrun; subst. auto.
Qed.

Lemma perform_quiet s op :
  in_bounds s -> own_op s op -> ~ schedules s op -> nothing_pending s ->
  exists s' t, perform op s = Some (tt, s', t) /\
    in_bounds s' /\ m_pools s' = m_pools s /\
    m_retries s' = m_retries s /\ nothing_pending s'.
Proof.
  intros Hb Hown Hq Hidle.
  destruct (perform_in_bounds s op Hb Hown) as (s' & t & Hrun & Hb' & Hp).
  exists s', t. split; [exact Hrun|]. split; [exact Hb'|]. split; [exact Hp|].
  destruct op as [e| | | | | | | | | |].
  { cbn [perform own_op] in *. destruct Hb as (Hwf & _).
    eapply handle_quiet; eassumption. }
  all: match type of Hrun with
       | perform ?o ?z = Some (_, ?z', ?u) =>
           destruct (perform_members z o z' u) as [E|E];
             [intros e; discriminate|exact Hrun|rewrite E|rewrite E]
       end.
  all: split; (reflexivity || exact Hidle).
Qed.

Lemma schedules_retries s s' op :
  m_retries s' = m_retries s -> schedules s' op -> schedules s op.
Proof.
  intros E. destruct op as [[c f|c|now]| | | | | | | | | |]; cbn; try tauto.
  rewrite E. tauto.
Qed.

Lemma run_quiet ops : forall s,
  in_bounds s -> Forall (own_op s) ops ->
  Forall (fun op => ~ schedules s op) ops -> nothing_pending s ->
  exists s' t, for_each ops perform s = Some (tt, s', t) /\ nothing_pending s'.
Proof.
  induction ops as [|op r IH]; intros s Hb Hown Hq Hidle.
  - exists s, []. split; [reflexivity|exact Hidle].
  - inversion Hown as [|? ? Hop Hrest]; subst.
    inversion Hq as [|? ? Hqop Hqrest]; subst.
    destruct (perform_quiet s op Hb Hop Hqop Hidle)
      as (s1 & t1 & H1 & Hb1 & Hp1 & Hr1 & Hi1).
    destruct (IH s1 Hb1) as (s2 & t2 & H2 & Hi2).
    + eapply Forall_impl; [|exact Hrest]. intros a. apply own_op_pools. exact Hp1.
    + eapply Forall_impl; [|exact Hqrest]. intros a Ha Hs. apply Ha.
      eapply schedules_retries; [exact Hr1|exact Hs].
    + exact Hi1.
    + exists s2, (t1 ++ t2). split; [|exact Hi2].
      cbn [for_each]. eapply bind_run; eassumption.
Qed.

(** A tick leaves nothing pending. *)
Lemma tick_clears_pending s now :
  in_bounds s ->
  exists s1 t1, tick now s = Some (tt, s1, t1) /\
    in_bounds s1 /\ m_pools s1 = m_pools s /\ m_retries s1 = m_retries s /\
    nothing_pending s1.
Proof.
  intros Hb.
  destruct (perform_in_bounds s (OpEvent (EvTick now)) Hb I)
    as (s1 & t1 & Hrun & Hb1 & Hp1).
  cbn [perform handle] in Hrun.
  exists s1, t1. split; [exact Hrun|]. split; [exact Hb1|]. split; [exact Hp1|].
  destruct Hb as (Hwf & _).
  destruct (m_pendingConnect s) eqn:Hp;
    [destruct (Z.lt_ge_cases (m_pendingIndex s) (pools_size s)) as [Hlt|Hge]|].
  - rewrite tick_pending in Hrun by assumption. inversion Hrun; subst.
    split; [reflexivity|left; reflexivity].
  - rewrite tick_idle in Hrun by (right; lia). inversion Hrun; subst.
    split; [reflexivity|right; lia].
  - rewrite tick_idle in Hrun by (left; exact Hp). inversion Hrun; subst.
    split; [reflexivity|left; exact Hp].
Qed.

(** X5. [tick] connects a pool only when a close has scheduled it since the
    previous tick.  Callbacks of the clients are entry points of their own
    here, also when a client makes one before the call on it returns (a
    [connect()] that fails at once delivers its [onClose] at the end of the
    tick, [connect()] being the last statement of [connectNext]).  After a
    tick, any sequence of entry points and callbacks of the strategy's own
    clients that holds no scheduling close (an [onClose] with a failure
    count other than -1 in zero-retry mode) runs to its end and leaves
    nothing pending: the next tick only forwards the tick to every client
    and leaves the strategy as it is. *)
Theorem tick_connects_only_after_close s now ops now' :
  in_bounds s ->
  Forall (own_op s) ops -> Forall (fun op => ~ schedules s op) ops ->
  exists s1 t1 s2 t2,
    tick now s = Some (tt, s1, t1) /\
    for_each ops perform s1 = Some (tt, s2, t2) /\
    tick now' s2 = Some (tt, s2, ticks s2 now').
Proof.
  intros Hb Hown Hq.
  destruct (tick_clears_pending s now Hb) as (s1 & t1 & H1 & Hb1 & Hp1 & Hr1 & Hi1).
  destruct (run_quiet ops s1 Hb1) as (s2 & t2 & H2 & Hi2).
  - eapply Forall_impl; [|exact Hown]. intros a. apply own_op_pools. exact Hp1.
  - eapply Forall_impl; [|exact Hq]. intros a Ha Hs. apply Ha.
    eapply schedules_retries; [exact Hr1|exact Hs].
  - exact Hi1.
  - exists s1, t1, s2, t2. split; [exact H1|]. split; [exact H2|].
    apply tick_idle. exact Hi2.
Qed.

(** X6. [onJobReceived] forwards a job to the listener exactly when it comes
    from the active client, and once a client has closed (with a failure
    count other than -1) a job of that client is dropped: no call at all is
    made and the state is unchanged. *)
Theorem jobs_of_closed_client_dropped s client failures job :
  wf s -> In client (m_pools s) -> failures <> -1 ->
  (exists t, onJobReceived client job s = Some (tt, s, t) /\
             (In (ListenerOnJob client job) t <-> m_active s = id client)) /\
  exists s1 t1,
    onClose client failures s = Some (tt, s1, t1) /\
    onJobReceived client job s1 = Some (tt, s1, []).
Proof.
  intros Hwf Hin Hf. pose proof (client_range s client Hwf Hin) as Hc. split.
  - unfold onJobReceived. rewrite bind_gets.
    destruct (Z.eqb_spec (m_active s) (id client)); eexists; (split; [reflexivity|]).
    + split; [auto|left; reflexivity].
    + split; [intros []|contradiction].
  - assert (Hcl : m_active (clear_if_active s client) <> id client).
    { unfold clear_if_active.
      destruct (Z.eqb_spec (m_active s) (id client)); cbn; [lia|assumption]. }
    destruct (onClose_cases s client failures Hwf Hin Hf)
      as (s1 & t1 & Hrun & Hshape).
    exists s1, t1. split; [exact Hrun|].
    assert (Hs1 : m_active s1 <> id client).
    { destruct Hshape as [[-> _]|[(-> & _)|(-> & _)]]; exact Hcl. }
    unfold onJobReceived. rewrite bind_gets.
    destruct (Z.eqb_spec (m_active s1) (id client)); [contradiction|reflexivity].
Qed.

(** X7. A login that is not suppressed cancels the scheduled connection: after
    [onLoginSuccess] of a client that passes the zero-retry guard, the next
    [tick] connects nothing, it only forwards the tick to the clients. *)
Theorem accepted_login_cancels_pending_connect s client now :
  wf s -> In client (m_pools s) ->
  ~ (m_retries s = 0 /\ id client < m_minAcceptableIndex s) ->
  exists s1 t1,
    onLoginSuccess client s = Some (tt, s1, t1) /\
    tick now s1 = Some (tt, s1, ticks s1 now).
Proof.
  intros Hwf Hin Hno.
  do 2 eexists. split; [apply onLoginSuccess_accepted; assumption|].
  apply tick_idle. left. unfold accept_login. destruct (_ =? _); reflexivity.
Qed.

(** X8. [stop] always returns; it disconnects every client in pool order,
    sets [m_index] to 0 and [m_active] to -1, changes no other member, and
    then emits [onPause].  It is idempotent on the members but not on its
    calls: a second call leaves the state as it is and makes the same calls
    again, including a second [onPause]. *)
Theorem stop_twice s :
  exists s1 t1,
    stop s = Some (tt, s1, t1) /\
    m_index s1 = 0 /\ m_active s1 = -1 /\
    s1 = set_active (-1) (set_index 0 s) /\
    t1 = map ClientDisconnect (m_pools s) ++ [ListenerOnPause] /\
    stop s1 = Some (tt, s1, t1).
Proof.
  exists (set_active (-1) (set_index 0 s)),
         (map ClientDisconnect (m_pools s) ++ [ListenerOnPause]).
  split; [apply stop_run|]. repeat split.
  rewrite stop_run. reflexivity.
Qed.

Lemma cascade_round s failures now :
  wf s -> m_retries s = 0 -> failures <> -1 ->
  m_index s < pools_size s -> m_minAcceptableIndex s <= m_index s ->
  exists s' t,
    (onClose {| id := m_index s |} failures ;; tick now) s = Some (tt, s', t) /\
    wf s' /\ m_retries s' = 0 /\ pools_size s' = pools_size s /\
    m_index s' = (m_index s + 1) mod pools_size s /\
    m_minAcceptableIndex s' = m_index s'.
Proof.
  intros Hwf Hr Hf Hi Hmin.
  pose proof (pools_size_range s Hwf) as Hn.
  assert (Hi0 : 0 <= m_index s) by (destruct Hwf as (_ & _ & W & _); lia).
  set (c := {| id := m_index s |}).
  assert (Hin : In c (m_pools s)).
  { destruct Hwf as (_ & Hp & _). rewrite Hp. apply in_clients. cbn. lia. }
  destruct (clear_fields s c) as (E1 & E2 & E3 & E4 & E5 & E6 & E7).
  assert (W1 := wf_clear s c Hwf).
  assert (W2 : wf (schedule_next (clear_if_active s c))).
  { apply wf_schedule_next; [exact W1|]. rewrite E2, E7. exact Hi. }
  assert (Hp : m_pendingIndex (schedule_next (clear_if_active s c))
               = (m_index s + 1) mod pools_size s).
  { unfold schedule_next. cbn. rewrite E2, E7.
    destruct (Z.ltb_spec (m_index s + 1) (pools_size s)).
    - rewrite Z.mod_small; lia.
    - replace (m_index s + 1) with (pools_size s) by lia.
      rewrite Z.mod_same; lia. }
  assert (Hlt : 0 <= (m_index s + 1) mod pools_size s < pools_size s)
    by (apply Z.mod_pos_bound; lia).
  do 2 eexists. split.
  { eapply bind_run.
    - apply onClose_zero_current; try assumption; reflexivity.
    - apply tick_pending; [exact W2|reflexivity|].
      rewrite Hp. change (pools_size (schedule_next (clear_if_active s c)))
        with (pools_size (clear_if_active s c)). rewrite E7. lia. }
  split.
  { assert (Hp' := Hp). revert W2 Hp' Hlt Hn. unfold wf, pools_size. cbn.
    intros W2 ->. intuition lia. }
  split; [cbn; congruence|]. split; [exact E7|].
  split; [cbn; exact Hp|]. reflexivity.
Qed.

(** X9. The zero-retry cascade visits the pools in order and wraps around: when
    the current pool closes and the host loop ticks, [n] times over, every
    call returns and [m_index] ends at [(m_index + n) mod m_pools.size()]. *)
Theorem cascade_cycles_through_pools n s failures now :
  wf s -> m_retries s = 0 -> failures <> -1 ->
  m_index s < pools_size s -> m_minAcceptableIndex s <= m_index s ->
  exists s' t,
    cascade_rounds n failures now s = Some (tt, s', t) /\
    m_index s' = (m_index s + Z.of_nat n) mod pools_size s.
Proof.
  intros Hwf Hr Hf Hi Hmin.
  assert (Hi0 : 0 <= m_index s) by (destruct Hwf as (_ & _ & W & _); lia).
  revert s Hwf Hr Hi Hmin Hi0. induction n as [|n IH]; intros s Hwf Hr Hi Hmin Hi0.
  - exists s, []. split; [reflexivity|]. rewrite Z.add_0_r, Z.mod_small; lia.
  - destruct (cascade_round s failures now Hwf Hr Hf Hi Hmin)
      as (s1 & t1 & Hrun & Hwf1 & Hr1 & Hsz & Hix & Hm).
    assert (Hb : 0 <= m_index s1 < pools_size s).
    { rewrite Hix. apply Z.mod_pos_bound. lia. }
    destruct (IH s1 Hwf1 Hr1) as (s2 & t2 & Hrest & Hfin); try lia.
    exists s2, (t1 ++ t2). split.
    + cbn [cascade_rounds]. rewrite bind_gets.
      apply bind_inv in Hrun. destruct Hrun as ([] & sa & ta & tb & Ha & Hb' & ->).
      eapply bind_run_as; [exact Ha| |symmetry; apply app_assoc].
      eapply bind_run; eassumption.
    + rewrite Hfin, Hsz, Hix. rewrite Zplus_mod_idemp_l. f_equal. lia.
Qed.

Lemma onClose_zero_retry_never_connects_witness :
  exists s' t,
    onClose pool1 3 (state_after [EvClose pool0 0] (built three_pools 0))
    = Some (tt, s', t) /\ m_index s' = 0.
Proof.
  destruct (onClose_zero_retry_never_connects
              (state_after [EvClose pool0 0] (built three_pools 0)) pool1 3)
    as (s' & t & H1 & _ & H3); [concrete|concrete|concrete|].
  exists s', t. split; [exact H1|exact H3].
Defined.

Lemma constructed_strategy_stays_in_bounds_witness :
  exists s0 t0,
    construct three_pools 1 0 true = Some (tt, s0, t0) /\
    (Forall (own_op s0) sample_ops ->
     exists s t, for_each sample_ops perform s0 = Some (tt, s, t) /\
                 0 <= m_index s < pools_size s /\
                 -1 <= m_active s < pools_size s /\
                 m_pools s = m_pools s0).
Proof.
  apply constructed_strategy_stays_in_bounds; [discriminate|concrete|concrete].
Defined.

Lemma submit_goes_to_active_client_witness :
  submit "share" 7 (state_after [EvLoginSuccess pool1] (built three_pools 0))
  = Some (7, state_after [EvLoginSuccess pool1] (built three_pools 0),
          [ClientSubmit pool1 "share"]).
Proof.
  destruct (submit_goes_to_active_client
              (state_after [EvLoginSuccess pool1] (built three_pools 0)) "share" 7)
    as [_ H]; [concrete|concrete|].
  apply H. concrete.
Defined.

Lemma stop_keeps_pending_connect_witness :
  exists s1 t1 s2 t2,
    stop (state_after [EvClose pool0 0] (built three_pools 0)) = Some (tt, s1, t1) /\
    tick 5 s1 = Some (tt, s2, t2) /\ m_index s2 = 1 /\
    In (ClientConnect pool1) t2.
Proof.
  destruct (stop_keeps_pending_connect
              (state_after [EvClose pool0 0] (built three_pools 0)) 5)
    as (s1 & t1 & s2 & t2 & H1 & _ & _ & _ & H2 & H3 & H4);
    [concrete|concrete|concrete|].
  exists s1, t1, s2, t2. split; [exact H1|]. split; [exact H2|].
  split; [exact H3|]. rewrite H4. apply in_or_app. right. left. reflexivity.
Defined.

Lemma tick_connects_only_after_close_witness :
  exists s1 t1 s2 t2,
    tick 5 (state_after [EvClose pool0 0] (built three_pools 0)) = Some (tt, s1, t1) /\
    for_each quiet_ops perform s1 = Some (tt, s2, t2) /\
    tick 6 s2 = Some (tt, s2, ticks s2 6).
Proof.
  apply tick_connects_only_after_close.
  - concrete.
  - repeat apply Forall_cons; try apply Forall_nil; concrete.
  - repeat apply Forall_cons; try apply Forall_nil; concrete.
Defined.

Lemma jobs_of_closed_client_dropped_witness :
  exists s1 t1,
    onClose pool1 1 (state_after [EvLoginSuccess pool1] (built three_pools 0))
    = Some (tt, s1, t1) /\
    onJobReceived pool1 {| algorithm := "rx/0"; diff := 1; height := 2; seed := "" |} s1
    = Some (tt, s1, []).
Proof.
  apply (jobs_of_closed_client_dropped
           (state_after [EvLoginSuccess pool1] (built three_pools 0)) pool1 1);
    concrete.
Defined.

Lemma accepted_login_cancels_pending_connect_witness :
  exists s1 t1,
    onLoginSuccess pool1 (state_after [EvClose pool0 0] (built three_pools 0))
    = Some (tt, s1, t1) /\
    tick 9 s1 = Some (tt, s1, ticks s1 9).
Proof.
  apply accepted_login_cancels_pending_connect; [concrete|concrete|].
  intros [_ H]. revert H. concrete.
Defined.

Lemma cascade_cycles_through_pools_witness :
  exists s' t,
    cascade_rounds 4 0 5 (built three_pools 0) = Some (tt, s', t) /\
    m_index s' = (m_index (built three_pools 0) + Z.of_nat 4)
                 mod pools_size (built three_pools 0).
Proof.
  apply cascade_cycles_through_pools; concrete.
Defined.
End FailoverMore.

(** ** DonateStrategy: the state machine and the login parameters *)

Module DonateMore.
Import Donate DonateSpec DonateFacts DonateOps.

Lemma connect_state controller s s' t :
  connect controller s = Some (tt, s', t) -> m_state s' = m_state s.
Proof.
  unfold connect, createProxy. intros H. run_inv; reflexivity.
Qed.

Lemma setState_state ndebug controller st s s' t :
  setState ndebug controller st s = Some (tt, s', t) -> m_state s' = st.
Proof.
  unfold setState, assert, idle. intros H.
  run_inv; try reflexivity.
  all: try (match goal with
            | H : connect _ _ = Some _ |- _ => apply connect_state in H; exact H
            end).
  all: match goal with
       | H : State_eqb ?a ?b = true |- _ =>
           destruct (State_eqb_spec a b); [assumption|discriminate]
       end.
Qed.

(** X10. The state machine of [DonateStrategy]: an entry point that returns
    either leaves [m_state] alone, or it is [onActive] or [onLoginSuccess]
    moving a state other than ACTIVE to ACTIVE, or [onTimer] moving ACTIVE
    to WAIT, or [onTimer] moving any other state to CONNECT, or a [tick]
    after the timestamp moving WAIT to IDLE.  No other transition exists,
    with [assert] compiled in or out. *)
Theorem state_transitions ndebug tls controller op s s' t :
  perform ndebug tls controller op s = Some (tt, s', t) ->
  m_state s' = m_state s \/
  ((exists c, op = OpOnActive c \/ op = OpOnLoginSuccess c) /\
   m_state s <> STATE_ACTIVE /\ m_state s' = STATE_ACTIVE) \/
  (op = OpOnTimer /\ m_state s = STATE_ACTIVE /\ m_state s' = STATE_WAIT) \/
  (op = OpOnTimer /\ m_state s <> STATE_ACTIVE /\ m_state s' = STATE_CONNECT) \/
  (exists now, op = OpTick now /\ m_state s = STATE_WAIT /\
               m_timestamp s < now /\ m_state s' = STATE_IDLE).
Proof.
  intros Hrun.
  destruct op; cbn [perform] in Hrun;
    unfold stop, tick, update, submit, setAlgo, setProxy, onActive, onPause,
           onClose, onLogin_client, onLogin_strategy, setParams, onLoginSuccess,
           onVerifyAlgorithm, onTimer, onJob, onJobReceived, setJob,
           onResultAccepted, setResult in Hrun.
  all: try (apply connect_state in Hrun; left; exact Hrun).
  all: run_inv.
  all: try (left; reflexivity).
  all: repeat match goal with x : unit |- _ => destruct x end.
  all: match goal with
       | H : setState _ _ _ _ = Some _ |- _ => apply setState_state in H
       end.
  all: unfold isActive, state in *; cbn in *.
  all: try match goal with
       | Hb : State_eqb (m_state ?z) STATE_WAIT && (_ <? ?n) = true |- _ =>
           right; right; right; right; exists n;
           apply andb_prop in Hb; destruct Hb as [Hw Ht];
           destruct (State_eqb_spec (m_state z) STATE_WAIT); [|discriminate];
           apply Z.ltb_lt in Ht; auto
       end.
  all: try match goal with
       | Hb : State_eqb (m_state ?z) STATE_ACTIVE = false, c : IClient |- _ =>
           right; left; split; [exists c; auto|]; split; [|assumption];
           intros E; rewrite E in Hb; discriminate
       end.
  match goal with
  | H : context [State_eqb (m_state ?z) STATE_ACTIVE] |- _ =>
      destruct (State_eqb_spec (m_state z) STATE_ACTIVE);
      [right; right; left; auto|right; right; right; left; auto]
  end.
Qed.

Lemma tick_wait_stays ndebug controller s now :
  m_state s = STATE_WAIT -> now <= m_timestamp s ->
  tick ndebug controller now s
  = Some (tt, set_now now s, StrategyTick now :: proxy_ticks s now).
Proof.
  intros Hw Hn. unfold tick, proxy_ticks. rewrite bind_modify.
  destruct (m_proxy s) eqn:Hp; unfold bind, call, gets, ret, state; cbn;
    rewrite Hp; cbn; rewrite Hw; cbn;
    destruct (Z.ltb_spec (m_timestamp s) now); try lia; reflexivity.
Qed.

Lemma tick_wait_leaves ndebug controller s now :
  m_state s = STATE_WAIT -> m_timestamp s < now ->
  tick ndebug controller now s
  = Some (tt, set_proxy None (set_state STATE_IDLE (set_now now s)),
          StrategyTick now :: proxy_ticks s now
          ++ StrategyStop :: proxy_deletes s
          ++ [TimerStartRandom (m_idleTime s) Jitter_08_12]).
Proof.
  intros Hw Hn. unfold tick, proxy_ticks, proxy_deletes. rewrite bind_modify.
  destruct (m_proxy s) eqn:Hp; unfold bind, call, gets, ret, state; cbn;
    rewrite Hp; cbn; rewrite Hw; cbn;
    (destruct (Z.ltb_spec (m_timestamp s) now); [|lia]);
    unfold setState, assert, idle, bind, call, gets, modify, ret; cbn;
    rewrite Hw; cbn; rewrite orb_true_r; cbn; rewrite ?Hp; cbn;
    unfold set_proxy, set_state, set_now; cbn; rewrite ?Hp; reflexivity.
Qed.

(** X11. The [tick] that ends the WAIT state tears the donation down: it ticks
    the nested strategy and the proxy, stops the nested strategy, deletes
    the proxy if there is one, restarts the idle timer with the 0.8 to 1.2
    jitter, and leaves the strategy in IDLE with no proxy; a [submit]
    afterwards goes to the nested strategy. *)
Theorem leaving_wait_tears_down ndebug controller s now :
  m_state s = STATE_WAIT -> m_timestamp s < now ->
  exists s' t,
    tick ndebug controller now s = Some (tt, s', t) /\
    m_state s' = STATE_IDLE /\ m_proxy s' = None /\ m_now s' = now /\
    t = StrategyTick now :: proxy_ticks s now
        ++ StrategyStop :: proxy_deletes s
        ++ [TimerStartRandom (m_idleTime s) Jitter_08_12] /\
    forall result seq,
      submit result seq s' = Some (seq, s', [StrategySubmit result]).
Proof.
  intros Hw Hn. do 2 eexists.
  split; [apply tick_wait_leaves; assumption|].
  split; [reflexivity|]. split; [reflexivity|]. split; [reflexivity|].
  split; [reflexivity|]. intros result seq. reflexivity.
Qed.

(** X12. The WAIT state lasts [waitTime = 3000] milliseconds of tick time:
    [onTimer] in ACTIVE emits [onPause] only and sets the timestamp to
    [m_now + 3000]; a later [tick(now)] stays in WAIT while
    [now <= m_now + 3000] and moves to IDLE as soon as [now] is greater. *)
Theorem wait_grace_is_three_seconds ndebug controller s :
  m_state s = STATE_ACTIVE -> 0 <= m_now s -> m_now s + 3000 < 2 ^ 64 ->
  exists s1,
    onTimer ndebug controller s = Some (tt, s1, [ListenerOnPause]) /\
    m_state s1 = STATE_WAIT /\ m_timestamp s1 = m_now s + 3000 /\
    forall now, exists s2 t2,
      tick ndebug controller now s1 = Some (tt, s2, t2) /\
      m_state s2 = if now <=? m_now s + 3000 then STATE_WAIT else STATE_IDLE.
Proof.
  intros Ha H0 Hlt.
  assert (Hne : m_state s <> STATE_WAIT) by (rewrite Ha; discriminate).
  eexists. split.
  { unfold onTimer. rewrite bind_gets. unfold isActive, state. rewrite Ha.
    cbn [State_eqb]. apply setState_wait. exact Hne. }
  set (s1 := set_timestamp (to_uint64 (m_now s + 3000)) (set_state STATE_WAIT s)).
  assert (Ht : m_timestamp s1 = m_now s + 3000).
  { cbn. unfold to_uint64. apply Z.mod_small. lia. }
  split; [reflexivity|]. split; [exact Ht|]. intros now.
  destruct (Z.leb_spec now (m_now s + 3000)).
  - do 2 eexists. split; [apply tick_wait_stays; [reflexivity|lia]|]. reflexivity.
  - do 2 eexists. split; [apply tick_wait_leaves; [reflexivity|lia]|]. reflexivity.
Qed.

(** X13. A donation session is announced once: in ACTIVE, [onLoginSuccess] and
    [onActive] do nothing; in any other state each of them starts the
    donation timer with [m_donateTime], emits [onActive] for the client and
    enters ACTIVE, after which a further [onLoginSuccess] does nothing. *)
Theorem login_success_once ndebug controller s client client' :
  (m_state s = STATE_ACTIVE ->
   onLoginSuccess ndebug controller client s = Some (tt, s, []) /\
   onActive ndebug controller client s = Some (tt, s, [])) /\
  (m_state s <> STATE_ACTIVE ->
   onLoginSuccess ndebug controller client s
   = Some (tt, set_state STATE_ACTIVE s,
           [TimerStart (m_donateTime s) 0; ListenerOnActive client]) /\
   onActive ndebug controller client s
   = Some (tt, set_state STATE_ACTIVE s,
           [TimerStart (m_donateTime s) 0; ListenerOnActive client]) /\
   onLoginSuccess ndebug controller client' (set_state STATE_ACTIVE s)
   = Some (tt, set_state STATE_ACTIVE s, [])).
Proof.
  unfold onLoginSuccess, onActive. rewrite !bind_gets. unfold isActive, state.
  split; intros H.
  - rewrite H. split; reflexivity.
  - destruct (State_eqb_spec (m_state s) STATE_ACTIVE) as [E|_]; [contradiction|].
    assert (Hs : setState ndebug controller STATE_ACTIVE s
                 = Some (tt, set_state STATE_ACTIVE s, [TimerStart (m_donateTime s) 0])).
    { unfold setState, assert. rewrite bind_gets.
      destruct (State_eqb_spec (m_state s) STATE_ACTIVE) as [E|_]; [contradiction|].
      cbn [negb andb State_eqb]. rewrite orb_true_r. reflexivity. }
    split; [|split].
    + eapply bind_run_as; [exact Hs|reflexivity|reflexivity].
    + eapply bind_run_as; [exact Hs|reflexivity|reflexivity].
    + reflexivity.
Qed.

(** X14. [connect] opens exactly one connection and leaves [m_state] alone: when
    [createProxy] applies (proxy donation is not NONE and the operator's
    strategy is active and its client has the connect extension) it is the
    proxy client, pointed at the operator's pool with the donation user,
    made quiet and connected, and [m_tls] takes the client's TLS extension;
    otherwise [m_proxy] is null and the nested strategy is connected. *)
Theorem connect_opens_one_connection controller s :
  exists s' t,
    connect controller s = Some (tt, s', t) /\
    m_state s' = m_state s /\
    if proxy_mode controller
    then m_proxy s' = Some {| id := -1 |} /\
         m_tls s' = op_ext_tls (network_strategy controller) /\
         t = [ProxySetPool {| id := -1 |} (proxy_pool controller s);
              ProxySetQuiet {| id := -1 |} true;
              ProxyConnect {| id := -1 |}]
    else s' = set_proxy None s /\ t = [StrategyConnect].
Proof.
  unfold connect, createProxy, proxy_mode, proxy_pool.
  destruct (ProxyDonate_eqb (proxyDonate controller) PROXY_DONATE_NONE); cbn [negb andb].
  { do 2 eexists. split; [reflexivity|]. auto. }
  destruct (op_isActive (network_strategy controller)); cbn [negb orb andb];
    [|do 2 eexists; split; [reflexivity|]; auto].
  destruct (op_ext_connect (network_strategy controller)); cbn [negb orb andb];
    [|do 2 eexists; split; [reflexivity|]; auto].
  do 2 eexists. split; [reflexivity|]. cbn. auto.
Qed.

Lemma setState_idle_from_new ndebug controller s :
  m_state s = STATE_NEW ->
  setState ndebug controller STATE_IDLE s
  = Some (tt, set_state STATE_IDLE s, [TimerStartRandom (m_idleTime s) Jitter_05_15]).
Proof.
  intros H. unfold setState, assert, idle. rewrite bind_gets, H.
  cbn [State_eqb negb andb]. rewrite orb_true_r. reflexivity.
Qed.

(** X15. The constructor (built without [DONATION_TEST_MODE]) with a donate
    level between 0 and 100 returns, splits 100 minutes into
    [m_donateTime = level] minutes and [m_idleTime = 100 - level] minutes,
    builds a [FailoverStrategy] over its own two pools (three with TLS) with
    retry pause 1 and 0 retries, starts the idle timer with the 0.5 to 1.5
    jitter and ends in IDLE with no proxy. *)
Theorem constructor_splits_hundred_minutes ndebug feature_tls controller worker :
  0 <= donateLevel controller <= 100 ->
  exists s t,
    construct ndebug feature_tls controller worker = Some (tt, s, t) /\
    t = [NewFailoverStrategy (m_pools s) 1 0 true;
         TimerStartRandom (m_idleTime s) Jitter_05_15] /\
    m_state s = STATE_IDLE /\ m_proxy s = None /\
    m_donateTime s = donateLevel controller * 60000 /\
    m_idleTime s = (100 - donateLevel controller) * 60000 /\
    m_donateTime s + m_idleTime s = 6000000 /\
    length (m_pools s) = (if feature_tls then 3 else 2)%nat.
Proof.
  intros Hl. unfold construct.
  assert (E1 : to_uint64 (donateLevel controller) = donateLevel controller).
  { unfold to_uint64. apply Z.mod_small. lia. }
  rewrite E1.
  assert (E2 : to_uint64 (donateLevel controller * 60 * 1000)
               = donateLevel controller * 60000).
  { unfold to_uint64. rewrite Z.mod_small; lia. }
  assert (E3 : to_uint64 ((100 - donateLevel controller) * 60 * 1000)
               = (100 - donateLevel controller) * 60000).
  { unfold to_uint64. rewrite Z.mod_small; lia. }
  rewrite E2, E3.
  destruct feature_tls;
    match goal with
    | |- context [1 <? ?x] => change (1 <? x) with true
    end; cbv iota;
    do 2 eexists;
    (split;
     [ eapply bind_run_as;
       [ reflexivity | apply setState_idle_from_new; reflexivity | reflexivity ]
     | cbn [m_state m_proxy m_donateTime m_idleTime m_pools set_state length app];
       repeat split; try reflexivity; lia ]).
Qed.

Lemma find_index_lt a l : In a l <-> (find_index a l < length l)%nat.
Proof.
  induction l as [|x r IH]; cbn [find_index length In].
  - split; [intros []|lia].
  - destruct (String.eqb_spec x a) as [->|Hne].
    + split; [lia|auto].
    + rewrite <- Nat.succ_lt_mono, <- IH. split; [intros [H|H]; [contradiction|exact H]|auto].
Qed.

Lemma find_index_nth a l : In a l -> nth_error l (find_index a l) = Some a.
Proof.
  induction l as [|x r IH]; cbn [find_index In]; [intros []|].
  destruct (String.eqb_spec x a) as [->|Hne]; [reflexivity|].
  intros [H|H]; [contradiction|]. cbn. apply IH. exact H.
Qed.

Lemma swap_front_spec i l x :
  (0 < i)%nat -> nth_error l i = Some x ->
  Permutation (swap_front i l) l /\ hd_error (swap_front i l) = Some x.
Proof.
  intros Hi Hn. unfold swap_front.
  destruct l as [|x0 r]; [destruct i; discriminate|]. rewrite Hn.
  split; [|reflexivity].
  destruct i as [|k]; [lia|]. cbn [nth_error] in Hn.
  replace (S k - 1)%nat with k by lia.
  rewrite <- (firstn_skipn_middle k r Hn) at 3.
  set (pre := firstn k r). set (post := skipn (S k) r).
  transitivity (x :: x0 :: pre ++ post).
  - constructor. symmetry. apply Permutation_middle.
  - transitivity (x0 :: x :: pre ++ post); [apply perm_swap|].
    constructor. apply Permutation_middle.
Qed.

Lemma advertised_perm controller s :
  Permutation (advertised controller s) (miner_algorithms controller).
Proof.
  unfold advertised.
  set (algos := miner_algorithms controller).
  set (index := find_index (m_algorithm s) algos).
  destruct (Nat.ltb_spec 0 index); destruct (Nat.ltb_spec index (length algos));
    cbn [andb]; try reflexivity.
  destruct (nth_error algos index) eqn:Hn.
  - apply (swap_front_spec index algos s0); assumption.
  - apply nth_error_None in Hn. lia.
Qed.

Lemma advertised_head controller s :
  In (m_algorithm s) (miner_algorithms controller) ->
  hd_error (advertised controller s) = Some (m_algorithm s).
Proof.
  unfold advertised.
  set (algos := miner_algorithms controller).
  set (index := find_index (m_algorithm s) algos).
  intros Hin. pose proof (find_index_nth _ _ Hin) as Hn. fold index in Hn.
  apply find_index_lt in Hin. fold index in Hin.
  destruct (Nat.ltb_spec 0 index); destruct (Nat.ltb_spec index (length algos));
    cbn [andb]; try lia.
  - apply (swap_front_spec index algos); assumption.
  - assert (index = 0%nat) as E by lia. rewrite E in Hn.
    destruct algos; [discriminate|]. exact Hn.
Qed.

Lemma setParams_run controller s :
  setParams controller s
  = Some (tt, s,
          [ParamsAddMember "algo" (VAlgorithms (advertised controller s));
           ParamsAddMember "diff" (VNumber (m_diff s));
           ParamsAddMember "height" (VNumber (m_height s))]
          ++ if (String.length (m_seed s) =? 0)%nat then []
             else [ParamsAddMember "seed_hash" (VHex (m_seed s))]).
Proof.
  unfold setParams, advertised. rewrite bind_gets. cbv zeta.
  unfold bind, call, gets, ret. cbn.
  destruct (String.length (m_seed s) =? 0)%nat; reflexivity.
Qed.

(** X16. [setParams] advertises the miner's own algorithms, each exactly once:
    the list it sends is a permutation of the miner's list; when the current
    algorithm is in the list it comes first, otherwise the list is sent
    unchanged; [diff] and [height] follow, and [seed_hash] only when the
    seed is not empty. *)
Theorem advertised_algorithms controller s :
  Permutation (advertised controller s) (miner_algorithms controller) /\
  (In (m_algorithm s) (miner_algorithms controller) ->
   hd_error (advertised controller s) = Some (m_algorithm s)) /\
  (~ In (m_algorithm s) (miner_algorithms controller) ->
   advertised controller s = miner_algorithms controller) /\
  setParams controller s
  = Some (tt, s,
          [ParamsAddMember "algo" (VAlgorithms (advertised controller s));
           ParamsAddMember "diff" (VNumber (m_diff s));
           ParamsAddMember "height" (VNumber (m_height s))]
          ++ if (String.length (m_seed s) =? 0)%nat then []
             else [ParamsAddMember "seed_hash" (VHex (m_seed s))]).
Proof.
  split; [apply advertised_perm|]. split; [apply advertised_head|].
  split; [|apply setParams_run].
  intros Hnot. unfold advertised.
  destruct (Nat.ltb_spec (find_index (m_algorithm s) (miner_algorithms controller))
              (length (miner_algorithms controller))) as [H|H].
  - apply find_index_lt in H. contradiction.
  - rewrite andb_false_r. reflexivity.
Qed.

(** X17. [update] followed by a login of the nested strategy: the algorithm and
    proxy of the job are passed to the nested strategy, and the login
    parameters carry the job's algorithm first in a permutation of the
    miner's algorithms, then the job's diff and height, and the job's seed
    when it is not empty. *)
Theorem login_after_update controller proxy job s :
  In (algorithm job) (miner_algorithms controller) ->
  exists s' names,
    (update proxy job ;; onLogin_strategy controller) s
    = Some (tt, s',
            [StrategySetAlgo (algorithm job); StrategySetProxy proxy;
             ParamsAddMember "algo" (VAlgorithms (algorithm job :: names));
             ParamsAddMember "diff" (VNumber (diff job));
             ParamsAddMember "height" (VNumber (height job))]
            ++ if (String.length (seed job) =? 0)%nat then []
               else [ParamsAddMember "seed_hash" (VHex (seed job))]) /\
    Permutation (algorithm job :: names) (miner_algorithms controller).
Proof.
  intros Hin.
  set (s1 := set_job (diff job) (height job) (seed job)
               (set_algorithm (algorithm job) s)).
  pose proof (advertised_perm controller s1) as Hperm.
  pose proof (advertised_head controller s1 Hin) as Hhd.
  pose proof (setParams_run controller s1) as Hrun.
  destruct (advertised controller s1) as [|a names] eqn:Ea; [discriminate|].
  inversion Hhd; subst a.
  exists s1, names. split; [|exact Hperm].
  eapply bind_run_as with (s1 := s1)
    (t1 := [StrategySetAlgo (algorithm job); StrategySetProxy proxy]).
  - reflexivity.
  - unfold onLogin_strategy. exact Hrun.
  - reflexivity.
Qed.

Lemma state_transitions_witness :
  exists s' t,
    perform true false auto_controller (OpTick 4000)
            (after [OpOnTimer; OpOnLoginSuccess donation_proxy; OpTick 10; OpOnTimer]
                   started)
    = Some (tt, s', t) /\ m_state s' = STATE_IDLE.
Proof.
  destruct (perform true false auto_controller (OpTick 4000)
              (after [OpOnTimer; OpOnLoginSuccess donation_proxy; OpTick 10; OpOnTimer]
                     started))
    as [[[[] s'] t]|] eqn:E; [|vm_compute in E; discriminate E].
  exists s', t. split; [reflexivity|].
  pose proof (state_transitions _ _ _ _ _ _ _ E) as H.
  vm_compute in E. injection E as <- <-.
  destruct H as [H|[(_ & _ & H)|[(H & _)|[(H & _)|(now & _ & _ & _ & H)]]]];
    try discriminate H; vm_compute in H; try discriminate H; reflexivity.
Defined.

Lemma leaving_wait_tears_down_witness :
  exists s' t,
    tick true auto_controller 4000
         (after [OpOnTimer; OpOnLoginSuccess donation_proxy; OpTick 10; OpOnTimer]
                started)
    = Some (tt, s', t) /\
    m_state s' = STATE_IDLE /\ m_proxy s' = None /\
    In (ProxyDeleteLater donation_proxy) t.
Proof.
  destruct (leaving_wait_tears_down true auto_controller
              (after [OpOnTimer; OpOnLoginSuccess donation_proxy; OpTick 10; OpOnTimer]
                     started) 4000)
    as (s' & t & H1 & H2 & H3 & _ & H5 & _); [reflexivity|reflexivity|].
  exists s', t. split; [exact H1|]. split; [exact H2|]. split; [exact H3|].
  rewrite H5. vm_compute. tauto.
Defined.

Lemma wait_grace_is_three_seconds_witness :
  exists s1,
    onTimer true auto_controller
            (after [OpOnTimer; OpOnLoginSuccess donation_proxy; OpTick 10] started)
    = Some (tt, s1, [ListenerOnPause]) /\
    m_timestamp s1 = 3010.
Proof.
  destruct (wait_grace_is_three_seconds true auto_controller
              (after [OpOnTimer; OpOnLoginSuccess donation_proxy; OpTick 10] started))
    as (s1 & H1 & _ & H3 & _); [reflexivity|discriminate|reflexivity|].
  exists s1. split; [exact H1|exact H3].
Defined.

Lemma constructor_splits_hundred_minutes_witness :
  exists s t,
    construct true false auto_controller "AbCd1234" = Some (tt, s, t) /\
    m_donateTime s = 300000 /\ m_idleTime s = 5700000.
Proof.
  destruct (constructor_splits_hundred_minutes true false auto_controller "AbCd1234")
    as (s & t & H1 & _ & _ & _ & H5 & H6 & _); [split; discriminate|].
  exists s, t. split; [exact H1|]. split; [exact H5|exact H6].
Defined.

Lemma login_after_update_witness :
  exists s' names,
    (update "" sample_job ;; onLogin_strategy auto_controller) started
    = Some (tt, s',
            [StrategySetAlgo (algorithm sample_job); StrategySetProxy "";
             ParamsAddMember "algo" (VAlgorithms (algorithm sample_job :: names));
             ParamsAddMember "diff" (VNumber (diff sample_job));
             ParamsAddMember "height" (VNumber (height sample_job))]
            ++ if (String.length (seed sample_job) =? 0)%nat then []
               else [ParamsAddMember "seed_hash" (VHex (seed sample_job))]) /\
    Permutation (algorithm sample_job :: names) (miner_algorithms auto_controller).
Proof.
  apply login_after_update. left. reflexivity.
Defined.
End DonateMore.

(** ** The dataset manager: release, failure and hashing *)

Module VerthashMore.
Import Verthash VerthashSpec VerthashFacts VerthashOps.

Lemma release_run s :
  release s
  = if m_initialized s
    then Some (tt, mkVerthash zeroed false, [verthash_info_free (m_info s)])
    else Some (tt, s, []).
Proof. unfold release. rewrite bind_gets. destruct (m_initialized s); reflexivity. Qed.

(** The three ways [init] runs. *)
Lemma init_cases load path s :
  exists ok s1 t,
    init load path s = Some (ok, s1, t) /\
    ((ok = true /\ s1 = s /\ t = [] /\ m_initialized s = true /\
      data (m_info s) <> None /\ fileName (m_info s) = Some path) \/
     ((t = [verthash_info_init path] /\
       (m_initialized s = false \/ data (m_info s) = None) \/
       t = [verthash_info_free (m_info s); verthash_info_init path] /\
       m_initialized s = true /\ data (m_info s) <> None /\
       fileName (m_info s) <> Some path) /\
      ((ok = true /\ fst (load path) = 0 /\
        s1 = mkVerthash (snd (load path)) true) \/
       (ok = false /\ fst (load path) <> 0 /\
        s1 = mkVerthash zeroed false)))).
Proof.
  unfold init. rewrite !bind_gets.
  destruct (load path) as [result loaded] eqn:Hl. cbn [fst snd].
  destruct (m_initialized s) eqn:Hi; cbn [andb].
  - destruct (data (m_info s)) eqn:Hd; cbn [negb is_null].
    + destruct (fileName (m_info s)) as [name|] eqn:Hf.
      * unfold strcmp_eq. destruct (String.eqb_spec name path) as [->|Hne].
        -- exists true, s, []. split; [reflexivity|]. left.
           repeat split; auto. congruence.
        -- destruct (Z.eqb_spec result 0) as [->|Hr].
           ++ do 3 eexists. split; [unfold bind, call, modify, ret; cbn; reflexivity|].
              right. split; [right; repeat split; congruence|left; auto].
           ++ do 3 eexists. split.
              { unfold bind, call, modify, ret. cbn.
                destruct (Z.eqb_spec result 0); [contradiction|]. reflexivity. }
              right. split; [right; repeat split; congruence|right; auto].
      * destruct (Z.eqb_spec result 0) as [->|Hr].
        -- do 3 eexists. split; [unfold bind, call, modify, ret; cbn; reflexivity|].
           right. split; [right; repeat split; congruence|left; auto].
        -- do 3 eexists. split.
           { unfold bind, call, modify, ret. cbn.
             destruct (Z.eqb_spec result 0); [contradiction|]. reflexivity. }
           right. split; [right; repeat split; congruence|right; auto].
    + destruct (Z.eqb_spec result 0) as [->|Hr].
      * do 3 eexists. split; [unfold bind, call, modify, ret; cbn; reflexivity|].
        right. split; [left; auto|left; auto].
      * do 3 eexists. split.
        { unfold bind, call, modify, ret. cbn.
          destruct (Z.eqb_spec result 0); [contradiction|]. reflexivity. }
        right. split; [left; auto|right; auto].
  - destruct (Z.eqb_spec result 0) as [->|Hr].
    + do 3 eexists. split; [unfold bind, call, modify, ret; cbn; reflexivity|].
      right. split; [left; auto|left; auto].
    + do 3 eexists. split.
      { unfold bind, call, modify, ret. cbn.
        destruct (Z.eqb_spec result 0); [contradiction|]. reflexivity. }
      right. split; [left; auto|right; auto].
Qed.

(** X18. [release] frees the dataset at most once: called on an initialized
    manager it frees the info, and leaves the manager zeroed, invalid and
    not initialized; called on one that is not initialized, and so whenever
    it is called a second time, it does nothing. *)
Theorem release_frees_once s :
  exists s1 t1,
    release s = Some (tt, s1, t1) /\
    release s1 = Some (tt, s1, []) /\
    (m_initialized s = true ->
     s1 = fresh /\ t1 = [verthash_info_free (m_info s)] /\ isValid s1 = false) /\
    (m_initialized s = false -> s1 = s /\ t1 = []).
Proof.
  rewrite release_run. destruct (m_initialized s) eqn:Hi.
  - do 2 eexists. split; [reflexivity|]. split; [reflexivity|].
    split; [intros _; repeat split|discriminate].
  - exists s, []. split; [reflexivity|]. split; [rewrite release_run, Hi; reflexivity|].
    split; [discriminate|auto].
Qed.

(** X19. Whenever [init] returns false the manager is empty: the info is
    zeroed and [m_initialized] is false, so [isValid] is false and
    [filePath] is null, whatever was loaded before; and it returns false
    only after the loader was called on the path and reported an error. *)
Theorem failed_init_empties_manager load path s s1 t :
  init load path s = Some (false, s1, t) ->
  s1 = fresh /\ isValid s1 = false /\ filePath s1 = None /\
  fst (load path) <> 0 /\ In (verthash_info_init path) t.
Proof.
  intros H.
  destruct (init_cases load path s) as (ok & s1' & t' & Hrun & Hc).
  rewrite Hrun in H. inversion H; subst ok s1' t'. clear H.
  destruct Hc as [(E & _)|[Ht [(E & _)|(_ & Hl & ->)]]]; try discriminate.
  repeat split; try assumption.
  destruct Ht as [[-> _]|[-> _]]; cbn; auto.
Qed.

(** X20. Whenever [init] returns true (with a loader that keeps its contract)
    the manager is initialized, [filePath] is the path that was asked for,
    and [isValid] holds exactly when the loaded data size is positive. *)
Theorem successful_init_names_its_file load path s s1 t :
  loader_contract load ->
  init load path s = Some (true, s1, t) ->
  filePath s1 = Some path /\ m_initialized s1 = true /\
  (isValid s1 = true <-> 0 < dataSize (m_info s1)).
Proof.
  intros Hc Hrun.
  destruct (init_true_loaded load path s s1 t Hc Hrun) as (Hi & Hd & Hf).
  split; [exact Hf|]. split; [exact Hi|].
  unfold isValid. destruct (data (m_info s1)); [|contradiction]. cbn [negb is_null andb].
  apply Z.ltb_lt.
Qed.

(** X21. [init] always returns, and what it calls is one of three things:
    nothing (the file is already loaded), the loader alone (nothing was
    held), or a free of the held info followed by the loader (another file
    was held).  It never frees without holding data, and afterwards a
    manager that is not initialized holds a zeroed info. *)
Theorem init_frees_only_what_it_holds load path s :
  exists ok s1 t,
    init load path s = Some (ok, s1, t) /\
    consistent s1 /\
    (t = [] /\ ok = true /\ s1 = s \/
     t = [verthash_info_init path] /\
     (m_initialized s = false \/ data (m_info s) = None) \/
     t = [verthash_info_free (m_info s); verthash_info_init path] /\
     m_initialized s = true /\ data (m_info s) <> None /\
     fileName (m_info s) <> Some path).
Proof.
  destruct (init_cases load path s) as (ok & s1 & t & Hrun & Hc).
  exists ok, s1, t. split; [exact Hrun|].
  destruct Hc as [(-> & -> & -> & Hi & _)|[Ht Hres]].
  - split; [intros H; congruence|]. left. auto.
  - split.
    + destruct Hres as [(_ & _ & ->)|(_ & _ & ->)]; intros H; [discriminate|reflexivity].
    + right. exact Ht.
Qed.

(** X22. After [release], [hash] no longer reaches the hash function: the
    manager is invalid and the output is 32 zero bytes, whatever the input
    and whatever the hash function would answer. *)
Theorem released_manager_hashes_to_zero verthash_hash s input :
  consistent s ->
  exists s1 t1,
    release s = Some (tt, s1, t1) /\
    consistent s1 /\ isValid s1 = false /\
    hash verthash_hash s1 input = repeat 0 VH_HASH_OUT_SIZE /\
    length (hash verthash_hash s1 input) = 32%nat.
Proof.
  intros Hc. rewrite release_run. destruct (m_initialized s) eqn:Hi.
  - do 2 eexists. split; [reflexivity|]. repeat split.
  - exists s, []. split; [reflexivity|]. split; [exact Hc|].
    assert (Hv : isValid s = false).
    { unfold isValid. rewrite (Hc Hi). reflexivity. }
    split; [exact Hv|]. unfold hash. rewrite Hv. cbn [negb]. split; reflexivity.
Qed.

Lemma failed_init_empties_manager_witness :
  fresh = fresh /\ isValid fresh = false /\ filePath fresh = None /\
  fst (sample_loader missing_dat) <> 0 /\
  In (verthash_info_init missing_dat)
     [verthash_info_free (m_info loaded_a); verthash_info_init missing_dat].
Proof.
  apply (failed_init_empties_manager sample_loader missing_dat loaded_a).
  vm_compute. reflexivity.
Defined.

Lemma successful_init_names_its_file_witness :
  filePath loaded_a = Some a_dat /\ m_initialized loaded_a = true /\
  (isValid loaded_a = true <-> 0 < dataSize (m_info loaded_a)).
Proof.
  apply (successful_init_names_its_file sample_loader a_dat fresh loaded_a
           [verthash_info_init a_dat]).
  - exact sample_loader_contract.
  - vm_compute. reflexivity.
Defined.

Lemma released_manager_hashes_to_zero_witness :
  exists s1 t1,
    release loaded_a = Some (tt, s1, t1) /\
    consistent s1 /\ isValid s1 = false /\
    hash (fun region _ _ => region) s1 [1; 2; 3] = repeat 0 VH_HASH_OUT_SIZE /\
    length (hash (fun region _ _ => region) s1 [1; 2; 3]) = 32%nat.
Proof.
  apply released_manager_hashes_to_zero. intros H. discriminate H.
Defined.
End VerthashMore.

(** ** Vh *)

Module VhFacts.
Import Verthash VerthashSpec VerthashFacts VerthashOps VerthashMore.

Lemma isEmpty_false_generation config :
  Vh.isEmpty (Vh.genDataFile config) = false ->
  Vh.generation config = [Vh.verthash_generate_data_file (Vh.genDataFile config)].
Proof. unfold Vh.generation. intros ->. reflexivity. Qed.

Lemma instance_init load path s :
  exists ok s1 t,
    init load path s = Some (ok, s1, t) /\
    Vh.instance (init load path) s = Some (ok, s1, map Vh.Instance t).
Proof.
  destruct (init_cases load path s) as (ok & s1 & t & Hrun & _).
  exists ok, s1, t. split; [exact Hrun|]. unfold Vh.instance. rewrite Hrun. reflexivity.
Qed.

Lemma Vh_init_loading load generate config s :
  Vh.isEmpty (Vh.genDataFile config) = true \/ generate (Vh.genDataFile config) = 0 ->
  exists ok s1 t,
    init load (Vh.loaded_path config) s = Some (ok, s1, t) /\
    Vh.init load generate config s
    = Some (ok, s1, Vh.generation config ++ map Vh.Instance t).
Proof.
  intros Hgen. unfold Vh.init, Vh.loaded_path, Vh.generation.
  destruct (Vh.isEmpty (Vh.genDataFile config)) eqn:Eg; cbn [negb].
  - destruct (instance_init load
                (if Vh.isEmpty (Vh.dataFile_of config) then Vh.kDefaultDataFile
                 else Vh.dataFile_of config) s) as (ok & s1 & t & H1 & H2).
    exists ok, s1, t. split; [exact H1|].
    rewrite bind_ret. eapply bind_run_as; [exact H2| |].
    + destruct ok; reflexivity.
    + rewrite app_nil_r. reflexivity.
  - destruct Hgen as [Hgen|Hgen]; [discriminate|]. rewrite Hgen.
    change (negb (0 =? 0)) with false. cbv iota.
    destruct (Vh.isEmpty (Vh.dataFile_of config)) eqn:Ed.
    + destruct (instance_init load (Vh.genDataFile config) s)
        as (ok & s1 & t & H1 & H2).
      exists ok, s1, t. split; [exact H1|].
      unfold bind at 1. unfold bind at 1. unfold call at 1. unfold bind at 1.
      rewrite H2. cbn. rewrite !app_nil_r. reflexivity.
    + destruct (instance_init load (Vh.dataFile_of config) s)
        as (ok & s1 & t & H1 & H2).
      exists ok, s1, t. split; [exact H1|].
      unfold bind at 1. unfold bind at 1. unfold call at 1. cbn.
      unfold bind at 1. rewrite H2. destruct ok; cbn; rewrite !app_nil_r; reflexivity.
Qed.

(** X23. [Vh::init] without a generation error is one [init] of the singleton
    on one path, after the generator call if a file to generate is
    configured: the configured data file when there is one, else the
    generated file when there is one, else [verthash.dat]; its result and
    the singleton's state are those of that [init]. *)
Theorem Vh_init_loads_one_file load generate config s :
  Vh.isEmpty (Vh.genDataFile config) = true \/ generate (Vh.genDataFile config) = 0 ->
  exists ok s1 t,
    init load (Vh.loaded_path config) s = Some (ok, s1, t) /\
    Vh.init load generate config s
    = Some (ok, s1, Vh.generation config ++ map Vh.Instance t) /\
    (Vh.isEmpty (Vh.dataFile_of config) = false ->
     Vh.loaded_path config = Vh.dataFile_of config) /\
    (Vh.isEmpty (Vh.dataFile_of config) = true ->
     Vh.isEmpty (Vh.genDataFile config) = false ->
     Vh.loaded_path config = Vh.genDataFile config) /\
    (Vh.isEmpty (Vh.dataFile_of config) = true ->
     Vh.isEmpty (Vh.genDataFile config) = true ->
     Vh.loaded_path config = Vh.kDefaultDataFile).
Proof.
  intros Hgen.
  destruct (Vh_init_loading load generate config s Hgen) as (ok & s1 & t & H1 & H2).
  exists ok, s1, t. split; [exact H1|]. split; [exact H2|].
  unfold Vh.loaded_path.
  split; [intros ->; reflexivity|]. split; intros -> ->; reflexivity.
Qed.

Lemma Vh_init_stops_on_generation_error load generate config s :
  Vh.isEmpty (Vh.genDataFile config) = false ->
  generate (Vh.genDataFile config) <> 0 ->
  Vh.init load generate config s
  = Some (false, s, [Vh.verthash_generate_data_file (Vh.genDataFile config)]).
Proof.
  intros Eg Hne. unfold Vh.init. rewrite Eg. cbn [negb].
  destruct (Z.eqb_spec (generate (Vh.genDataFile config)) 0); [contradiction|].
  reflexivity.
Qed.

(** X24. When the generator reports an error [Vh::init] returns false without
    touching the singleton: the only call is the generator, and a dataset
    that was loaded stays loaded. *)
Theorem Vh_init_generation_failure load generate config s :
  Vh.isEmpty (Vh.genDataFile config) = false ->
  generate (Vh.genDataFile config) <> 0 ->
  exists t,
    Vh.init load generate config s = Some (false, s, t) /\
    t = [Vh.verthash_generate_data_file (Vh.genDataFile config)] /\
    (forall c, ~ In (Vh.Instance c) t).
Proof.
  intros Eg Hne. eexists.
  split; [apply Vh_init_stops_on_generation_error; assumption|].
  split; [reflexivity|]. intros c [H|[]]. discriminate.
Qed.

(** X25. When [Vh::init] returns true (with a loader that keeps its contract),
    [Vh::dataFile] is the file it chose to load, [Vh::isReady] holds exactly
    when the data size is positive, and a configured generation has
    succeeded. *)
Theorem Vh_init_success_reports_file load generate config s s1 t :
  loader_contract load ->
  Vh.init load generate config s = Some (true, s1, t) ->
  Vh.dataFile s1 = Some (Vh.loaded_path config) /\
  (Vh.isReady s1 = true <-> 0 < dataSize (m_info s1)) /\
  (Vh.isEmpty (Vh.genDataFile config) = false ->
   generate (Vh.genDataFile config) = 0).
Proof.
  intros Hc Hrun.
  assert (Hgen : Vh.isEmpty (Vh.genDataFile config) = true \/
                 generate (Vh.genDataFile config) = 0).
  { destruct (Vh.isEmpty (Vh.genDataFile config)) eqn:Eg; [auto|right].
    destruct (Z.eq_dec (generate (Vh.genDataFile config)) 0) as [E|E]; [exact E|].
    rewrite (Vh_init_stops_on_generation_error load generate config s Eg E) in Hrun.
    discriminate. }
  destruct (Vh_init_loading load generate config s Hgen) as (ok & s1' & t' & H1 & H2).
  rewrite H2 in Hrun. inversion Hrun; subst ok s1' t.
  destruct (init_true_loaded load _ s s1 t' Hc H1) as (Hi & Hd & Hf).
  split; [exact Hf|]. split.
  - unfold Vh.isReady, isValid. destruct (data (m_info s1)); [|contradiction].
    cbn [negb is_null andb]. apply Z.ltb_lt.
  - intros Eg. destruct Hgen as [Hg|Hg]; [congruence|exact Hg].
Qed.

Lemma Vh_init_loads_one_file_witness :
  exists ok s1 t,
    init sample_loader (Vh.loaded_path Vh.both_paths) fresh = Some (ok, s1, t) /\
    Vh.init sample_loader Vh.generator_ok Vh.both_paths fresh
    = Some (ok, s1, Vh.generation Vh.both_paths ++ map Vh.Instance t) /\
    Vh.loaded_path Vh.both_paths = a_dat.
Proof.
  destruct (Vh_init_loads_one_file sample_loader Vh.generator_ok Vh.both_paths fresh)
    as (ok & s1 & t & H1 & H2 & H3 & _); [right; reflexivity|].
  exists ok, s1, t. split; [exact H1|]. split; [exact H2|]. apply H3. reflexivity.
Defined.

Lemma Vh_init_generation_failure_witness :
  exists t,
    Vh.init sample_loader Vh.generator_fails Vh.both_paths loaded_a
    = Some (false, loaded_a, t) /\
    t = [Vh.verthash_generate_data_file (Vh.genDataFile Vh.both_paths)] /\
    (forall c, ~ In (Vh.Instance c) t).
Proof.
  apply Vh_init_generation_failure; [reflexivity|discriminate].
Defined.

Lemma Vh_init_success_reports_file_witness :
  Vh.dataFile loaded_a = Some (Vh.loaded_path Vh.both_paths) /\
  (Vh.isReady loaded_a = true <-> 0 < dataSize (m_info loaded_a)) /\
  (Vh.isEmpty (Vh.genDataFile Vh.both_paths) = false ->
   Vh.generator_ok (Vh.genDataFile Vh.both_paths) = 0).
Proof.
  apply (Vh_init_success_reports_file sample_loader Vh.generator_ok Vh.both_paths
           fresh loaded_a
           [Vh.verthash_generate_data_file (Vh.genDataFile Vh.both_paths);
            Vh.Instance (verthash_info_init a_dat)]).
  - exact sample_loader_contract.
  - vm_compute. reflexivity.
Defined.
End VhFacts.

(** ** OclVerthashRunner *)

Module OclVerthashFacts.
Import Verthash OclVerthash.


(** The calls of [run] up to and including the kernel launch. *)
Lemma run_launch nonce launched read hashOutput r :
  m_workGroupSize r <> 0 ->
  let g := to_size_t (m_intensity r - m_intensity r mod m_workGroupSize r) in
  let launch :=
    [EnqueueWriteBuffer Input false BLOB_SIZE; EnqueueWriteBuffer Output false 4;
     SetKernelArg 0 (ArgMem (VerthashData (m_verthashData r)));
     SetKernelArg 1 (ArgMem Input);
     SetKernelArg 2 (ArgU32 (m_verthashBitmask r));
     SetKernelArg 3 (ArgU32 nonce);
     SetKernelArg 4 (ArgMem Output);
     EnqueueNDRangeKernel nonce g (m_workGroupSize r)] in
  run nonce launched read hashOutput r
  = if negb (launched =? CL_SUCCESS) then Some (Thrown, r, launch)
    else
      let count := if 15 <? nth 0 read 0 then 15 else nth 0 read 0 in
      match store 255 count hashOutput with
      | None => None
      | Some stored =>
          match memcpy stored (skipn 1 read) (Z.to_nat count) with
          | None => None
          | Some copied =>
              Some (Returned copied, r, launch ++ [EnqueueReadBuffer Output true 64])
          end
      end.
Proof.
  intros Hw. cbv zeta. unfold run. rewrite !bind_gets.
  destruct (Z.eqb_spec (m_workGroupSize r) 0); [contradiction|].
  unfold bind, call, gets, ret, undefined. cbn.
  destruct (launched =? CL_SUCCESS); cbn; [|reflexivity].
  destruct (store 255 _ hashOutput); [|reflexivity].
  destruct (memcpy _ _ _); reflexivity.
Qed.

Lemma store_spec i v l stored :
  store i v l = Some stored ->
  length stored = length l /\ nth i stored 0 = v /\
  forall j, j <> i -> nth j stored 0 = nth j l 0.
Proof.
  unfold store. destruct (Nat.ltb_spec i (length l)); [|discriminate].
  assert (Hp : length (skipn (S i) l) = (length l - S i)%nat) by apply length_skipn.
  assert (Hn : forall k, nth k (skipn (S i) l) 0 = nth (S i + k) l 0)
    by (intros k; apply nth_skipn).
  remember (skipn (S i) l) as post eqn:Epost. clear Epost.
  intros E. injection E as <-.
  assert (Hf : length (firstn i l) = i) by (rewrite length_firstn; lia).
  split; [|split].
  - rewrite length_app, Hf. cbn [length]. lia.
  - rewrite app_nth2 by lia. rewrite Hf, Nat.sub_diag. reflexivity.
  - intros j Hj. destruct (Nat.lt_ge_cases j i).
    + rewrite app_nth1 by lia. rewrite <- (firstn_skipn i l) at 2.
      rewrite app_nth1 by lia. reflexivity.
    + rewrite app_nth2 by lia. rewrite Hf.
      destruct (j - i)%nat as [|k] eqn:E; [lia|]. cbn [nth].
      rewrite Hn. f_equal. lia.
Qed.

Lemma memcpy_spec dst src n copied :
  memcpy dst src n = Some copied ->
  length copied = length dst /\
  (forall j, (j < n)%nat -> nth j copied 0 = nth j src 0) /\
  (forall j, (n <= j)%nat -> nth j copied 0 = nth j dst 0).
Proof.
  unfold memcpy.
  destruct (Nat.leb_spec n (length dst)); destruct (Nat.leb_spec n (length src));
    cbn [andb]; try discriminate.
  intros E. injection E as <-.
  assert (Hf : length (firstn n src) = n) by (rewrite length_firstn; lia).
  split; [|split].
  - rewrite length_app, Hf, length_skipn. lia.
  - intros j Hj. rewrite app_nth1 by lia. rewrite <- (firstn_skipn n src) at 2.
    rewrite app_nth1 by lia. reflexivity.
  - intros j Hj. rewrite app_nth2 by lia. rewrite Hf, nth_skipn. f_equal. lia.
Qed.



(** X27. [run] reports at most fifteen results: the count read back is clamped
    to 15 and stored at [hashOutput[0xFF]], the first [count] words of the
    caller's array are the words read after the count, and every other word
    of the caller's array is unchanged. *)
Theorem run_copies_at_most_fifteen nonce read hashOutput r :
  m_workGroupSize r <> 0 ->
  length read = 16%nat -> (255 < length hashOutput)%nat ->
  0 <= nth 0 read 0 ->
  exists out t,
    run nonce CL_SUCCESS read hashOutput r = Some (Returned out, r, t) /\
    length out = length hashOutput /\
    nth 255 out 0 = Z.min (nth 0 read 0) 15 /\
    (forall i, Z.of_nat i < Z.min (nth 0 read 0) 15 ->
               nth i out 0 = nth (S i) read 0) /\
    (forall i, Z.min (nth 0 read 0) 15 <= Z.of_nat i -> i <> 255%nat ->
               nth i out 0 = nth i hashOutput 0).
Proof.
  intros Hw Hr Hh H0.
  rewrite run_launch by exact Hw. cbv zeta. change (negb (CL_SUCCESS =? CL_SUCCESS)) with false.
  cbv iota.
  set (count := if 15 <? nth 0 read 0 then 15 else nth 0 read 0).
  assert (Hc : count = Z.min (nth 0 read 0) 15).
  { unfold count. destruct (Z.ltb_spec 15 (nth 0 read 0)); lia. }
  assert (Hc15 : 0 <= count <= 15) by lia.
  destruct (store 255 count hashOutput) as [stored|] eqn:Es.
  2:{ unfold store in Es. destruct (Nat.ltb_spec 255 (length hashOutput)); [discriminate|lia]. }
  destruct (store_spec _ _ _ _ Es) as (Hl1 & Hv1 & Ho1).
  destruct (memcpy stored (skipn 1 read) (Z.to_nat count)) as [copied|] eqn:Em.
  2:{ unfold memcpy in Em. rewrite length_skipn, Hr, Hl1 in Em.
      destruct (Nat.leb_spec (Z.to_nat count) (length hashOutput));
        destruct (Nat.leb_spec (Z.to_nat count) (16 - 1)); cbn in Em;
        try discriminate; lia. }
  destruct (memcpy_spec _ _ _ _ Em) as (Hl2 & Hlo & Hhi).
  do 2 eexists. split; [reflexivity|].
  split; [congruence|]. rewrite <- Hc. split; [|split].
  - rewrite Hhi by lia. exact Hv1.
  - intros i Hi. rewrite Hlo by lia. rewrite nth_skipn. reflexivity.
  - intros i Hi Hne. rewrite Hhi by lia. apply Ho1. exact Hne.
Qed.

Lemma load_without_dataset vh created written r :
  isValid vh = false ->
  loadVerthashData vh created written r = Some (false, r, []).
Proof. intros H. unfold loadVerthashData. rewrite H. reflexivity. Qed.

Lemma load_already_loaded vh created written r mem :
  isValid vh = true -> m_verthashData r = Some mem ->
  m_verthashDataSize r = vh_dataSize vh ->
  loadVerthashData vh created written r = Some (true, r, []).
Proof.
  intros Hv Hm Hs. unfold loadVerthashData. rewrite Hv. cbn [negb].
  rewrite !bind_gets, Hm, Hs, Z.eqb_refl. reflexivity.
Qed.

(** X28. [loadVerthashData] always returns; without a valid dataset it returns
    false and touches nothing; it returns true only with a valid dataset
    whose size it has recorded, either because a buffer of that size was
    already there (no call) or after a buffer was created and the upload
    succeeded; when it returns false with a valid dataset, either the
    creation failed or the upload failed and the new buffer was released
    and forgotten; and it releases only its old buffer or the one it just
    created. *)
Theorem loadVerthashData_outcomes vh created written r :
  exists ok r' t,
    loadVerthashData vh created written r = Some (ok, r', t) /\
    (isValid vh = false -> ok = false /\ r' = r /\ t = []) /\
    (ok = true ->
     isValid vh = true /\ m_verthashDataSize r' = vh_dataSize vh /\
     (r' = r /\ t = [] /\ m_verthashData r <> None \/
      snd created = CL_SUCCESS /\ written = CL_SUCCESS /\
      m_verthashData r' = fst created /\ m_verthashBitmask r' = dataMask vh /\
      In (EnqueueWriteBuffer (VerthashData (fst created)) true (vh_dataSize vh)) t)) /\
    (ok = false -> isValid vh = true ->
     snd created <> CL_SUCCESS /\ m_verthashData r' = fst created \/
     snd created = CL_SUCCESS /\ written <> CL_SUCCESS /\
     m_verthashData r' = None /\ In (Release (fst created)) t) /\
    (forall mem, In (Release (Some mem)) t ->
                 m_verthashData r = Some mem \/ fst created = Some mem).
Proof.
  destruct (isValid vh) eqn:Hv.
  2:{ exists false, r, []. split; [apply load_without_dataset; exact Hv|].
      repeat split; try discriminate. intros mem []. }
  unfold loadVerthashData. rewrite Hv. cbn [negb]. rewrite !bind_gets.
  destruct (m_verthashData r) as [mem|] eqn:Hm; cbn [is_null negb andb].
  - destruct (Z.eqb_spec (m_verthashDataSize r) (vh_dataSize vh)) as [Hs|Hs].
    + exists true, r, []. split; [reflexivity|].
      split; [discriminate|]. split; [|split; [discriminate|intros ? []]].
      intros _. split; [reflexivity|]. split; [exact Hs|]. left.
      repeat split. discriminate.
    + unfold bind, call, gets, modify, ret.
      cbn [m_verthashData m_verthashDataSize m_verthashBitmask set_verthashData
           set_verthashDataSize set_verthashBitmask fst snd app is_null negb].
      destruct (Z.eqb_spec (snd created) CL_SUCCESS) as [Hc|Hc]; cbn [negb];
        [destruct (Z.eqb_spec written CL_SUCCESS) as [Hw|Hw]; cbn [negb]|].
      * do 3 eexists. split; [reflexivity|]. split; [discriminate|].
        split; [|split; [discriminate|]].
        -- intros _. split; [reflexivity|]. split; [reflexivity|]. right.
           repeat split; auto. cbn. auto.
        -- intros m [E|[E|[E|[]]]]; try discriminate. injection E as <-. auto.
      * do 3 eexists. split; [reflexivity|]. split; [discriminate|].
        split; [discriminate|]. split.
        -- intros _ _. right. repeat split; auto. cbn. auto.
        -- intros m [E|[E|[E|[E|[]]]]]; try discriminate; injection E as E; subst; auto.
      * do 3 eexists. split; [reflexivity|]. split; [discriminate|].
        split; [discriminate|]. split.
        -- intros _ _. left. split; [exact Hc|reflexivity].
        -- intros m [E|[E|[]]]; try discriminate. injection E as <-. auto.
  - unfold bind, call, gets, modify, ret.
    cbn [m_verthashData m_verthashDataSize m_verthashBitmask set_verthashData
         set_verthashDataSize set_verthashBitmask fst snd app is_null negb].
    destruct (Z.eqb_spec (snd created) CL_SUCCESS) as [Hc|Hc]; cbn [negb];
      [destruct (Z.eqb_spec written CL_SUCCESS) as [Hw|Hw]; cbn [negb]|].
    + do 3 eexists. split; [reflexivity|]. split; [discriminate|].
      split; [|split; [discriminate|]].
      * intros _. split; [reflexivity|]. split; [reflexivity|]. right.
        repeat split; auto. cbn. auto.
      * intros m [E|[E|[]]]; discriminate.
    + do 3 eexists. split; [reflexivity|]. split; [discriminate|].
      split; [discriminate|]. split.
      * intros _ _. right. repeat split; auto. cbn. auto.
      * intros m [E|[E|[E|[]]]]; try discriminate; injection E as E; subst; auto.
    + do 3 eexists. split; [reflexivity|]. split; [discriminate|].
      split; [discriminate|]. split.
      * intros _ _. left. split; [exact Hc|reflexivity].
      * intros m [E|[]]; discriminate.
Qed.

(** X29. [set] uploads the dataset only when the runner has no buffer: with a
    buffer the only call sets the target as kernel argument 5; without one
    and without a valid dataset it throws, after storing the blob; without
    one and with a valid dataset whose creation and upload succeed it
    returns with the new buffer, the dataset's size and mask, and the
    blob. *)
Theorem set_uploads_only_without_buffer vh created written target blob r :
  (forall mem, m_verthashData r = Some mem ->
     set vh created written target blob r
     = Some (Returned tt, set_blob (Some blob) r, [SetKernelArg 5 (ArgU64 target)])) /\
  (m_verthashData r = None -> isValid vh = false ->
     set vh created written target blob r
     = Some (Thrown, set_blob (Some blob) r, [])) /\
  (m_verthashData r = None -> isValid vh = true ->
   snd created = CL_SUCCESS -> written = CL_SUCCESS ->
   exists r' t,
     set vh created written target blob r = Some (Returned tt, r', t) /\
     m_verthashData r' = fst created /\
     m_verthashDataSize r' = vh_dataSize vh /\
     m_verthashBitmask r' = dataMask vh /\ m_blob r' = Some blob).
Proof.
  split; [|split].
  - intros mem Hm. unfold set. rewrite bind_modify, bind_gets.
    cbn [m_verthashData set_blob]. rewrite Hm. reflexivity.
  - intros Hm Hv. unfold set. rewrite bind_modify, bind_gets.
    cbn [m_verthashData set_blob]. rewrite Hm. cbn [is_null].
    rewrite (bind_run _ _ _ _ _ _ _ _ _
               (load_without_dataset vh created written _ Hv) eq_refl).
    reflexivity.
  - intros Hm Hv Hc Hw. unfold set, loadVerthashData.
    rewrite bind_modify, bind_gets. cbn [m_verthashData set_blob].
    rewrite Hm, Hv. cbn [is_null negb].
    unfold bind, call, gets, modify, ret. cbn. rewrite Hm. cbn.
    rewrite Hc, Hw. cbn. do 2 eexists. split; [reflexivity|]. cbn. auto.
Qed.


Lemma run_copies_at_most_fifteen_witness :
  exists out t,
    run 42 CL_SUCCESS (20 :: map Z.of_nat (seq 101 15)) (repeat 9 256)
        (construct "" 1000 100 OCL_VENDOR_AMD)
    = Some (Returned out, construct "" 1000 100 OCL_VENDOR_AMD, t) /\
    nth 255 out 0 = 15 /\ nth 0 out 0 = 101 /\ nth 15 out 0 = 9.
Proof.
  destruct (run_copies_at_most_fifteen 42 (20 :: map Z.of_nat (seq 101 15))
              (repeat 9 256) (construct "" 1000 100 OCL_VENDOR_AMD))
    as (out & t & H1 & _ & H3 & H4 & H5);
    [discriminate|reflexivity|vm_compute; lia|discriminate|].
  exists out, t. split; [exact H1|]. split; [exact H3|]. split.
  - rewrite (H4 0%nat); [reflexivity|reflexivity].
  - rewrite (H5 15%nat); [reflexivity|discriminate|discriminate].
Defined.
End OclVerthashFacts.
